(** * Multichannel audio front-end (NeMo [audio_modules.py])

    A shallow embedding of the mask estimation, masking, beamforming and
    WPE dereverberation modules of
    [nemo/collections/asr/modules/audio_modules.py], with the properties of
    their specification stated over it.

    Tensors are modelled as torch stores contiguous ones: a shape together
    with the elements in row-major order.  Real-valued entries are real
    numbers, complex-valued entries are pairs of reals; rounding of the
    floating-point formats is not modelled.  The factorisations and
    eigendecompositions of the linear-algebra backend are parameters. *)

From Stdlib Require Import List ZArith Arith Lia Bool String.
From Stdlib Require Import Reals Lra.
From Stdlib Require Floats.
Import ListNotations.

Set Implicit Arguments.

(** ** Errors raised by the Python code *)

Inductive error : Type :=
| AssertionError (msg : string)
| RuntimeError (msg : string)
| ValueError (msg : string)
| UnboundLocalError (name : string)
| LinAlgError.

Inductive result (A : Type) : Type :=
| Ok (a : A)
| Err (e : error).

Arguments Ok {A} a.
Arguments Err {A} e.

Definition bind {A B : Type} (r : result A) (k : A -> result B) : result B :=
  match r with
  | Ok a => k a
  | Err e => Err e
  end.

Notation "x <- r ;; k" := (bind r (fun x => k))
  (at level 61, r at next level, right associativity).

Definition assert (b : bool) (msg : string) : result unit :=
  if b then Ok tt else Err (AssertionError msg).

(** ** Tensors: a shape and the elements in row-major order *)

Record tensor (A : Type) : Type := mkTensor {
  shape : list nat;
  data : list A
}.

Definition numel (s : list nat) : nat := fold_right Nat.mul 1 s.

(** The multi-index of the [k]-th element of a tensor of shape [s]. *)
Fixpoint unflatten (s : list nat) (k : nat) : list nat :=
  match s with
  | [] => []
  | _ :: s' => (k / numel s') :: unflatten s' (k mod numel s')
  end.

(** The position of the element at multi-index [idx]. *)
Fixpoint flat_index (s idx : list nat) : nat :=
  match s, idx with
  | _ :: s', i :: idx' => i * numel s' + flat_index s' idx'
  | _, _ => 0
  end.

Definition indices (s : list nat) : list (list nat) :=
  map (unflatten s) (seq 0 (numel s)).

(** [in_range s idx]: [idx] addresses an element of a tensor of shape [s]. *)
Fixpoint in_range (s idx : list nat) : Prop :=
  match s, idx with
  | [], [] => True
  | n :: s', i :: idx' => i < n /\ in_range s' idx'
  | _, _ => False
  end.

(** The tensor of shape [s] whose element at [idx] is [f idx]. *)
Definition tab {A : Type} (s : list nat) (f : list nat -> A) : tensor A :=
  mkTensor s (map f (indices s)).

(** Indexing; [d] stands for what is read outside the tensor. *)
Definition get {A : Type} (d : A) (x : tensor A) (idx : list nat) : A :=
  nth (flat_index (shape x) idx) (data x) d.

Definition tmap {A B : Type} (f : A -> B) (x : tensor A) : tensor B :=
  mkTensor (shape x) (map f (data x)).

Definition wf {A : Type} (x : tensor A) : Prop :=
  List.length (data x) = numel (shape x).

(** ** Broadcasting, as torch aligns shapes: from the last axis, an axis of
    size 1 is read at index 0 and missing leading axes are ignored. *)

Fixpoint bidx (s idx : list nat) : list nat :=
  match s, idx with
  | n :: s', i :: idx' => (if n =? 1 then 0 else i) :: bidx s' idx'
  | _, _ => []
  end.

(** [expandable s t]: a tensor of shape [s] (of the rank of [t]) can be
    expanded to shape [t]. *)
Fixpoint expandable (s t : list nat) : bool :=
  match s, t with
  | [], [] => true
  | n :: s', m :: t' => ((n =? m) || (n =? 1)) && expandable s' t'
  | _, _ => false
  end.

Definition align (rank : nat) (s : list nat) : list nat :=
  repeat 1 (rank - List.length s) ++ s.

(** Reading [x], broadcast to a tensor of rank [rank], at [idx]. *)
Definition bget {A : Type} (d : A) (x : tensor A) (rank : nat) (idx : list nat) : A :=
  get d x (skipn (rank - List.length (shape x)) (bidx (align rank (shape x)) idx)).

(** ** torch primitives used by the modules *)

Section TorchOps.
Context {A : Type} (zero : A).

(** [x.masked_fill(mask, v)]: the mask is broadcast to the shape of [x]. *)
Definition masked_fill (x : tensor A) (mask : tensor bool) (v : A) : result (tensor A) :=
  let rank := List.length (shape x) in
  if (List.length (shape mask) <=? rank) && expandable (align rank (shape mask)) (shape x)
  then Ok (tab (shape x) (fun idx => if bget false mask rank idx then v else get zero x idx))
  else Err (RuntimeError "mask is not broadcastable to the tensor").

(** [torch.nn.functional.pad(x, (p, 0))] on a 4-D tensor: [p] zeros are put
    before the time axis; a negative [p] crops. *)
Definition pad_time (p : Z) (x : tensor A) : result (tensor A) :=
  match shape x with
  | [B; C; F; N] =>
      let N' := (Z.of_nat N + p)%Z in
      if (N' <? 0)%Z then Err (RuntimeError "padding gives a negative size")
      else Ok (tab [B; C; F; Z.to_nat N']
                 (fun idx => match idx with
                             | [b; c; f; t] =>
                                 let k := (Z.of_nat t - p)%Z in
                                 if (k <? 0)%Z then zero else get zero x [b; c; f; Z.to_nat k]
                             | _ => zero
                             end))
  | _ => Err (RuntimeError "expecting a 4-D tensor")
  end.

(** [x.unfold(-1, size, 1)] on a 4-D tensor: all windows of [size]
    consecutive time steps; torch refuses a window longer than the axis. *)
Definition unfold_time (size : Z) (x : tensor A) : result (tensor A) :=
  match shape x with
  | [B; C; F; N] =>
      if (size <? 0)%Z || (Z.of_nat N <? size)%Z
      then Err (RuntimeError "maximum size for tensor at dimension 3 exceeded")
      else Ok (tab [B; C; F; N - Z.to_nat size + 1; Z.to_nat size]
                 (fun idx => match idx with
                             | [b; c; f; t; l] => get zero x [b; c; f; t + l]
                             | _ => zero
                             end))
  | _ => Err (RuntimeError "expecting a 4-D tensor")
  end.

(** The end of the Python slice [:k] over an axis of size [n]. *)
Definition slice_stop (k : Z) (n : nat) : nat :=
  if (k <? 0)%Z then Z.to_nat (Z.max 0 (Z.of_nat n + k)) else Nat.min (Z.to_nat k) n.

(** [x[:, :, :, :n_steps, :]] on a 5-D tensor. *)
Definition take_steps (n_steps : Z) (x : tensor A) : result (tensor A) :=
  match shape x with
  | [B; C; F; T; L] =>
      Ok (tab [B; C; F; slice_stop n_steps T; L] (fun idx => get zero x idx))
  | _ => Err (RuntimeError "too many indices for tensor")
  end.

(** [WPEFilter.convtensor] *)
Definition convtensor (x : tensor A) (filter_length delay : Z) (n_steps : option Z)
  : result (tensor A) :=
  match shape x with
  | [B; C; F; N] =>
      let n_steps := match n_steps with
                     | None => Z.of_nat N
                     | Some n => n
                     end in
      x <- pad_time (filter_length - 1 + delay) x ;;
      tilde_X <- unfold_time filter_length x ;;
      take_steps n_steps tilde_X
  | _ => Err (RuntimeError "Expecting a 4-D input")
  end.

End TorchOps.

(** ** More tensor operations *)

(** The shape two same-rank shapes broadcast to, if any. *)
Fixpoint broadcast_shapes (s1 s2 : list nat) : option (list nat) :=
  match s1, s2 with
  | [], [] => Some []
  | n :: s1', m :: s2' =>
      match broadcast_shapes s1' s2' with
      | Some s =>
          if n =? m then Some (n :: s)
          else if n =? 1 then Some (m :: s)
          else if m =? 1 then Some (n :: s)
          else None
      | None => None
      end
  | _, _ => None
  end.

(** An elementwise binary operation with broadcasting. *)
Definition broadcast2 {A B C : Type} (dA : A) (dB : B) (f : A -> B -> C)
  (x : tensor A) (y : tensor B) : result (tensor C) :=
  let rank := Nat.max (List.length (shape x)) (List.length (shape y)) in
  match broadcast_shapes (align rank (shape x)) (align rank (shape y)) with
  | Some s => Ok (tab s (fun idx => f (bget dA x rank idx) (bget dB y rank idx)))
  | None => Err (RuntimeError "The size of tensor a must match the size of tensor b")
  end.

(** [x.reshape(s)] (and [unsqueeze], indexing with [None]): the elements
    are kept in order. *)
Definition reshape {A : Type} (s : list nat) (x : tensor A) : result (tensor A) :=
  if numel s =? numel (shape x) then Ok (mkTensor s (data x))
  else Err (RuntimeError "shape is invalid for input size").

(** [torch.any] over a boolean test of the elements. *)
Definition tany {A : Type} (p : A -> bool) (x : tensor A) : bool :=
  existsb p (data x).

(** [x[:, m, ...]] on a 4-D tensor; an index outside the axis is refused. *)
Definition select_channel {A : Type} (d : A) (m : nat) (x : tensor A) : result (tensor A) :=
  match shape x with
  | [B; M; F; N] =>
      if m <? M
      then Ok (tab [B; F; N] (fun idx => match idx with
                                         | [b; f; t] => get d x [b; m; f; t]
                                         | _ => d
                                         end))
      else Err (RuntimeError "index is out of bounds for dimension 1")
  | _ => Err (RuntimeError "too many indices for tensor")
  end.

(** A bound of a Python slice, normalised over an axis of size [n]. *)
Definition slice_bound (i : Z) (n : nat) : nat :=
  if (i <? 0)%Z then Z.to_nat (Z.max 0 (Z.of_nat n + i)) else Nat.min (Z.to_nat i) n.

(** [x[:, start:stop, ...]] on a 4-D tensor. *)
Definition slice_channels {A : Type} (d : A) (start stop : Z) (x : tensor A)
  : result (tensor A) :=
  match shape x with
  | [B; C; F; N] =>
      let lo := slice_bound start C in
      let hi := slice_bound stop C in
      Ok (tab [B; hi - lo; F; N] (fun idx => match idx with
                                             | [b; k; f; t] => get d x [b; lo + k; f; t]
                                             | _ => d
                                             end))
  | _ => Err (RuntimeError "too many indices for tensor")
  end.

(** [torch.concatenate([x, y], axis=1)] on 4-D tensors. *)
Definition cat_channels {A : Type} (d : A) (x y : tensor A) : result (tensor A) :=
  match shape x, shape y with
  | [B; M1; F; N], [B'; M2; F'; N'] =>
      if (B =? B') && (F =? F') && (N =? N')
      then Ok (tab [B; M1 + M2; F; N]
                 (fun idx => match idx with
                             | [b; k; f; t] =>
                                 if k <? M1 then get d x [b; k; f; t]
                                 else get d y [b; k - M1; f; t]
                             | _ => d
                             end))
      else Err (RuntimeError "Sizes of tensors must match except in dimension 1")
  | _, _ => Err (RuntimeError "Tensors must have same number of dimensions")
  end.

Fixpoint concatenate {A : Type} (d : A) (xs : list (tensor A)) : result (tensor A) :=
  match xs with
  | [] => Err (RuntimeError "expected a non-empty list of Tensors")
  | [x] => Ok x
  | x :: rest => y <- concatenate d rest ;; cat_channels d x y
  end.

(** ** Real and complex scalars *)

Open Scope R_scope.

Definition Reqb (x y : R) : bool := if Req_dec_T x y then true else false.
Definition Rltb (x y : R) : bool := if Rlt_dec x y then true else false.
Definition Rleb (x y : R) : bool := if Rle_dec x y then true else false.

(** [torch.clamp(x, min=lo, max=hi)] *)
Definition clamp (lo hi x : R) : R := Rmin (Rmax x lo) hi.

(** The sum of [f 0 .. f (n-1)]. *)
Definition sum_upto (n : nat) (f : nat -> R) : R :=
  fold_right (fun k acc => f k + acc) 0 (seq 0 n).

Record complex : Type := mkC { re : R; im : R }.

Definition Czero : complex := mkC 0 0.
Definition C_of_R (r : R) : complex := mkC r 0.
Definition Cadd (a b : complex) : complex := mkC (re a + re b) (im a + im b).
Definition Csub (a b : complex) : complex := mkC (re a - re b) (im a - im b).
Definition Cmul (a b : complex) : complex :=
  mkC (re a * re b - im a * im b) (re a * im b + im a * re b).
Definition Cconj (a : complex) : complex := mkC (re a) (- im a).
Definition Cabs (a : complex) : R := sqrt (re a * re a + im a * im a).
(** A real tensor entry times a complex one. *)
Definition Cscale (r : R) (a : complex) : complex := mkC (r * re a) (r * im a).

Definition Csum_upto (n : nat) (f : nat -> complex) : complex :=
  fold_right (fun k acc => Cadd (f k) acc) Czero (seq 0 n).

(** Modelled from the spec: [db2mag] (module [parts.utils.audio_utils]) is not
    part of the sources; thresholds given in dB are converted to linear
    magnitude, -200 dB being 1e-10 and 0 dB being 1. *)
Definition db2mag (db : R) : R := Rpower 10 (db / 20).

(** Modelled from the spec: [make_seq_mask_like] (module
    [parts.preprocessing.features]) is not part of the sources.  With
    [valid_ones=False] the mask marks the time steps at or beyond the valid
    length of each batch item; it has the rank of [like], one entry per batch
    item and time step, and size 1 on the other axes. *)
Definition make_seq_mask_like {A : Type} (lengths : tensor Z) (like : tensor A)
  (valid_ones : bool) : tensor bool :=
  let T := last (shape like) 0%nat in
  tab (hd 0%nat (shape lengths) :: repeat 1%nat (List.length (shape like) - 2) ++ [T])
    (fun idx =>
       let valid := (Z.of_nat (last idx 0%nat) <? get 0%Z lengths [hd 0%nat idx])%Z in
       if valid_ones then valid else negb valid).

Fixpoint map_result {A B : Type} (f : A -> result B) (l : list A) : result (list B) :=
  match l with
  | [] => Ok []
  | a :: l' => b <- f a ;; bs <- map_result f l' ;; Ok (b :: bs)
  end.

(** [torch.sum(x, dim=1)] on a 4-D real tensor. *)
Definition sum_channels (x : tensor R) : result (tensor R) :=
  match shape x with
  | [B; M; F; N] =>
      Ok (tab [B; F; N] (fun idx => match idx with
                                    | [b; f; t] => sum_upto M (fun m => get 0 x [b; m; f; t])
                                    | _ => 0
                                    end))
  | _ => Err (RuntimeError "Dimension out of range")
  end.

(** [x.unsqueeze(1)] *)
Definition unsqueeze1 {A : Type} (x : tensor A) : result (tensor A) :=
  match shape x with
  | B :: s => reshape (B :: 1%nat :: s) x
  | [] => Err (RuntimeError "Dimension out of range")
  end.

(** ** MaskReferenceChannel *)

Module MaskReferenceChannel.

Record t : Type := mk {
  ref_channel : Z;
  mask_min : R;
  mask_max : R
}.

Definition init (ref_channel : Z) (mask_min_db mask_max_db : R) : t :=
  mk ref_channel (db2mag mask_min_db) (db2mag mask_max_db).

Definition forward (self : t) (input : tensor complex) (input_length : tensor Z)
  (mask : tensor R) : result (tensor complex * tensor Z) :=
  (* Apply thresholds *)
  let mask := tmap (clamp (mask_min self) (mask_max self)) mask in
  (* Apply each output mask on the ref channel *)
  ref <- slice_channels Czero (ref_channel self) (ref_channel self + 1) input ;;
  output <- broadcast2 0 Czero Cscale mask ref ;;
  Ok (output, input_length).

End MaskReferenceChannel.

(** ** MaskBasedBeamformer *)

(** Modelled from the spec: [ParametricMultichannelWienerFilter] (module
    [parts.submodules.multichannel_modules]) is not part of the sources.  The
    spatial filter is an external component: its constructor keeps the
    arguments it is given, and applying it to (input, desired mask,
    undesired mask) is left to the component. *)
Module ParametricMultichannelWienerFilter.

Record t : Type := mk {
  beta : R;
  rank : string;
  postfilter : option string;
  ref_channel : option Z;
  ref_hard : bool;
  ref_hard_use_grad : bool;
  ref_subband_weighting : bool;
  num_subbands : option Z;
  output_channel_reduction : option string;
  diag_reg : option R;
  eps : R
}.

End ParametricMultichannelWienerFilter.

Module MaskBasedBeamformer.

Module PMWF := ParametricMultichannelWienerFilter.

(** The arguments of [__init__]. *)
Record args : Type := mkArgs {
  filter_type : string;
  filter_beta : R;
  filter_rank : string;
  filter_postfilter : option string;
  filter_output_channel_reduction : option string;
  ref_channel : option Z;
  ref_hard : bool;
  ref_hard_use_grad : bool;
  ref_subband_weighting : bool;
  num_subbands : option Z;
  mask_min_db : R;
  mask_max_db : R;
  postmask_min_db : R;
  postmask_max_db : R;
  diag_reg : option R;
  eps : R
}.

Record t : Type := mk {
  self_filter_type : string;
  filter : PMWF.t;
  mask_min : R;
  mask_max : R;
  postmask_min : R;
  postmask_max : R
}.

Definition beta_warning : string :=
  "Using filter type mvdr_souden: beta will be automatically set to zero and rank to one.".

(** [__init__]: the constructed module and the warnings it logged. *)
Definition init (a : args) : result (t * list string) :=
  if negb ((filter_type a =? "pmwf")%string || (filter_type a =? "mvdr_souden")%string)
  then Err (ValueError "Unknown filter type")
  else
    let souden := (filter_type a =? "mvdr_souden")%string && negb (Reqb (filter_beta a) 0) in
    let warnings := if souden then [beta_warning] else [] in
    let filter_beta' := if souden then 0 else filter_beta a in
    let filter_rank' := if souden then "one"%string else filter_rank a in
    (* Prepare filter *)
    let filter :=
      PMWF.mk filter_beta' filter_rank' (filter_postfilter a) (ref_channel a)
        (ref_hard a) (ref_hard_use_grad a) (ref_subband_weighting a) (num_subbands a)
        (filter_output_channel_reduction a) (diag_reg a) (eps a) in
    (* Mask thresholding *)
    _ <- assert (Rltb (mask_min_db a) (mask_max_db a)) "mask_min_db < mask_max_db" ;;
    (* Postmask thresholding *)
    _ <- assert (Rleb (postmask_min_db a) (postmask_max_db a))
           "postmask_min_db <= postmask_max_db" ;;
    Ok (mk (filter_type a) filter (db2mag (mask_min_db a)) (db2mag (mask_max_db a))
          (db2mag (postmask_min_db a)) (db2mag (postmask_max_db a)), warnings).

Section Forward.
(** Applying the spatial filter: [self.filter(input=, mask_s=, mask_n=)]. *)
Variable filter_forward :
  PMWF.t -> tensor complex -> tensor R -> tensor R -> result (tensor complex).

(** The undesired-signal mask for output [m], before thresholding. *)
Definition undesired_mask (mask : tensor R) (mask_undesired : option (tensor R))
  (num_masks m : nat) (mask_d : tensor R) : result (tensor R) :=
  match mask_undesired with
  | Some mu => select_channel 0 m mu
  | None =>
      if (num_masks =? 1)%nat
      then (* If a single mask is estimated, use the complement *)
        Ok (tmap (fun v => 1 - v) mask_d)
      else (* Use sum of all other sources *)
        s <- sum_channels mask ;; broadcast2 0 0 Rminus s mask_d
  end.

Definition fill_opt {A : Type} (zero : A) (length_mask : option (tensor bool))
  (x : tensor A) : result (tensor A) :=
  match length_mask with
  | Some lm => masked_fill zero x lm zero
  | None => Ok x
  end.

(** The body of the loop over the masks. *)
Definition output_for_mask (self : t) (input : tensor complex) (mask : tensor R)
  (mask_undesired : option (tensor R)) (length_mask : option (tensor bool))
  (num_masks m : nat) : result (tensor complex) :=
  (* Desired signal mask *)
  mask_d <- select_channel 0 m mask ;;
  (* Undesired signal mask *)
  mask_u <- undesired_mask mask mask_undesired num_masks m mask_d ;;
  (* Threshold masks *)
  let mask_d := tmap (clamp (mask_min self) (mask_max self)) mask_d in
  let mask_u := tmap (clamp (mask_min self) (mask_max self)) mask_u in
  mask_d <- fill_opt 0 length_mask mask_d ;;
  mask_u <- fill_opt 0 length_mask mask_u ;;
  (* Apply filter *)
  output_m <- filter_forward (filter self) input mask_d mask_u ;;
  (* Optional: apply a postmask with different thresholds *)
  if Rltb (postmask_min self) (postmask_max self)
  then
    pm <- select_channel 0 m mask ;;
    pm <- unsqueeze1 (tmap (clamp (postmask_min self) (postmask_max self)) pm) ;;
    broadcast2 Czero 0 (fun c r => Cscale r c) output_m pm
  else Ok output_m.

Definition forward (self : t) (input : tensor complex) (mask : tensor R)
  (mask_undesired : option (tensor R)) (input_length : option (tensor Z))
  : result (tensor complex * option (tensor Z)) :=
  (* Length mask *)
  length_mask <- match input_length with
                 | Some lengths =>
                     like <- select_channel 0 0 mask ;;
                     Ok (Some (make_seq_mask_like lengths like false))
                 | None => Ok None
                 end ;;
  match shape mask with
  | _ :: num_masks :: _ =>
      (* Use each mask to generate an output *)
      output <- map_result
                  (output_for_mask self input mask mask_undesired length_mask num_masks)
                  (seq 0 num_masks) ;;
      (* Combine outputs along the channel dimension *)
      output <- concatenate Czero output ;;
      (* Apply masking *)
      output <- match length_mask with
                | Some lm => lm <- unsqueeze1 lm ;; masked_fill Czero output lm Czero
                | None => Ok output
                end ;;
      Ok (output, input_length)
  | _ => Err (RuntimeError "Dimension out of range")
  end.

End Forward.

End MaskBasedBeamformer.

(** ** Data types of tensors

    A tensor that enters a module carries its torch data type.  The
    real-valued types hold entries with a zero imaginary part; [to] a
    real-valued type discards the imaginary parts, as torch does. *)

Inductive dtype : Type := float32 | float64 | cfloat | cdouble.

Definition dtype_is_complex (d : dtype) : bool :=
  match d with
  | cfloat | cdouble => true
  | float32 | float64 => false
  end.

Record dtensor (A : Type) : Type := mkD {
  dtype_of : dtype;
  values : tensor A
}.

(** [x.to(dtype=d)]; [real_part] keeps the real part of an entry. *)
Definition to_dtype {A : Type} (real_part : A -> A) (d : dtype) (x : dtensor A) : dtensor A :=
  mkD d (if dtype_is_complex d then values x else tmap real_part (values x)).

Definition is_complex {A : Type} (x : dtensor A) : bool := dtype_is_complex (dtype_of x).

Definition Creal_part (a : complex) : complex := mkC (re a) 0.

(** ** WPEFilter *)

Module WPEFilter.

Record t : Type := mk {
  filter_length : Z;
  prediction_delay : Z;
  diag_reg : option R;
  eps : R
}.

(** [torch.mean(power, dim=-3)] on a 4-D tensor. *)
Definition mean_channels (x : tensor R) : result (tensor R) :=
  match shape x with
  | [B; C; F; N] =>
      Ok (tab [B; F; N]
            (fun idx => match idx with
                        | [b; f; t] => sum_upto C (fun c => get 0 x [b; c; f; t]) / INR C
                        | _ => 0
                        end))
  | _ => Err (RuntimeError "Dimension out of range")
  end.

(** [torch.einsum('bjfik,bmfin->bfjkmn', a, c)]; the sizes of a repeated
    subscript have to agree. *)
Definition einsum_Q (a c : tensor complex) : result (tensor complex) :=
  match shape a, shape c with
  | [B; J; F; T; K], [B'; M; F'; T'; N] =>
      if ((B =? B') && (F =? F') && (T =? T'))%nat
      then Ok (tab [B; F; J; K; M; N]
                 (fun idx => match idx with
                             | [b; f; j; k; m; n] =>
                                 Csum_upto T (fun i => Cmul (get Czero a [b; j; f; i; k])
                                                            (get Czero c [b; m; f; i; n]))
                             | _ => Czero
                             end))
      else Err (RuntimeError "einsum(): operands do not broadcast")
  | _, _ => Err (RuntimeError "einsum(): subscripts do not match the operands")
  end.

(** [torch.einsum('bjfik,bmfi->bfjkm', a, c)] *)
Definition einsum_R (a c : tensor complex) : result (tensor complex) :=
  match shape a, shape c with
  | [B; J; F; T; K], [B'; M; F'; T'] =>
      if ((B =? B') && (F =? F') && (T =? T'))%nat
      then Ok (tab [B; F; J; K; M]
                 (fun idx => match idx with
                             | [b; f; j; k; m] =>
                                 Csum_upto T (fun i => Cmul (get Czero a [b; j; f; i; k])
                                                            (get Czero c [b; m; f; i]))
                             | _ => Czero
                             end))
      else Err (RuntimeError "einsum(): operands do not broadcast")
  | _, _ => Err (RuntimeError "einsum(): subscripts do not match the operands")
  end.

(** [torch.einsum('bjfik,bmfjk->bmfi', a, c)] *)
Definition einsum_apply (a c : tensor complex) : result (tensor complex) :=
  match shape a, shape c with
  | [B; J; F; T; K], [B'; M; F'; J'; K'] =>
      if ((B =? B') && (F =? F') && (J =? J') && (K =? K'))%nat
      then Ok (tab [B; M; F; T]
                 (fun idx => match idx with
                             | [b; m; f; i] =>
                                 Csum_upto J (fun j =>
                                   Csum_upto K (fun k =>
                                     Cmul (get Czero a [b; j; f; i; k])
                                          (get Czero c [b; m; f; j; k])))
                             | _ => Czero
                             end))
      else Err (RuntimeError "einsum(): operands do not broadcast")
  | _, _ => Err (RuntimeError "einsum(): subscripts do not match the operands")
  end.

(** The valid-length masking of [forward] and [estimate_correlations]:
    [x.masked_fill(make_seq_mask_like(lengths, like=x, time_dim=-1,
    valid_ones=False), 0.0)]. *)
Definition mask_padded_frames {A : Type} (zero : A) (x : tensor A) (input_length : tensor Z)
  : result (tensor A) :=
  let length_mask := make_seq_mask_like input_length x false in
  masked_fill zero x length_mask zero.

Definition estimate_correlations (input : tensor complex) (weight : tensor R)
  (tilde_input : tensor complex) (input_length : option (tensor Z))
  : result (tensor complex * tensor complex) :=
  weight <- match input_length with
            | Some lengths => (* Take only valid samples into account *)
                mask_padded_frames 0 weight lengths
            | None => Ok weight
            end ;;
  (* Calculate (1); weight[:, None, :, :, None] * tilde_input *)
  w5 <- match shape weight with
        | [B; F; N] => reshape [B; 1%nat; F; N; 1%nat] weight
        | _ => Err (RuntimeError "too many indices for tensor")
        end ;;
  wt <- broadcast2 0 Czero Cscale w5 tilde_input ;;
  Q <- einsum_Q (tmap Cconj tilde_input) wt ;;
  (* Calculate (2); weight[:, None, :, :] * input *)
  w4 <- unsqueeze1 weight ;;
  wx <- broadcast2 0 Czero Cscale w4 input ;;
  R <- einsum_R (tmap Cconj tilde_input) wx ;;
  Ok (Q, R).

(** [diag_reg] is used as a condition: [None] and [0.0] are false. *)
Definition truthy (diag_reg : option R) : bool :=
  match diag_reg with
  | Some r => negb (Reqb r 0)
  | None => false
  end.

(** The regularization constant of each (b, f):
    [self.diag_reg * torch.diagonal(Q, dim1=-2, dim2=-1).sum(-1).real + self.eps] *)
Definition diag_loading (dr eps : R) (Q : tensor complex) : result (tensor R) :=
  match shape Q with
  | [B; F; n; n'] =>
      Ok (tab [B; F]
            (fun idx => match idx with
                        | [b; f] =>
                            dr * re (Csum_upto (Nat.min n n')
                                       (fun i => get Czero Q [b; f; i; i])) + eps
                        | _ => 0
                        end))
  | _ => Err (RuntimeError "Dimension out of range")
  end.

(** [torch.diag_embed(v.unsqueeze(-1) * torch.ones(n))] *)
Definition diag_embed_const (n : nat) (v : tensor R) : result (tensor R) :=
  match shape v with
  | [B; F] =>
      Ok (tab [B; F; n; n]
            (fun idx => match idx with
                        | [b; f; i; j] => if (i =? j)%nat then get 0 v [b; f] * 1 else 0
                        | _ => 0
                        end))
  | _ => Err (RuntimeError "Dimension out of range")
  end.

(** The diagonal regularization of [estimate_filter], on the reshaped [Q]. *)
Definition regularize (self : t) (Q : tensor complex) : result (tensor complex) :=
  if truthy (diag_reg self)
  then
    let dr := match diag_reg self with Some r => r | None => 0 end in
    (* Regularization: diag_reg * trace(Q) + eps *)
    diag_reg' <- diag_loading dr (eps self) Q ;;
    (* Apply regularization on Q *)
    d <- diag_embed_const (last (shape Q) 0%nat) diag_reg' ;;
    broadcast2 Czero 0 (fun q r => Cadd q (C_of_R r)) Q d
  else Ok Q.

(** [QL.conj().transpose(-2, -1)] on a 4-D tensor. *)
Definition conj_transpose (x : tensor complex) : result (tensor complex) :=
  match shape x with
  | [B; F; n; m] =>
      Ok (tab [B; F; m; n] (fun idx => match idx with
                                       | [b; f; i; j] => Cconj (get Czero x [b; f; j; i])
                                       | _ => Czero
                                       end))
  | _ => Err (RuntimeError "Dimension out of range")
  end.

(** [G.permute(0, 4, 1, 2, 3)] on a 5-D tensor. *)
Definition permute_04123 (x : tensor complex) : result (tensor complex) :=
  match shape x with
  | [B; F; C; L; Co] =>
      Ok (tab [B; Co; F; C; L] (fun idx => match idx with
                                           | [b; o; f; c; l] => get Czero x [b; f; c; l; o]
                                           | _ => Czero
                                           end))
  | _ => Err (RuntimeError "number of dims don't match in permute")
  end.

Section Backend.
(** The linear-algebra backend: [torch.linalg.cholesky] and
    [torch.linalg.solve_triangular(A, B, upper=)], batched. *)
Variable cholesky : tensor complex -> result (tensor complex).
Variable solve_triangular : tensor complex -> tensor complex -> bool -> result (tensor complex).

(** The solve of [estimate_filter]: Cholesky decomposition, then forward
    and backward substitution. *)
Definition cholesky_solve (Q R : tensor complex) : result (tensor complex) :=
  (* Use Cholesky decomposition *)
  QL <- cholesky Q ;;
  (* Forward and backward substitution *)
  G <- solve_triangular QL R false ;;
  QLH <- conj_transpose QL ;;
  solve_triangular QLH G true.

Definition estimate_filter (self : t) (Q R : tensor complex) : result (tensor complex) :=
  match shape Q with
  | [B; F; C; filter_length'; _; _] =>
      _ <- assert (Z.of_nat filter_length' =? filter_length self)%Z
             "Shape of Q is not matching filter length" ;;
      (* Reshape to analytical dimensions for each (b, f) *)
      let CL := Z.to_nat (Z.of_nat C * filter_length self) in
      Q <- reshape [B; F; CL; (C * filter_length')%nat] Q ;;
      R <- reshape [B; F; CL; C] R ;;
      (* Diagonal regularization *)
      Q <- regularize self Q ;;
      (* Solve for the filter *)
      G <- cholesky_solve Q R ;;
      (* Reshape to desired representation *)
      G <- reshape [B; F; C; filter_length'; C] G ;;
      (* Move output channels to front *)
      permute_04123 G
  | _ => Err (ValueError "not enough values to unpack")
  end.

Definition apply_filter (self : t) (filter : tensor complex)
  (input tilde_input : option (tensor complex)) : result (tensor complex) :=
  match input, tilde_input with
  | None, None => Err (RuntimeError "Both inputs cannot be None simultaneously.")
  | Some _, Some _ => Err (RuntimeError "Both inputs cannot be provided simultaneously.")
  | Some input, None =>
      tilde_input <- convtensor Czero input (filter_length self) (prediction_delay self) None ;;
      einsum_apply tilde_input filter
  | None, Some tilde_input => einsum_apply tilde_input filter
  end.

Definition forward (self : t) (input : tensor complex) (power : tensor R)
  (input_length : option (tensor Z)) : result (tensor complex * option (tensor Z)) :=
  (* Temporal weighting: average power over channels *)
  weight <- mean_channels power ;;
  (* Use inverse power as the weight *)
  let weight := tmap (fun w => 1 / (w + eps self)) weight in
  (* Multi-channel convolution matrix for each subband *)
  tilde_input <- convtensor Czero input (filter_length self) (prediction_delay self) None ;;
  (* Estimate correlation matrices *)
  QR <- estimate_correlations input weight tilde_input input_length ;;
  (* Estimate prediction filter *)
  G <- estimate_filter self (fst QR) (snd QR) ;;
  (* Apply prediction filter *)
  undesired_signal <- apply_filter self G None (Some tilde_input) ;;
  (* Dereverberation *)
  desired_signal <- broadcast2 Czero Czero Csub input undesired_signal ;;
  desired_signal <- match input_length with
                    | Some lengths => (* Mask padded frames *)
                        mask_padded_frames Czero desired_signal lengths
                    | None => Ok desired_signal
                    end ;;
  Ok (desired_signal, input_length).

End Backend.

End WPEFilter.

(** ** MaskBasedDereverbWPE *)

Module MaskBasedDereverbWPE.

Record t : Type := mk {
  filter : WPEFilter.t;
  num_iterations : Z;
  mask_min : R;
  mask_max : R;
  dtype_ : dtype
}.

Definition init (filter_length prediction_delay num_iterations : Z)
  (mask_min_db mask_max_db : R) (diag_reg : option R) (eps : R) (dt : dtype) : result t :=
  (* Filter setup *)
  let filter := WPEFilter.mk filter_length prediction_delay diag_reg eps in
  (* Internal calculations *)
  _ <- assert (dtype_is_complex dt) "Unsupported dtype, expecting cfloat or cdouble" ;;
  Ok (mk filter num_iterations (db2mag mask_min_db) (db2mag mask_max_db) dt).

Section Backend.
Variable cholesky : tensor complex -> result (tensor complex).
Variable solve_triangular : tensor complex -> tensor complex -> bool -> result (tensor complex).

(** The local variables of [forward] that the loop assigns; [output_length]
    is unbound ([None]) until the first iteration has run. *)
Record locals : Type := mkLocals {
  output : tensor complex;
  output_length : option (option (tensor Z))
}.

(** One iteration [i] of the reweighting loop. *)
Definition iteration (self : t) (input_length : option (tensor Z)) (mask : option (tensor R))
  (i : nat) (st : locals) : result locals :=
  let magnitude := tmap Cabs (output st) in
  magnitude <- match mask with
               | Some mask =>
                   if (i =? 0)%nat
                   then
                     (* Apply thresholds *)
                     let mask := tmap (clamp (mask_min self) (mask_max self)) mask in
                     (* Mask magnitude *)
                     broadcast2 0 0 Rmult mask magnitude
                   else Ok magnitude
               | None => Ok magnitude
               end ;;
  (* Calculate power *)
  let power := tmap (fun m => m ^ 2) magnitude in
  (* Apply filter *)
  r <- WPEFilter.forward cholesky solve_triangular (filter self) (output st) power input_length ;;
  Ok (mkLocals (fst r) (Some (snd r))).

(** [for i in range(n)], from iteration [i] on. *)
Fixpoint iterations (self : t) (input_length : option (tensor Z)) (mask : option (tensor R))
  (n i : nat) (st : locals) : result locals :=
  match n with
  | O => Ok st
  | S n' =>
      st' <- iteration self input_length mask i st ;;
      iterations self input_length mask n' (S i) st'
  end.

Definition forward (self : t) (input : dtensor complex) (input_length : option (tensor Z))
  (mask : option (tensor R)) : result (dtensor complex * option (tensor Z)) :=
  let io_dtype := dtype_of input in
  let output0 := to_dtype Creal_part (dtype_ self) input in
  _ <- assert (is_complex output0) "Expecting complex input" ;;
  st <- iterations self input_length mask (Z.to_nat (num_iterations self)) 0
          (mkLocals (values output0) None) ;;
  match output_length st with
  | Some length =>
      Ok (to_dtype Creal_part io_dtype (mkD (dtype_ self) (output st)), length)
  | None => Err (UnboundLocalError "output_length")
  end.

End Backend.

End MaskBasedDereverbWPE.

(** ** MaskEstimatorGSS

    The mask check at the end of [forward] asks whether an entry is a NaN,
    which real numbers cannot express.  The estimator is therefore written
    over a type of entries with its arithmetic, instantiated below with the
    reals (no NaN) and with binary64 floating-point numbers. *)

Class Numeric (F : Type) : Type := {
  fzero : F;
  fone : F;
  fadd : F -> F -> F;
  fsub : F -> F -> F;
  fmul : F -> F -> F;
  fdiv : F -> F -> F;
  fmax : F -> F -> F;
  fsqrt : F -> F;
  f_of_nat : nat -> F;
  fisnan : F -> bool
}.

#[global] Instance R_numeric : Numeric R := {
  fzero := 0;
  fone := 1;
  fadd := Rplus;
  fsub := Rminus;
  fmul := Rmult;
  fdiv := Rdiv;
  fmax := Rmax;
  fsqrt := sqrt;
  f_of_nat := INR;
  fisnan := fun _ => false
}.

Module MaskEstimatorGSS.

Section Estimator.
Context {F : Type} {num : Numeric F}.
(** [torch.exp] *)
Variable fexp : F -> F.

Record t : Type := mk {
  num_iterations : Z;
  eps : F;
  dtype_ : dtype
}.

Definition init (num_iterations : Z) (eps : F) (dt : dtype) : result t :=
  _ <- assert (dtype_is_complex dt) "Unsupported dtype, expecting cfloat or cdouble" ;;
  Ok (mk num_iterations eps dt).

Definition fsum_upto (n : nat) (f : nat -> F) : F :=
  fold_right (fun k acc => fadd (f k) acc) fzero (seq 0 n).

(** The maximum of [f 0 .. f n]. *)
Definition fmax_upto (n : nat) (f : nat -> F) : F :=
  fold_left (fun acc k => fmax acc (f k)) (seq 1 n) (f 0%nat).

Definition cabs2 (c : F * F) : F :=
  fadd (fmul (fst c) (fst c)) (fmul (snd c) (snd c)).

Definition czero : F * F := (fzero, fzero).

(** [normalize(x, dim=-3)] on a 4-D tensor. *)
Definition normalize (self : t) (x : tensor (F * F)) : result (tensor (F * F)) :=
  match shape x with
  | [B; C; Fq; T] =>
      let norm_x :=
        tab [B; 1%nat; Fq; T]
          (fun idx => match idx with
                      | [b; _; f; t] =>
                          fsqrt (fsum_upto C (fun c => cabs2 (get czero x [b; c; f; t])))
                      | _ => fzero
                      end) in
      broadcast2 czero fzero
        (fun c n => let d := fadd n (eps self) in (fdiv (fst c) d, fdiv (snd c) d))
        x norm_x
  | _ => Err (RuntimeError "Dimension out of range")
  end.

(** [torch.max(log_pdf, axis=-3, keepdim=True)[0]] on a 4-D tensor. *)
Definition max_sources (x : tensor F) : result (tensor F) :=
  match shape x with
  | [B; M; Fq; T] =>
      match M with
      | O => Err (RuntimeError "max(): Expected reduction dim 1 to have non-zero size")
      | S M' =>
          Ok (tab [B; 1%nat; Fq; T]
                (fun idx => match idx with
                            | [b; _; f; t] => fmax_upto M' (fun m => get fzero x [b; m; f; t])
                            | _ => fzero
                            end))
      end
  | _ => Err (RuntimeError "Dimension out of range")
  end.

(** [torch.sum(gamma, dim=-3, keepdim=True)] on a 4-D tensor. *)
Definition sum_sources (x : tensor F) : result (tensor F) :=
  match shape x with
  | [B; M; Fq; T] =>
      Ok (tab [B; 1%nat; Fq; T]
            (fun idx => match idx with
                        | [b; _; f; t] => fsum_upto M (fun m => get fzero x [b; m; f; t])
                        | _ => fzero
                        end))
  | _ => Err (RuntimeError "Dimension out of range")
  end.

(** The masks before they are normalized across the sources: weight, pdf
    and source activity; [update_masks] up to its last assignment. *)
Definition weighted_pdf (alpha activity log_pdf : tensor F) : result (tensor F) :=
  (* normalize across outputs in the log domain *)
  mx <- max_sources log_pdf ;;
  gamma <- broadcast2 fzero fzero fsub log_pdf mx ;;
  let gamma := tmap fexp gamma in
  (* calculate the mask using weight, pdf and source activity:
     alpha[..., None] * gamma * activity[..., None, :] *)
  a <- reshape (shape alpha ++ [1%nat]) alpha ;;
  act <- reshape (removelast (shape activity) ++ [1%nat; last (shape activity) 0%nat]) activity ;;
  gamma <- broadcast2 fzero fzero fmul a gamma ;;
  broadcast2 fzero fzero fmul gamma act.

(** The last assignment of [update_masks]: normalize across components. *)
Definition normalize_sources (self : t) (gamma : tensor F) : result (tensor F) :=
  s <- sum_sources gamma ;;
  broadcast2 fzero fzero fdiv gamma (tmap (fun v => fadd v (eps self)) s).

Definition update_masks (self : t) (alpha activity log_pdf : tensor F) : result (tensor F) :=
  gamma <- weighted_pdf alpha activity log_pdf ;;
  normalize_sources self gamma.

(** [update_weights]: [torch.mean(gamma, dim=-1)] on a 4-D tensor. *)
Definition update_weights (gamma : tensor F) : result (tensor F) :=
  match shape gamma with
  | [B; M; Fq; T] =>
      Ok (tab [B; M; Fq]
            (fun idx => match idx with
                        | [b; m; f] =>
                            fdiv (fsum_upto T (fun t => get fzero gamma [b; m; f; t])) (f_of_nat T)
                        | _ => fzero
                        end))
  | _ => Err (RuntimeError "Dimension out of range")
  end.

(** [update_pdf]: the log-pdf and the energy term, from the directional
    statistics, the masks and the previous energy term.  Its shape matrices
    are eigendecomposed by the linear-algebra backend; the properties below
    hold whatever it returns. *)
Variable update_pdf :
  t -> tensor (F * F) -> tensor F -> tensor F -> result (tensor F * tensor F).

(** The initial masks: the clamped activity, normalized across the sources
    and expanded over the subbands. *)
Definition initial_masks (self : t) (activity : tensor F) (Fq : nat) : result (tensor F) :=
  let gamma := tmap (fun a => fmax a (eps self)) activity in
  match shape gamma with
  | [B; M; T] =>
      (* normalize across channels *)
      let s := tab [B; 1%nat; T]
                 (fun idx => match idx with
                             | [b; _; t] => fsum_upto M (fun m => get fzero gamma [b; m; t])
                             | _ => fzero
                             end) in
      gamma <- broadcast2 fzero fzero fdiv gamma s ;;
      (* expand to input shape *)
      Ok (tab [B; M; Fq; T] (fun idx => match idx with
                                        | [b; m; _; t] => get fzero gamma [b; m; t]
                                        | _ => fzero
                                        end))
  | _ => Err (RuntimeError "Dimension out of range")
  end.

(** One EM iteration on (gamma, zH_invBM_z). *)
Definition em_iteration (self : t) (z : tensor (F * F)) (activity : tensor F)
  (st : tensor F * tensor F) : result (tensor F * tensor F) :=
  alpha <- update_weights (fst st) ;;
  r <- update_pdf self z (fst st) (snd st) ;;
  gamma <- update_masks self alpha activity (fst r) ;;
  Ok (gamma, snd r).

Fixpoint em_iterations (self : t) (z : tensor (F * F)) (activity : tensor F)
  (n : nat) (st : tensor F * tensor F) : result (tensor F * tensor F) :=
  match n with
  | O => Ok st
  | S n' =>
      st' <- em_iteration self z activity st ;;
      em_iterations self z activity n' st'
  end.

(** [forward] up to the end of the EM iterations: the masks [gamma]. *)
Definition estimate (self : t) (input : dtensor (F * F)) (activity : tensor F)
  : result (tensor F) :=
  match shape (values input), shape activity with
  | [B; num_inputs; Fq; T], B' :: num_outputs :: _ =>
      _ <- assert ((B' =? B)%nat && (last (shape activity) 0%nat =? T)%nat)
             "Expecting activity of shape (B, num_outputs, T)" ;;
      _ <- assert (1 <? num_outputs)%nat "Expecting multiple outputs" ;;
      let input := to_dtype (fun c => (fst c, fzero)) (dtype_ self) input in
      _ <- assert (is_complex input) "Expecting complex input" ;;
      (* convert input to directional statistics *)
      z <- normalize self (values input) ;;
      (* initialize masks *)
      gamma <- initial_masks self activity Fq ;;
      (* initialize energy term *)
      let zH_invBM_z := tab [B; num_outputs; Fq; T] (fun _ => fone) in
      (* EM iterations *)
      st <- em_iterations self z activity (Z.to_nat (num_iterations self)) (gamma, zH_invBM_z) ;;
      Ok (fst st)
  | [_; _; _; _], _ => Err (RuntimeError "Dimension out of range")
  | _, _ => Err (ValueError "not enough values to unpack")
  end.

(** The check on the estimated masks that ends [forward]. *)
Definition check_gamma (gamma : tensor F) : result (tensor F) :=
  if tany fisnan gamma then Err (RuntimeError "gamma contains NaNs") else Ok gamma.

Definition forward (self : t) (input : dtensor (F * F)) (activity : tensor F)
  : result (tensor F) :=
  gamma <- estimate self input activity ;;
  check_gamma gamma.

End Estimator.

Arguments t F : clear implicits.

End MaskEstimatorGSS.

(** Masks of shape (B, M, F, T) with non-negative entries. *)
Definition nonneg_masks (B M Fq T : nat) (gamma : tensor R) : Prop :=
  shape gamma = [B; M; Fq; T] /\
  forall b m f t, (b < B)%nat -> (m < M)%nat -> (f < Fq)%nat -> (t < T)%nat ->
                  0 <= get 0 gamma [b; m; f; t].

(** A real tensor whose entries are all zero. *)
Definition all_zero (x : tensor R) : Prop := forall v, In v (data x) -> v = 0.

(** The arithmetic of binary64 floating-point numbers, by the kernel's
    primitive floats; [torch.max] and [torch.clamp] propagate NaN. *)
Module Binary64.

Definition max (a b : PrimFloat.float) : PrimFloat.float :=
  if PrimFloat.is_nan a then a
  else if PrimFloat.is_nan b then b
  else if PrimFloat.ltb a b then b else a.

Definition of_Z (n : Z) : PrimFloat.float := PrimFloat.of_uint63 (Uint63.of_Z n).

Definition of_nat (n : nat) : PrimFloat.float := of_Z (Z.of_nat n).

#[global] Instance float_numeric : Numeric PrimFloat.float := {
  fzero := PrimFloat.zero;
  fone := PrimFloat.one;
  fadd := PrimFloat.add;
  fsub := PrimFloat.sub;
  fmul := PrimFloat.mul;
  fdiv := PrimFloat.div;
  fmax := max;
  fsqrt := PrimFloat.sqrt;
  f_of_nat := of_nat;
  fisnan := PrimFloat.is_nan
}.

End Binary64.

(** ** SpectrogramToMultichannelFeatures *)

Definition Cdiv_real (a : complex) (r : R) : complex := mkC (re a / r) (im a / r).

(** [torch.mean(x, axis=1, keepdim=True)] on a 4-D real tensor. *)
Definition mean_channels_keep (x : tensor R) : result (tensor R) :=
  match shape x with
  | [B; C; F; N] =>
      Ok (tab [B; 1%nat; F; N]
            (fun idx => match idx with
                        | [b; _; f; t] => sum_upto C (fun c => get 0 x [b; c; f; t]) / INR C
                        | _ => 0
                        end))
  | _ => Err (RuntimeError "Dimension out of range")
  end.

(** [torch.mean(x, axis=1, keepdim=True)] on a 4-D complex tensor. *)
Definition Cmean_channels_keep (x : tensor complex) : result (tensor complex) :=
  match shape x with
  | [B; C; F; N] =>
      Ok (tab [B; 1%nat; F; N]
            (fun idx => match idx with
                        | [b; _; f; t] =>
                            Cdiv_real (Csum_upto C (fun c => get Czero x [b; c; f; t])) (INR C)
                        | _ => Czero
                        end))
  | _ => Err (RuntimeError "Dimension out of range")
  end.

(** [x.expand(s)] for a tensor of the rank of [s]. *)
Definition expand {A : Type} (d : A) (x : tensor A) (s : list nat) : result (tensor A) :=
  if expandable (shape x) s
  then Ok (tab s (fun idx => get d x (bidx (shape x) idx)))
  else Err (RuntimeError "The expanded size of the tensor must match the existing size").

(** [torch.cat([x, y], axis=2)] on 4-D tensors. *)
Definition cat_features {A : Type} (d : A) (x y : tensor A) : result (tensor A) :=
  match shape x, shape y with
  | [B; C; F1; N], [B'; C'; F2; N'] =>
      if ((B =? B') && (C =? C') && (N =? N'))%nat
      then Ok (tab [B; C; (F1 + F2)%nat; N]
                 (fun idx => match idx with
                             | [b; c; k; t] =>
                                 if (k <? F1)%nat then get d x [b; c; k; t]
                                 else get d y [b; c; (k - F1)%nat; t]
                             | _ => d
                             end))
      else Err (RuntimeError "Sizes of tensors must match except in dimension 2")
  | _, _ => Err (RuntimeError "Tensors must have same number of dimensions")
  end.

Module SpectrogramToMultichannelFeatures.

(** The attributes that [__init__] sets.  Both normalizations are [None] in
    every constructed module (anything else raises), so [forward] never
    applies one and they are not kept. *)
Record t : Type := mk {
  mag_reduction : option string;
  use_ipd : bool;
  _num_features : Z;
  _num_channels : option Z
}.

(** [__init__]; [NotImplementedError] is a [RuntimeError].  The messages of
    this class are f-strings; the model keeps their fixed part. *)
Definition init (num_subbands : Z) (num_input_channels : option Z)
  (mag_reduction : option string) (use_ipd : bool)
  (mag_normalization ipd_normalization : option string) : result t :=
  match mag_normalization with
  | Some _ => Err (RuntimeError "NotImplementedError: Unknown magnitude normalization")
  | None =>
      match ipd_normalization with
      | Some _ => Err (RuntimeError "NotImplementedError: Unknown ipd normalization")
      | None =>
          if use_ipd
          then Ok (mk mag_reduction use_ipd (2 * num_subbands) num_input_channels)
          else Ok (mk mag_reduction use_ipd num_subbands
                     (match mag_reduction with
                      | None => num_input_channels
                      | Some _ => Some 1%Z
                      end))
      end
  end.

Definition num_features (self : t) : Z := _num_features self.

Definition num_channels (self : t) : result Z :=
  match _num_channels self with
  | Some c => Ok c
  | None => Err (ValueError "Num channels is not configured.")
  end.

(** The magnitude spectrum of [forward]. *)
Definition magnitude (self : t) (input : tensor complex) : result (tensor R) :=
  match mag_reduction self with
  | None => Ok (tmap Cabs input)
  | Some r =>
      if (r =? "abs_mean")%string
      then m <- Cmean_channels_keep input ;; Ok (tmap Cabs m)
      else if (r =? "mean_abs")%string
      then mean_channels_keep (tmap Cabs input)
      else if (r =? "rms")%string
      then m <- mean_channels_keep (tmap (fun c => Cabs c ^ 2) input) ;; Ok (tmap sqrt m)
      else Err (ValueError "Unexpected magnitude reduction")
  end.

Section Forward.
(** [torch.angle], and [wrap_to_pi] of [parts.utils.audio_utils], which is
    not part of the sources. *)
Variable angle : complex -> R.
Variable wrap_to_pi : R -> R.

(** [features.size(1)] of a tensor with fewer than two dimensions is torch's
    [IndexError], which stands here as the error of the last branch. *)
Definition forward (self : t) (input : tensor complex) (input_length : tensor Z)
  : result (tensor R * tensor Z) :=
  (* Magnitude spectrum *)
  mag <- magnitude self input ;;
  features <- (if use_ipd self
               then
                 (* Calculate IPD relative to average spec *)
                 spec_mean <- Cmean_channels_keep input ;;
                 ipd <- broadcast2 0 0 Rminus (tmap angle input) (tmap angle spec_mean) ;;
                 (* Modulo to [-pi, pi] *)
                 let ipd := tmap wrap_to_pi ipd in
                 (* Concatenate to existing features *)
                 e <- expand 0 mag (shape ipd) ;;
                 cat_features 0 e ipd
               else Ok mag) ;;
  match _num_channels self with
  | Some n =>
      match shape features with
      | _ :: c :: _ =>
          if negb (Z.of_nat c =? n)%Z
          then Err (RuntimeError
                      "Number of channels in features is different than the configured number of channels")
          else Ok (features, input_length)
      | _ => Err (RuntimeError "Dimension out of range")
      end
  | None => Ok (features, input_length)
  end.

End Forward.

End SpectrogramToMultichannelFeatures.

Module Features := SpectrogramToMultichannelFeatures.

(** The magnitude reductions that [forward] knows. *)
Definition known_reduction (red : option string) : Prop :=
  red = None \/ red = Some "abs_mean"%string \/ red = Some "mean_abs"%string
  \/ red = Some "rms"%string.

(** The L2 norm of [x] across the [C] channels at (b, f, t):
    [torch.linalg.vector_norm(x, ord=2, dim=-3)]. *)
Definition channel_norm (x : tensor (R * R)) (C b f t : nat) : R :=
  sqrt (sum_upto C (fun c => MaskEstimatorGSS.cabs2 (get (0, 0) x [b; c; f; t]))).

(** ** WPEFilter: statements about the correlations and the filter *)

(** The weight at (b, f, i) after the valid-length masking of
    [estimate_correlations]. *)
Definition masked_weight (weight : tensor R) (input_length : option (tensor Z))
  (b f i : nat) : R :=
  match input_length with
  | Some lengths => if (Z.of_nat i <? get 0%Z lengths [b])%Z then get 0 weight [b; f; i] else 0
  | None => get 0 weight [b; f; i]
  end.

(** The lengths, when given, have one entry per batch item. *)
Definition lengths_fit (input_length : option (tensor Z)) (B : nat) : Prop :=
  match input_length with
  | Some lengths => shape lengths = [B]
  | None => True
  end.

(** Frame [t] is within the valid length of batch item [b]. *)
Definition valid_frame (input_length : option (tensor Z)) (b t : nat) : bool :=
  match input_length with
  | Some lengths => (Z.of_nat t <? get 0%Z lengths [b])%Z
  | None => true
  end.

(** The sample of channel [c] at frame [s], zero before the signal starts. *)
Definition past_sample (x : tensor complex) (b c f : nat) (s : Z) : complex :=
  if (0 <=? s)%Z then get Czero x [b; c; f; Z.to_nat s] else Czero.

(** ** WPEFilter.permute_convtensor *)

(** [l[start:stop] = v] on a Python list, for [start <= stop]: the slice is
    clipped to the list, so past its end the values are appended. *)
Definition slice_assign {A : Type} (l : list A) (start stop : nat) (v : list A) : list A :=
  firstn start l ++ v ++ skipn stop l.

(** The column order that [permute_convtensor] builds: for each channel [m]
    the taps [m * filter_length + np.flip(np.arange(filter_length))]. *)
Definition tap_permutation (C filter_length : nat) : list nat :=
  fold_left
    (fun permute m =>
       slice_assign permute (m * filter_length)%nat ((m + 1) * filter_length)%nat
         (map (fun i => (m * filter_length + i)%nat) (rev (seq 0 filter_length))))
    (seq 0 C) [].

(** [x[..., permute]] on a 4-D tensor; the last branch of the test stands
    for torch's [IndexError]. *)
Definition index_last {A : Type} (d : A) (permute : list nat) (x : tensor A)
  : result (tensor A) :=
  match shape x with
  | [B; F; N; K] =>
      if forallb (fun i => (i <? K)%nat) permute
      then Ok (tab [B; F; N; List.length permute]
                 (fun idx => match idx with
                             | [b; f; t; i] => get d x [b; f; t; nth i permute 0%nat]
                             | _ => d
                             end))
      else Err (RuntimeError "index is out of bounds for dimension 3")
  | _ => Err (RuntimeError "too many indices for tensor")
  end.

(** [WPEFilter.permute_convtensor]; a shape of another rank cannot be
    unpacked, which is a ValueError. *)
Definition permute_convtensor {A : Type} (zero : A) (x : tensor A) : result (tensor A) :=
  match shape x with
  | [B; C; F; N; filter_length] =>
      (* x.permute(0, 2, 3, 1, 4) *)
      let x := tab [B; F; N; C; filter_length]
                 (fun idx => match idx with
                             | [b; f; t; c; l] => get zero x [b; c; f; t; l]
                             | _ => zero
                             end) in
      x <- reshape [B; F; N; (C * filter_length)%nat] x ;;
      let permute := tap_permutation C filter_length in
      index_last zero permute x
  | _ => Err (ValueError "not enough values to unpack")
  end.


(** ** MaskBasedDereverbWPE and MaskBasedBeamformer: documented shapes *)

(** The mask of [MaskBasedDereverbWPE.forward], when given, has shape
    (B, 1, F, N) or (B, C, F, N). *)
Definition mask_fits (mask : option (tensor R)) (B C F N : nat) : Prop :=
  match mask with
  | Some m => shape m = [B; 1%nat; F; N] \/ shape m = [B; C; F; N]
  | None => True
  end.

(** The undesired-signal masks of [MaskBasedBeamformer.forward], when
    given, have the shape of the masks. *)
Definition undesired_fits (mask_undesired : option (tensor R)) (B M F N : nat) : Prop :=
  match mask_undesired with
  | Some mu => shape mu = [B; M; F; N]
  | None => True
  end.

(** The module with another number of iterations. *)
Definition with_iterations (self : MaskBasedDereverbWPE.t) (n : Z) : MaskBasedDereverbWPE.t :=
  MaskBasedDereverbWPE.mk (MaskBasedDereverbWPE.filter self) n
    (MaskBasedDereverbWPE.mask_min self) (MaskBasedDereverbWPE.mask_max self)
    (MaskBasedDereverbWPE.dtype_ self).

(** ** Concrete inputs for the examples *)

Module Examples.

(** A backend that fails on every call. *)
Definition failing_cholesky (Q : tensor complex) : result (tensor complex) :=
  Err LinAlgError.
Definition failing_solve (A B : tensor complex) (upper : bool) : result (tensor complex) :=
  Err LinAlgError.

Definition small_eps : R := 1 / 100000000.

(** [MaskBasedDereverbWPE(filter_length=3, prediction_delay=1, num_iterations=0)] *)
Definition dereverb0 : MaskBasedDereverbWPE.t :=
  MaskBasedDereverbWPE.mk (WPEFilter.mk 3 1 (Some (1 / 1000000)) small_eps) 0
    (db2mag (-200)) (db2mag 0) cdouble.

(** [MaskBasedDereverbWPE(filter_length=3, prediction_delay=1)], one iteration. *)
Definition dereverb1 : MaskBasedDereverbWPE.t :=
  MaskBasedDereverbWPE.mk (WPEFilter.mk 3 1 (Some (1 / 1000000)) small_eps) 1
    (db2mag (-200)) (db2mag 0) cdouble.

(** A one-channel, one-subband complex spectrogram of two frames. *)
Definition complex_input : dtensor complex :=
  mkD cdouble (mkTensor [1; 1; 1; 2]%nat [mkC 1 2; mkC 3 4]).

(** A real-valued (float64) spectrogram of the same shape. *)
Definition real_input : dtensor complex :=
  mkD float64 (mkTensor [1; 1; 1; 2]%nat [mkC 1 0; mkC 3 0]).

(** [MaskBasedBeamformer(filter_type='mvdr_souden', filter_beta=0.0,
    filter_rank='full')], the other arguments at their defaults. *)
Definition souden_full_rank : MaskBasedBeamformer.args :=
  MaskBasedBeamformer.mkArgs "mvdr_souden" 0 "full" None None (Some 0%Z) true false false
    None (-200) 0 0 0 (Some (1 / 1000000)) small_eps.

(** [MaskBasedBeamformer(filter_type='mvdr_souden', filter_beta=1.0,
    filter_rank='full')] *)
Definition souden_beta_one : MaskBasedBeamformer.args :=
  MaskBasedBeamformer.mkArgs "mvdr_souden" 1 "full" None None (Some 0%Z) true false false
    None (-200) 0 0 0 (Some (1 / 1000000)) small_eps.

(** Integer entries 1..6 of shape (2, 1, 3), with valid lengths 2 and 1. *)
Definition padded : tensor Z := mkTensor [2; 1; 3]%nat [1; 2; 3; 4; 5; 6]%Z.
Definition valid_lengths : tensor Z := mkTensor [2]%nat [2; 1]%Z.

(** [MaskReferenceChannel(ref_channel=1)] with thresholds 0 and 1, a
    two-channel input of one subband and one frame, and three masks. *)
Definition reference1 : MaskReferenceChannel.t := MaskReferenceChannel.mk 1 0 1.
Definition two_channels : tensor complex :=
  mkTensor [1; 2; 1; 1]%nat [mkC 1 2; mkC 3 4].
Definition three_masks : tensor R :=
  mkTensor [1; 3; 1; 1]%nat [1 / 2; 2; -1].
Definition one_length : tensor Z := mkTensor [1]%nat [1%Z].

(** [WPEFilter(filter_length=1, prediction_delay=0, diag_reg=0.0)] and
    [WPEFilter(filter_length=1, prediction_delay=0, diag_reg=1e-6)], with
    statistics of one channel and one subband. *)
Definition wpe_diag_reg_zero : WPEFilter.t := WPEFilter.mk 1 0 (Some 0) small_eps.
Definition wpe_diag_reg_default : WPEFilter.t :=
  WPEFilter.mk 1 0 (Some (1 / 1000000)) small_eps.
Definition unit_Q : tensor complex := mkTensor [1; 1; 1; 1; 1; 1]%nat [mkC 1 0].
Definition unit_R : tensor complex := mkTensor [1; 1; 1; 1; 1]%nat [mkC 1 0].
Definition unit_matrix : tensor complex := mkTensor [1; 1; 1; 1]%nat [mkC 1 0].

(** [MaskEstimatorGSS(num_iterations=1, eps=1e-8)] over the reals, two
    sources that are inactive in the only frame, equal weights and equal
    log-pdf values. *)
Definition gss1 : MaskEstimatorGSS.t R := MaskEstimatorGSS.mk 1 small_eps cdouble.
Definition no_activity : tensor R := mkTensor [1; 2; 1]%nat [0; 0].
Definition full_activity : tensor R := mkTensor [1; 2; 1]%nat [1; 1].
Definition equal_weights : tensor R := mkTensor [1; 2; 1]%nat [1 / 2; 1 / 2].
Definition equal_log_pdf : tensor R := mkTensor [1; 2; 1; 1]%nat [0; 0].

(** Binary64 examples.  [2^-27] for eps; weighted masks of [-2^-28] for
    each of two sources, as equal weights 1/2, equal pdf values and an
    activity of [-2^-27] give. *)
Definition two_pow_m27 : PrimFloat.float :=
  PrimFloat.div PrimFloat.one (Binary64.of_Z 134217728).
Definition two_pow_m28 : PrimFloat.float :=
  PrimFloat.div PrimFloat.one (Binary64.of_Z 268435456).
Definition gss_float : MaskEstimatorGSS.t PrimFloat.float :=
  MaskEstimatorGSS.mk 1 two_pow_m27 cdouble.
Definition gss_float0 : MaskEstimatorGSS.t PrimFloat.float :=
  MaskEstimatorGSS.mk 0 two_pow_m27 cdouble.
Definition negative_weighted : tensor PrimFloat.float :=
  mkTensor [1; 2; 1; 1]%nat [PrimFloat.opp two_pow_m28; PrimFloat.opp two_pow_m28].
Definition infinite_masks : tensor PrimFloat.float :=
  mkTensor [1; 2; 1; 1]%nat [PrimFloat.neg_infinity; PrimFloat.neg_infinity].
(** A one-channel input of one subband and one frame, two active sources,
    and an activity with a NaN. *)
Definition float_input : dtensor (PrimFloat.float * PrimFloat.float) :=
  mkD cdouble (mkTensor [1; 1; 1; 1]%nat [(PrimFloat.one, PrimFloat.zero)]).
Definition float_activity : tensor PrimFloat.float :=
  mkTensor [1; 2; 1]%nat [PrimFloat.one; PrimFloat.one].
Definition nan_activity : tensor PrimFloat.float :=
  mkTensor [1; 2; 1]%nat [PrimFloat.nan; PrimFloat.one].
Definition half_masks : tensor PrimFloat.float :=
  mkTensor [1; 2; 1; 1]%nat
    [PrimFloat.div PrimFloat.one (Binary64.of_Z 2);
     PrimFloat.div PrimFloat.one (Binary64.of_Z 2)].
Definition no_update_pdf (self : MaskEstimatorGSS.t PrimFloat.float)
  (z : tensor (PrimFloat.float * PrimFloat.float)) (gamma zH : tensor PrimFloat.float)
  : result (tensor PrimFloat.float * tensor PrimFloat.float) := Err LinAlgError.

(** Two masks of one subband and one frame. *)
Definition two_masks : tensor R := mkTensor [1; 2; 1; 1]%nat [1 / 4; 1 / 2].

(** A stand-in for [update_pdf] that returns the masks as log-pdf and the
    energy term unchanged; it has the shapes of [update_pdf]. *)
Definition echo_update_pdf (self : MaskEstimatorGSS.t R) (z : tensor (R * R))
  (gamma zH : tensor R) : result (tensor R * tensor R) := Ok (gamma, zH).
Definition gss_input : dtensor (R * R) :=
  mkD cdouble (mkTensor [1; 1; 1; 1]%nat [(1, 0)]).

End Examples.

(** ** Further concrete inputs *)

Module MoreExamples.

(** Stand-ins for [torch.angle] and [wrap_to_pi]. *)
Definition angle0 (c : complex) : R := 0.
Definition wrap0 (x : R) : R := x.

(** Feature extractors for one subband: rms magnitude with IPD for two
    channels, no reduction for three channels, rms for five channels. *)
Definition features_rms_ipd : Features.t := Features.mk (Some "rms"%string) true 2 (Some 2%Z).
Definition features_none3 : Features.t := Features.mk None false 1 (Some 3%Z).
Definition features_rms5 : Features.t := Features.mk (Some "rms"%string) false 1 (Some 1%Z).
(** No reduction and no configured number of input channels. *)
Definition features_unconfigured : Features.t := Features.mk None false 1 None.

(** [MaskReferenceChannel(ref_channel=-1)] with thresholds 0 and 1, and a
    single mask. *)
Definition reference_last : MaskReferenceChannel.t := MaskReferenceChannel.mk (-1) 0 1.
Definition single_mask : tensor R := mkTensor [1; 1; 1; 1]%nat [1 / 2].

(** [MaskEstimatorGSS(num_iterations=0, eps=1e-8)], the activity of a
    single source, and the two-channel entry (3, 4j) of one subband and one
    frame. *)
Definition gss0 : MaskEstimatorGSS.t R := MaskEstimatorGSS.mk 0 Examples.small_eps cdouble.
Definition one_source : tensor R := mkTensor [1; 1; 1]%nat [1].
Definition gss_pair : tensor (R * R) := mkTensor [1; 2; 1; 1]%nat [(3, 0); (0, 4)].

(** A stand-in backend that returns its argument as the Cholesky factor
    and the right-hand side as the solution; it has the shapes of the
    backend. *)
Definition stub_cholesky (Q : tensor complex) : result (tensor complex) := Ok Q.
Definition stub_solve_triangular (A B : tensor complex) (upper : bool)
  : result (tensor complex) := Ok B.

(** [WPEFilter(filter_length=3, prediction_delay=1)], a power of one for a
    one-channel input of one subband and two frames, and a filter of three
    taps for it. *)
Definition wpe31 : WPEFilter.t := WPEFilter.mk 3 1 (Some (1 / 1000000)) Examples.small_eps.
Definition unit_power : tensor R := mkTensor [1; 1; 1; 2]%nat [1; 1].
Definition three_taps : tensor complex :=
  mkTensor [1; 1; 1; 1; 3]%nat [mkC 1 0; mkC 0 0; mkC 0 1].

(** Weights of one for one subband and one frame, and the convolution
    tensor of a two-channel input for a filter of one tap. *)
Definition unit_weight : tensor R := mkTensor [1; 1; 1]%nat [1].
Definition two_channel_taps : tensor complex :=
  mkTensor [1; 2; 1; 1; 1]%nat [mkC 1 2; mkC 3 4].

(** A one-channel spectrogram without frames. *)
Definition no_frames : tensor complex := mkTensor [1; 1; 1; 0]%nat [].

(** A stand-in spatial filter that returns its input, a beamformer with
    mask thresholds 0 and 1 and postmask thresholds 0 and 1, and a mask
    tensor without masks. *)
Definition stub_filter (filter : ParametricMultichannelWienerFilter.t) (input : tensor complex)
  (mask_s mask_n : tensor R) : result (tensor complex) := Ok input.
Definition beamformer1 : MaskBasedBeamformer.t :=
  MaskBasedBeamformer.mk "pmwf"
    (ParametricMultichannelWienerFilter.mk 0 "one" None (Some 0%Z) true false false None None
       (Some (1 / 1000000)) Examples.small_eps)
    0 1 0 1.
Definition no_masks : tensor R := mkTensor [1; 0; 1; 1]%nat [].

(** [MaskBasedDereverbWPE(filter_length=3, prediction_delay=1,
    num_iterations=2)] and a mask of one half for the two frames of a
    one-channel input. *)
Definition dereverb2 : MaskBasedDereverbWPE.t :=
  MaskBasedDereverbWPE.mk (WPEFilter.mk 3 1 (Some (1 / 1000000)) Examples.small_eps) 2
    (db2mag (-200)) (db2mag 0) cdouble.
Definition half_mask : tensor R := mkTensor [1; 1; 1; 2]%nat [1 / 2; 1 / 2].

(** The input [Examples.complex_input] with its second frame, which is
    padding for a valid length of one, set to zero, and a power that
    differs from [unit_power] in that frame. *)
Definition zero_padded_input : dtensor complex :=
  mkD cdouble (mkTensor [1; 1; 1; 2]%nat [mkC 1 2; mkC 0 0]).
Definition other_power : tensor R := mkTensor [1; 1; 1; 2]%nat [1; 5].

End MoreExamples.

Close Scope R_scope.

(** * Properties *)

(** ** The tensor library *)

Lemma numel_pos_of_in_range : forall s idx, in_range s idx -> 0 < numel s.
Proof.
  induction s as [|n s IH]; intros [|i idx] H; simpl in *; try lia; try tauto.
  destruct H as [Hi H]. specialize (IH _ H). nia.
Qed.

Lemma flat_index_lt : forall s idx, in_range s idx -> flat_index s idx < numel s.
Proof.
  induction s as [|n s IH]; intros [|i idx] H; simpl in *; try lia; try tauto.
  destruct H as [Hi H]. specialize (IH _ H). nia.
Qed.

Lemma unflatten_flat_index :
  forall s idx, in_range s idx -> unflatten s (flat_index s idx) = idx.
Proof.
  induction s as [|n s IH]; intros [|i idx] H; simpl in *; try tauto.
  destruct H as [Hi H].
  pose proof (flat_index_lt _ _ H) as Hlt.
  assert (Hne : numel s <> 0) by lia.
  rewrite Nat.div_add_l by exact Hne.
  rewrite Nat.div_small by exact Hlt.
  rewrite (Nat.add_comm (i * numel s)), Nat.Div0.mod_add.
  rewrite Nat.mod_small by exact Hlt.
  rewrite Nat.add_0_r, IH by exact H. reflexivity.
Qed.

Lemma unflatten_in_range :
  forall s k, k < numel s -> in_range s (unflatten s k).
Proof.
  induction s as [|n s IH]; intros k Hk; simpl in *; [exact I|].
  assert (Hne : numel s <> 0) by (intro E; rewrite E in Hk; lia).
  split.
  - apply Nat.Div0.div_lt_upper_bound. lia.
  - apply IH. apply Nat.mod_upper_bound. exact Hne.
Qed.

Lemma indices_in_range : forall s idx, In idx (indices s) -> in_range s idx.
Proof.
  intros s idx H. unfold indices in H. apply in_map_iff in H.
  destruct H as [k [<- Hk]]. apply in_seq in Hk.
  apply unflatten_in_range. lia.
Qed.

Lemma get_tab :
  forall (A : Type) (d : A) s f idx,
    in_range s idx -> get d (tab s f) idx = f idx.
Proof.
  intros A d s f idx H. unfold get, tab, indices; simpl.
  pose proof (flat_index_lt _ _ H) as Hlt.
  rewrite map_map.
  rewrite nth_indep with (d' := f (unflatten s 0))
    by (rewrite length_map, length_seq; exact Hlt).
  rewrite (map_nth (fun k => f (unflatten s k)) (seq 0 (numel s)) 0).
  rewrite seq_nth by exact Hlt. simpl.
  rewrite unflatten_flat_index by exact H. reflexivity.
Qed.

Lemma tab_ext :
  forall (A : Type) s (f g : list nat -> A),
    (forall idx, in_range s idx -> f idx = g idx) -> tab s f = tab s g.
Proof.
  intros A s f g H. unfold tab. f_equal.
  apply map_ext_in. intros idx Hin. apply H, indices_in_range, Hin.
Qed.

Lemma shape_tab : forall (A : Type) s (f : list nat -> A), shape (tab s f) = s.
Proof. reflexivity. Qed.

Lemma wf_tab : forall (A : Type) s (f : list nat -> A), wf (tab s f).
Proof.
  intros. unfold wf, tab, indices; simpl.
  now rewrite !length_map, length_seq.
Qed.

Lemma bidx_in_range :
  forall s t idx, expandable s t = true -> in_range t idx -> in_range s (bidx s idx).
Proof.
  induction s as [|n s IH]; intros [|m t] [|i idx] He Hr; simpl in *;
    try discriminate; try tauto.
  apply andb_prop in He. destruct He as [Hn He]. destruct Hr as [Hi Hr].
  split; [|eauto].
  destruct (n =? 1) eqn:E1.
  - apply Nat.eqb_eq in E1. lia.
  - rewrite orb_false_r in Hn. apply Nat.eqb_eq in Hn. lia.
Qed.

Lemma bget_same_rank :
  forall (A : Type) (d : A) x idx,
    bget d x (List.length (shape x)) idx = get d x (bidx (shape x) idx).
Proof.
  intros. unfold bget, align. rewrite Nat.sub_diag. reflexivity.
Qed.

(** ** WPEFilter.convtensor *)

Lemma in_range4 :
  forall B C F N b c f t,
    b < B -> c < C -> f < F -> t < N -> in_range [B; C; F; N] [b; c; f; t].
Proof. simpl; intuition. Qed.

Lemma in_range5 :
  forall B C F N L b c f t l,
    b < B -> c < C -> f < F -> t < N -> l < L ->
    in_range [B; C; F; N; L] [b; c; f; t; l].
Proof. simpl; intuition. Qed.

(** C7: on a 4-D input of shape (B, C, F, N), with a filter of at least one
    tap, a non-negative delay and a padded time axis that holds one window,
    [convtensor] returns a tensor of shape (B, C, F, N, filter_length) whose
    entry (b, c, f, t, l) is x(b, c, f, t - delay - (filter_length - 1) + l)
    when that time index is non-negative, and 0 otherwise. *)
Theorem convtensor_sliding_window :
  forall (A : Type) (zero : A) (x : tensor A) (B C F N : nat) (filter_length delay : Z),
    shape x = [B; C; F; N] ->
    (1 <= filter_length)%Z -> (0 <= delay)%Z -> (0 < Z.of_nat N + delay)%Z ->
    exists y,
      convtensor zero x filter_length delay None = Ok y /\
      shape y = [B; C; F; N; Z.to_nat filter_length] /\
      forall b c f t l,
        b < B -> c < C -> f < F -> t < N -> l < Z.to_nat filter_length ->
        get zero y [b; c; f; t; l] =
          let k := (Z.of_nat t - delay - (filter_length - 1) + Z.of_nat l)%Z in
          if (0 <=? k)%Z then get zero x [b; c; f; Z.to_nat k] else zero.
Proof.
  intros A zero x B C F N L delay Hs HL Hd HN.
  unfold convtensor, pad_time. rewrite Hs.
  destruct (Z.ltb_spec (Z.of_nat N + (L - 1 + delay)) 0) as [Hneg|Hpad]; [lia|].
  cbn [bind]. unfold unfold_time. rewrite shape_tab.
  set (P := Z.to_nat (Z.of_nat N + (L - 1 + delay))).
  destruct (Z.ltb_spec L 0) as [HL0|_]; [lia|].
  destruct (Z.ltb_spec (Z.of_nat P) L) as [Hbig|Hfit]; [subst P; lia|].
  cbn [orb bind]. unfold take_steps. rewrite shape_tab.
  assert (Hstop : slice_stop (Z.of_nat N) (P - Z.to_nat L + 1) = N).
  { unfold slice_stop. destruct (Z.ltb_spec (Z.of_nat N) 0); [lia|].
    rewrite Nat2Z.id. subst P. lia. }
  rewrite Hstop.
  eexists. split; [reflexivity|]. split; [reflexivity|].
  intros b c f t l Hb Hc Hf Ht Hl.
  rewrite get_tab by (apply in_range5; assumption).
  rewrite get_tab by (apply in_range5; try assumption; subst P; lia).
  rewrite get_tab by (apply in_range4; try assumption; subst P; lia).
  cbv zeta.
  replace (Z.of_nat (t + l) - (L - 1 + delay))%Z
    with (Z.of_nat t - delay - (L - 1) + Z.of_nat l)%Z by lia.
  destruct (Z.ltb_spec (Z.of_nat t - delay - (L - 1) + Z.of_nat l) 0) as [Hk|Hk];
    destruct (Z.leb_spec 0 (Z.of_nat t - delay - (L - 1) + Z.of_nat l)) as [Hk'|Hk'];
    try lia; reflexivity.
Qed.

Lemma convtensor_sliding_window_witness :
  exists y,
    convtensor 0%Z (tab [1; 1; 1; 3] (fun idx => Z.of_nat (S (last idx 0)))) 2 1 None = Ok y /\
    shape y = [1; 1; 1; 3; Z.to_nat 2] /\
    forall b c f t l,
      b < 1 -> c < 1 -> f < 1 -> t < 3 -> l < Z.to_nat 2 ->
      get 0%Z y [b; c; f; t; l] =
        let k := (Z.of_nat t - 1 - (2 - 1) + Z.of_nat l)%Z in
        if (0 <=? k)%Z
        then get 0%Z (tab [1; 1; 1; 3] (fun idx => Z.of_nat (S (last idx 0)))) [b; c; f; Z.to_nat k]
        else 0%Z.
Proof.
  apply (@convtensor_sliding_window Z 0%Z
           (tab [1; 1; 1; 3] (fun idx => Z.of_nat (S (last idx 0)))) 1 1 1 3 2%Z 1%Z);
    [reflexivity | lia | lia | lia].
Defined.

(** The input [1, 2, 3] with two taps and delay 1 unfolds to the windows
    [0, 0], [0, 1], [1, 2]. *)
Example convtensor_example :
  convtensor 0%Z (tab [1; 1; 1; 3] (fun idx => Z.of_nat (S (last idx 0)))) 2 1 None
  = Ok (mkTensor [1; 1; 1; 3; 2] [0; 0; 0; 1; 1; 2]%Z).
Proof. vm_compute. reflexivity. Qed.

(** An input that is not 4-D is refused. *)
Lemma convtensor_not_4d :
  forall (A : Type) (zero : A) (x : tensor A) L delay n_steps,
    List.length (shape x) <> 4 ->
    convtensor zero x L delay n_steps = Err (RuntimeError "Expecting a 4-D input").
Proof.
  intros A zero x L delay n_steps H. unfold convtensor.
  destruct (shape x) as [|B [|C [|F [|N [|? ?]]]]]; simpl in H; try reflexivity; lia.
Qed.

(** ** MaskBasedDereverbWPE.forward *)

Lemma dereverb_init_inv :
  forall fl pd n mmin mmax dr eps dt self,
    MaskBasedDereverbWPE.init fl pd n mmin mmax dr eps dt = Ok self ->
    dtype_is_complex (MaskBasedDereverbWPE.dtype_ self) = true /\
    MaskBasedDereverbWPE.num_iterations self = n /\
    MaskBasedDereverbWPE.filter self = WPEFilter.mk fl pd dr eps.
Proof.
  intros fl pd n mmin mmax dr eps dt self H.
  unfold MaskBasedDereverbWPE.init, assert in H.
  destruct (dtype_is_complex dt) eqn:E; simpl in H; [|discriminate].
  injection H as <-. simpl. auto.
Qed.

(** The conversion to the internal data type always yields a complex
    tensor, so the assertion that follows it in [forward] cannot fail. *)
Lemma converted_input_is_complex :
  forall (A : Type) (real_part : A -> A) d (x : dtensor A),
    dtype_is_complex d = true -> is_complex (to_dtype real_part d x) = true.
Proof. intros. unfold is_complex, to_dtype. simpl. assumption. Qed.

Section DereverbProofs.
Variable cholesky : tensor complex -> result (tensor complex).
Variable solve_triangular : tensor complex -> tensor complex -> bool -> result (tensor complex).

Let forward := MaskBasedDereverbWPE.forward cholesky solve_triangular.

Lemma dereverb_forward_unfold :
  forall self input input_length mask,
    dtype_is_complex (MaskBasedDereverbWPE.dtype_ self) = true ->
    forward self input input_length mask =
      (st <- MaskBasedDereverbWPE.iterations cholesky solve_triangular self input_length mask
               (Z.to_nat (MaskBasedDereverbWPE.num_iterations self)) 0
               (MaskBasedDereverbWPE.mkLocals
                  (values (to_dtype Creal_part (MaskBasedDereverbWPE.dtype_ self) input)) None) ;;
       match MaskBasedDereverbWPE.output_length st with
       | Some length =>
           Ok (to_dtype Creal_part (dtype_of input)
                 (mkD (MaskBasedDereverbWPE.dtype_ self) (MaskBasedDereverbWPE.output st)),
               length)
       | None => Err (UnboundLocalError "output_length")
       end).
Proof.
  intros self input input_length mask Hc.
  unfold forward, MaskBasedDereverbWPE.forward.
  rewrite converted_input_is_complex by exact Hc. reflexivity.
Qed.

(** C10: a module constructed with [num_iterations = 0] (or less) fails in
    [forward] with an unbound [output_length], for every input; [forward]
    returns normally only when [num_iterations >= 1]. *)
Theorem dereverb_no_iteration_unbound_output_length :
  forall fl pd n mmin mmax dr eps dt self input input_length mask,
    MaskBasedDereverbWPE.init fl pd n mmin mmax dr eps dt = Ok self ->
    ((n <= 0)%Z ->
     forward self input input_length mask = Err (UnboundLocalError "output_length")) /\
    (forall r, forward self input input_length mask = Ok r -> (1 <= n)%Z).
Proof.
  intros fl pd n mmin mmax dr eps dt self input input_length mask Hinit.
  destruct (dereverb_init_inv _ _ _ _ _ _ _ _ Hinit) as [Hc [Hn _]].
  assert (H0 : (n <= 0)%Z ->
               forward self input input_length mask = Err (UnboundLocalError "output_length")).
  { intro Hle. rewrite dereverb_forward_unfold by exact Hc.
    rewrite Hn. replace (Z.to_nat n) with 0%nat by lia. reflexivity. }
  split; [exact H0|].
  intros r Hr. destruct (Z_le_gt_dec n 0) as [Hle|Hgt]; [|lia].
  rewrite (H0 Hle) in Hr. discriminate.
Qed.

(** C2 (what the code does with a real-valued input): the input is
    converted to the internal complex type before the assertion, so it is
    processed exactly as its complex embedding and the result is converted
    back; whenever the embedding is processed, so is the real-valued input. *)
Theorem dereverb_real_input_accepted :
  forall fl pd n mmin mmax dr eps dt self input input_length mask,
    MaskBasedDereverbWPE.init fl pd n mmin mmax dr eps dt = Ok self ->
    is_complex input = false ->
    let embedded := to_dtype Creal_part (MaskBasedDereverbWPE.dtype_ self) input in
    forward self input input_length mask =
      (r <- forward self embedded input_length mask ;;
       Ok (to_dtype Creal_part (dtype_of input) (fst r), snd r)) /\
    (forall r, forward self embedded input_length mask = Ok r ->
               exists out, forward self input input_length mask = Ok (out, snd r) /\
                           is_complex out = false).
Proof.
  intros fl pd n mmin mmax dr eps dt self input input_length mask Hinit Hreal embedded.
  destruct (dereverb_init_inv _ _ _ _ _ _ _ _ Hinit) as [Hc _].
  assert (Heq : forward self input input_length mask =
                (r <- forward self embedded input_length mask ;;
                 Ok (to_dtype Creal_part (dtype_of input) (fst r), snd r))).
  { rewrite !dereverb_forward_unfold by exact Hc.
    subst embedded. unfold to_dtype at 3 4. simpl dtype_of. simpl values.
    rewrite Hc.
    destruct (MaskBasedDereverbWPE.iterations _ _ _ _ _ _ _ _) as [st|e]; [|reflexivity].
    simpl. destruct (MaskBasedDereverbWPE.output_length st); [|reflexivity].
    simpl. unfold to_dtype. simpl. rewrite Hc. reflexivity. }
  split; [exact Heq|].
  intros r Hr. rewrite Heq, Hr. simpl.
  eexists. split; [reflexivity|].
  unfold is_complex, to_dtype in *. simpl. exact Hreal.
Qed.

End DereverbProofs.

Lemma dereverb_no_iteration_witness :
  MaskBasedDereverbWPE.init 3 1 0 (-200) 0 (Some (1 / 1000000)%R) Examples.small_eps cdouble
    = Ok Examples.dereverb0 /\
  (0 <= 0)%Z /\
  MaskBasedDereverbWPE.forward Examples.failing_cholesky Examples.failing_solve
    Examples.dereverb0 Examples.complex_input None None
    = Err (UnboundLocalError "output_length").
Proof.
  split; [reflexivity|]. split; [lia|].
  apply (proj1 (@dereverb_no_iteration_unbound_output_length
                  Examples.failing_cholesky Examples.failing_solve
                  3%Z 1%Z 0%Z (-200)%R 0%R (Some (1 / 1000000)%R) Examples.small_eps cdouble
                  Examples.dereverb0 Examples.complex_input None None eq_refl)).
  lia.
Defined.

Lemma dereverb_real_input_witness :
  MaskBasedDereverbWPE.init 3 1 1 (-200) 0 (Some (1 / 1000000)%R) Examples.small_eps cdouble
    = Ok Examples.dereverb1 /\
  is_complex Examples.real_input = false /\
  MaskBasedDereverbWPE.forward Examples.failing_cholesky Examples.failing_solve
    Examples.dereverb1 Examples.real_input None None
  = (r <- MaskBasedDereverbWPE.forward Examples.failing_cholesky Examples.failing_solve
            Examples.dereverb1
            (to_dtype Creal_part (MaskBasedDereverbWPE.dtype_ Examples.dereverb1)
               Examples.real_input) None None ;;
     Ok (to_dtype Creal_part (dtype_of Examples.real_input) (fst r), snd r)).
Proof.
  split; [reflexivity|]. split; [reflexivity|].
  apply (proj1 (@dereverb_real_input_accepted
                  Examples.failing_cholesky Examples.failing_solve
                  3%Z 1%Z 1%Z (-200)%R 0%R (Some (1 / 1000000)%R) Examples.small_eps cdouble
                  Examples.dereverb1 Examples.real_input None None eq_refl eq_refl)).
Defined.

(** ** MaskBasedBeamformer.__init__ *)

Lemma Rltb_true : forall x y : R, (x < y)%R -> Rltb x y = true.
Proof. intros x y H. unfold Rltb. destruct (Rlt_dec x y); [reflexivity | contradiction]. Qed.

Lemma Rleb_true : forall x y : R, (x <= y)%R -> Rleb x y = true.
Proof. intros x y H. unfold Rleb. destruct (Rle_dec x y); [reflexivity | contradiction]. Qed.

Lemma Reqb_true : forall x y : R, x = y -> Reqb x y = true.
Proof. intros x y H. unfold Reqb. destruct (Req_dec_T x y); [reflexivity | contradiction]. Qed.

Lemma Reqb_false : forall x y : R, x <> y -> Reqb x y = false.
Proof. intros x y H. unfold Reqb. destruct (Req_dec_T x y); [contradiction | reflexivity]. Qed.

(** C4 (what the code does when only the rank is inconsistent): with
    [filter_type = 'mvdr_souden'] and [filter_beta = 0], the rank given by
    the caller is passed to the filter unchanged and nothing is logged. *)
Theorem beamformer_souden_rank_kept_when_beta_zero :
  forall a : MaskBasedBeamformer.args,
    MaskBasedBeamformer.filter_type a = "mvdr_souden"%string ->
    MaskBasedBeamformer.filter_beta a = 0%R ->
    (MaskBasedBeamformer.mask_min_db a < MaskBasedBeamformer.mask_max_db a)%R ->
    (MaskBasedBeamformer.postmask_min_db a <= MaskBasedBeamformer.postmask_max_db a)%R ->
    exists self,
      MaskBasedBeamformer.init a = Ok (self, []) /\
      ParametricMultichannelWienerFilter.rank (MaskBasedBeamformer.filter self)
        = MaskBasedBeamformer.filter_rank a /\
      ParametricMultichannelWienerFilter.beta (MaskBasedBeamformer.filter self) = 0%R.
Proof.
  intros a Ht Hb Hm Hp. unfold MaskBasedBeamformer.init.
  rewrite Ht, Hb, (Reqb_true (eq_refl 0%R)), (Rltb_true Hm), (Rleb_true Hp).
  simpl. eexists. split; [reflexivity|]. simpl. auto.
Qed.

Lemma beamformer_souden_rank_kept_witness :
  exists self,
    MaskBasedBeamformer.init Examples.souden_full_rank = Ok (self, []) /\
    ParametricMultichannelWienerFilter.rank (MaskBasedBeamformer.filter self) = "full"%string /\
    ParametricMultichannelWienerFilter.beta (MaskBasedBeamformer.filter self) = 0%R.
Proof.
  apply (@beamformer_souden_rank_kept_when_beta_zero Examples.souden_full_rank);
    simpl; try reflexivity; lra.
Defined.

(** X1: with [filter_type = 'mvdr_souden'] and a non-zero [filter_beta], the
    constructor raises nothing: it logs a warning and builds the filter with
    beta = 0 and rank = 'one'. *)
Theorem beamformer_souden_beta_corrected :
  forall a : MaskBasedBeamformer.args,
    MaskBasedBeamformer.filter_type a = "mvdr_souden"%string ->
    MaskBasedBeamformer.filter_beta a <> 0%R ->
    (MaskBasedBeamformer.mask_min_db a < MaskBasedBeamformer.mask_max_db a)%R ->
    (MaskBasedBeamformer.postmask_min_db a <= MaskBasedBeamformer.postmask_max_db a)%R ->
    exists self,
      MaskBasedBeamformer.init a = Ok (self, [MaskBasedBeamformer.beta_warning]) /\
      ParametricMultichannelWienerFilter.rank (MaskBasedBeamformer.filter self) = "one"%string /\
      ParametricMultichannelWienerFilter.beta (MaskBasedBeamformer.filter self) = 0%R.
Proof.
  intros a Ht Hb Hm Hp. unfold MaskBasedBeamformer.init.
  rewrite Ht, (Reqb_false Hb), (Rltb_true Hm), (Rleb_true Hp).
  simpl. eexists. split; [reflexivity|]. simpl. auto.
Qed.

Lemma beamformer_souden_beta_corrected_witness :
  exists self,
    MaskBasedBeamformer.init Examples.souden_beta_one
      = Ok (self, [MaskBasedBeamformer.beta_warning]) /\
    ParametricMultichannelWienerFilter.rank (MaskBasedBeamformer.filter self) = "one"%string /\
    ParametricMultichannelWienerFilter.beta (MaskBasedBeamformer.filter self) = 0%R.
Proof.
  apply (@beamformer_souden_beta_corrected Examples.souden_beta_one);
    simpl; try reflexivity; lra.
Defined.

(** ** Valid-length masking *)

Lemma masked_fill_shape :
  forall (A : Type) (zero : A) x mask v y,
    masked_fill zero x mask v = Ok y -> shape y = shape x.
Proof.
  intros A zero x mask v y H. unfold masked_fill in H.
  destruct (_ && _); [|discriminate]. injection H as <-. reflexivity.
Qed.

(** Filling under the same mask a second time changes nothing. *)
Lemma masked_fill_idempotent :
  forall (A : Type) (zero : A) x mask v y,
    masked_fill zero x mask v = Ok y -> masked_fill zero y mask v = Ok y.
Proof.
  intros A zero x mask v y H.
  pose proof (masked_fill_shape _ _ _ _ H) as Hs.
  unfold masked_fill in *. rewrite Hs.
  destruct (_ && _); [|discriminate]. injection H as <-.
  f_equal. apply tab_ext. intros idx Hr.
  rewrite get_tab by exact Hr.
  destruct (bget false mask (List.length (shape x)) idx); reflexivity.
Qed.

Lemma make_seq_mask_like_shape_only :
  forall (A : Type) lengths (x y : tensor A) valid_ones,
    shape y = shape x ->
    make_seq_mask_like lengths y valid_ones = make_seq_mask_like lengths x valid_ones.
Proof. intros A lengths x y v H. unfold make_seq_mask_like. rewrite H. reflexivity. Qed.

Lemma expandable_time_mask :
  forall s, s <> [] -> expandable (repeat 1 (List.length s - 1) ++ [last s 0]) s = true.
Proof.
  induction s as [|a s IH]; intros Hne; [congruence|].
  destruct s as [|b s'].
  - simpl. rewrite Nat.eqb_refl. reflexivity.
  - assert (Hne' : b :: s' <> []) by discriminate.
    specialize (IH Hne').
    replace (List.length (a :: b :: s') - 1) with (S (List.length (b :: s') - 1))
      by (simpl; lia).
    change (last (a :: b :: s') 0) with (last (b :: s') 0).
    simpl repeat. simpl app. simpl expandable at 1.
    rewrite orb_true_r. exact IH.
Qed.

Lemma time_mask_shape :
  forall (A : Type) (x : tensor A) (lengths : tensor Z) B s,
    shape x = B :: s -> s <> [] -> shape lengths = [B] ->
    shape (make_seq_mask_like lengths x false)
    = B :: repeat 1 (List.length s - 1) ++ [last s 0].
Proof.
  intros A x lengths B s Hx Hs Hl. unfold make_seq_mask_like.
  rewrite shape_tab, Hx, Hl. simpl hd.
  replace (List.length (B :: s) - 2) with (List.length s - 1) by (simpl; lia).
  replace (last (B :: s) 0) with (last s 0) by (destruct s; [congruence | reflexivity]).
  reflexivity.
Qed.

Lemma time_mask_rank :
  forall B s, s <> [] ->
    List.length (B :: repeat 1 (List.length s - 1) ++ [last s 0]) = List.length (B :: s).
Proof.
  intros B s Hs. simpl. rewrite length_app, repeat_length. simpl.
  destruct s; [congruence|]. simpl. lia.
Qed.

Lemma mask_padded_frames_ok :
  forall (A : Type) (zero : A) (x : tensor A) (lengths : tensor Z) B s,
    shape x = B :: s -> s <> [] -> shape lengths = [B] ->
    exists y, WPEFilter.mask_padded_frames zero x lengths = Ok y.
Proof.
  intros A zero x lengths B s Hx Hs Hl.
  unfold WPEFilter.mask_padded_frames, masked_fill.
  rewrite (time_mask_shape x lengths Hx Hs Hl), Hx.
  unfold align. rewrite (time_mask_rank B Hs), Nat.leb_refl, Nat.sub_diag.
  cbn [repeat app expandable].
  rewrite Nat.eqb_refl, (expandable_time_mask Hs). cbn [orb andb].
  eexists. reflexivity.
Qed.

Lemma mask_padded_frames_again :
  forall (A : Type) (zero : A) (x y : tensor A) (lengths : tensor Z),
    WPEFilter.mask_padded_frames zero x lengths = Ok y ->
    WPEFilter.mask_padded_frames zero y lengths = Ok y.
Proof.
  intros A zero x y lengths H. unfold WPEFilter.mask_padded_frames in *.
  rewrite (make_seq_mask_like_shape_only lengths x y false (masked_fill_shape _ _ _ _ H)).
  eapply masked_fill_idempotent. exact H.
Qed.

(** C9: valid-length masking is idempotent.  For a tensor with a batch axis
    and a time axis and one length per batch item, the masking of
    [WPEFilter.forward] and [estimate_correlations] returns a tensor, and
    masking that tensor again returns exactly the same tensor. *)
Theorem valid_length_masking_idempotent :
  forall (A : Type) (zero : A) (x : tensor A) (lengths : tensor Z) B s,
    shape x = B :: s -> s <> [] -> shape lengths = [B] ->
    exists y,
      WPEFilter.mask_padded_frames zero x lengths = Ok y /\
      WPEFilter.mask_padded_frames zero y lengths = Ok y.
Proof.
  intros A zero x lengths B s Hx Hs Hl.
  destruct (mask_padded_frames_ok zero x lengths Hx Hs Hl) as [y Hy].
  exists y. split; [exact Hy|]. eapply mask_padded_frames_again. exact Hy.
Qed.

(** X2: the same without conditions on the shapes: masking twice is masking
    once, also when the mask cannot be broadcast and the masking fails. *)
Lemma valid_length_masking_twice :
  forall (A : Type) (zero : A) (x : tensor A) (lengths : tensor Z),
    (y <- WPEFilter.mask_padded_frames zero x lengths ;;
     WPEFilter.mask_padded_frames zero y lengths)
    = WPEFilter.mask_padded_frames zero x lengths.
Proof.
  intros A zero x lengths.
  destruct (WPEFilter.mask_padded_frames zero x lengths) as [y|e] eqn:E; [|reflexivity].
  simpl. eapply mask_padded_frames_again. exact E.
Qed.

Lemma valid_length_masking_witness :
  exists y,
    WPEFilter.mask_padded_frames 0%Z Examples.padded Examples.valid_lengths = Ok y /\
    WPEFilter.mask_padded_frames 0%Z y Examples.valid_lengths = Ok y.
Proof.
  apply (@valid_length_masking_idempotent Z 0%Z Examples.padded Examples.valid_lengths
           2 [1; 3]); [reflexivity | discriminate | reflexivity].
Defined.

(** Frames at or beyond the valid length of their batch item are zeroed. *)
Example valid_length_masking_example :
  WPEFilter.mask_padded_frames 0%Z Examples.padded Examples.valid_lengths
  = Ok (mkTensor [2; 1; 3] [1; 2; 0; 4; 0; 0]%Z).
Proof. vm_compute. reflexivity. Qed.

(** ** Elementwise operations and broadcasting *)

Lemma shape_tmap : forall (A B : Type) (f : A -> B) x, shape (tmap f x) = shape x.
Proof. reflexivity. Qed.

Lemma wf_tmap : forall (A B : Type) (f : A -> B) x, wf x -> wf (tmap f x).
Proof. intros A B f x H. unfold wf, tmap in *. simpl. now rewrite length_map. Qed.

Lemma get_tmap :
  forall (A B : Type) (f : A -> B) (d : A) (d' : B) x idx,
    wf x -> in_range (shape x) idx ->
    get d' (tmap f x) idx = f (get d x idx).
Proof.
  intros A B f d d' x idx Hwf Hr. unfold get, tmap. simpl.
  pose proof (flat_index_lt _ _ Hr) as Hlt. unfold wf in Hwf.
  rewrite nth_indep with (d' := f d) by (rewrite length_map; lia).
  apply map_nth.
Qed.

Lemma bidx_id : forall s idx, in_range s idx -> bidx s idx = idx.
Proof.
  induction s as [|n s IH]; intros [|i idx] H; simpl in *; try tauto.
  destruct H as [Hi H]. rewrite (IH _ H).
  destruct (n =? 1) eqn:E; [|reflexivity].
  apply Nat.eqb_eq in E. f_equal. lia.
Qed.

Lemma broadcast_shapes_same : forall s, broadcast_shapes s s = Some s.
Proof.
  induction s as [|n s IH]; simpl; [reflexivity|].
  rewrite IH, Nat.eqb_refl. reflexivity.
Qed.

(** Broadcasting two tensors of the same rank. *)
Lemma broadcast2_same_rank :
  forall (A B C : Type) (dA : A) (dB : B) (f : A -> B -> C) x y s,
    List.length (shape x) = List.length (shape y) ->
    broadcast_shapes (shape x) (shape y) = Some s ->
    broadcast2 dA dB f x y
    = Ok (tab s (fun idx => f (get dA x (bidx (shape x) idx))
                              (get dB y (bidx (shape y) idx)))).
Proof.
  intros A B C dA dB f x y s Hlen Hs. unfold broadcast2, bget, align.
  rewrite <- Hlen, Nat.max_id, Nat.sub_diag.
  simpl. rewrite Hs. reflexivity.
Qed.

(** An elementwise operation on two tensors of one shape. *)
Lemma broadcast2_same_shape :
  forall (A B C : Type) (dA : A) (dB : B) (f : A -> B -> C) x y,
    shape y = shape x ->
    broadcast2 dA dB f x y
    = Ok (tab (shape x) (fun idx => f (get dA x idx) (get dB y idx))).
Proof.
  intros A B C dA dB f x y Hs.
  rewrite (@broadcast2_same_rank _ _ _ dA dB f x y (shape x))
    by (rewrite Hs; auto using broadcast_shapes_same).
  f_equal. apply tab_ext. intros idx Hr. rewrite Hs, (bidx_id _ _ Hr). reflexivity.
Qed.

(** A tensor with a single channel broadcast over the channels of another. *)
Lemma broadcast2_single_channel :
  forall (A B C : Type) (dA : A) (dB : B) (f : A -> B -> C) x y Bn M Fn N,
    shape x = [Bn; M; Fn; N] -> shape y = [Bn; 1; Fn; N] ->
    broadcast2 dA dB f x y
    = Ok (tab [Bn; M; Fn; N]
            (fun idx => match idx with
                        | [b; m; k; t] => f (get dA x [b; m; k; t]) (get dB y [b; 0; k; t])
                        | _ => f dA dB
                        end)).
Proof.
  intros A B C dA dB f x y Bn M Fn N Hx Hy.
  rewrite (@broadcast2_same_rank _ _ _ dA dB f x y [Bn; M; Fn; N]).
  - f_equal. apply tab_ext. intros idx Hr.
    destruct idx as [|b [|m [|k [|t [|? ?]]]]]; simpl in Hr; try tauto.
    destruct Hr as [Hb [Hm [Hk [Ht _]]]].
    rewrite Hx, Hy.
    rewrite (@bidx_id [Bn; M; Fn; N] [b; m; k; t]) by (simpl; tauto).
    simpl bidx.
    replace (if Bn =? 1 then 0 else b) with b
      by (destruct (Bn =? 1) eqn:E; [apply Nat.eqb_eq in E; lia | reflexivity]).
    replace (if Fn =? 1 then 0 else k) with k
      by (destruct (Fn =? 1) eqn:E; [apply Nat.eqb_eq in E; lia | reflexivity]).
    replace (if N =? 1 then 0 else t) with t
      by (destruct (N =? 1) eqn:E; [apply Nat.eqb_eq in E; lia | reflexivity]).
    reflexivity.
  - rewrite Hx, Hy. reflexivity.
  - rewrite Hx, Hy. simpl. rewrite !Nat.eqb_refl.
    destruct (M =? 1); reflexivity.
Qed.

(** ** MaskReferenceChannel.forward *)

Lemma slice_bound_inside :
  forall (i : Z) (n : nat), (0 <= i <= Z.of_nat n)%Z -> slice_bound i n = Z.to_nat i.
Proof.
  intros i n H. unfold slice_bound.
  destruct (Z.ltb_spec i 0); [lia|]. lia.
Qed.

(** C8: for an input of shape (B, C, F, N), a mask of shape (B, M, F, N) and
    a reference channel of the input, [forward] returns the output of shape
    (B, M, F, N) with output(b, m, f, t) = clamp(mask(b, m, f, t), mask_min,
    mask_max) * input(b, ref_channel, f, t), and the input length unchanged. *)
Theorem mask_reference_channel_forward :
  forall (self : MaskReferenceChannel.t) (input : tensor complex) (input_length : tensor Z)
         (mask : tensor R) (B C F N M : nat),
    shape input = [B; C; F; N] ->
    shape mask = [B; M; F; N] -> wf mask ->
    (0 <= MaskReferenceChannel.ref_channel self < Z.of_nat C)%Z ->
    exists output,
      MaskReferenceChannel.forward self input input_length mask = Ok (output, input_length) /\
      shape output = [B; M; F; N] /\
      forall b m f t,
        b < B -> m < M -> f < F -> t < N ->
        get Czero output [b; m; f; t]
        = Cscale (clamp (MaskReferenceChannel.mask_min self) (MaskReferenceChannel.mask_max self)
                    (get 0%R mask [b; m; f; t]))
                 (get Czero input [b; Z.to_nat (MaskReferenceChannel.ref_channel self); f; t]).
Proof.
  intros self input input_length mask B C F N M Hi Hm Hwf Href.
  unfold MaskReferenceChannel.forward, slice_channels. rewrite Hi.
  rewrite !slice_bound_inside by lia.
  replace (Z.to_nat (MaskReferenceChannel.ref_channel self + 1)
           - Z.to_nat (MaskReferenceChannel.ref_channel self)) with 1 by lia.
  cbn [bind].
  erewrite broadcast2_single_channel
    by (first [rewrite shape_tmap; exact Hm | apply shape_tab]).
  cbn [bind]. eexists. split; [reflexivity|]. split; [reflexivity|].
  intros b m f t Hb Hm' Hf Ht.
  rewrite get_tab by (apply in_range4; assumption).
  rewrite get_tmap with (d := 0%R) by (first [exact Hwf | rewrite Hm; apply in_range4; assumption]).
  rewrite get_tab by (apply in_range4; try assumption; lia).
  rewrite Nat.add_0_r. reflexivity.
Qed.

Lemma mask_reference_channel_witness :
  exists output,
    MaskReferenceChannel.forward Examples.reference1 Examples.two_channels
      Examples.one_length Examples.three_masks = Ok (output, Examples.one_length) /\
    shape output = [1; 3; 1; 1] /\
    forall b m f t,
      b < 1 -> m < 3 -> f < 1 -> t < 1 ->
      get Czero output [b; m; f; t]
      = Cscale (clamp 0 1 (get 0%R Examples.three_masks [b; m; f; t]))
               (get Czero Examples.two_channels [b; 1; f; t]).
Proof.
  apply (@mask_reference_channel_forward Examples.reference1 Examples.two_channels
           Examples.one_length Examples.three_masks 1 2 1 1 3);
    [reflexivity | reflexivity | reflexivity | simpl; lia].
Defined.

(** ** MaskBasedBeamformer.forward: the undesired-signal mask *)

Lemma in_range3 :
  forall B F N b f t, b < B -> f < F -> t < N -> in_range [B; F; N] [b; f; t].
Proof. simpl; intuition. Qed.

Lemma select_channel_ok :
  forall (A : Type) (d : A) (x : tensor A) B M F N m,
    shape x = [B; M; F; N] -> m < M ->
    exists y, select_channel d m x = Ok y /\ shape y = [B; F; N] /\ wf y /\
              forall b f t, b < B -> f < F -> t < N ->
                            get d y [b; f; t] = get d x [b; m; f; t].
Proof.
  intros A d x B M F N m Hs Hm. unfold select_channel. rewrite Hs.
  destruct (Nat.ltb_spec m M) as [_|]; [|lia].
  eexists. split; [reflexivity|]. split; [reflexivity|]. split; [apply wf_tab|].
  intros b f t Hb Hf Ht. rewrite get_tab by (apply in_range3; assumption). reflexivity.
Qed.

(** C5: in [forward], for the output index [m] of a mask of shape
    (B, M, F, N), the undesired mask before thresholding is 1 - mask[:, m]
    when there is a single mask, (sum over all masks) - mask[:, m] when there
    are several, and the [m]-th channel of [mask_undesired] when that is
    supplied. *)
Theorem beamformer_undesired_mask :
  forall (mask : tensor R) (B M F N m : nat),
    shape mask = [B; M; F; N] -> m < M ->
    exists mask_d,
      select_channel 0%R m mask = Ok mask_d /\
      (M = 1 ->
       exists mask_u,
         MaskBasedBeamformer.undesired_mask mask None M m mask_d = Ok mask_u /\
         shape mask_u = [B; F; N] /\
         forall b f t, b < B -> f < F -> t < N ->
           get 0%R mask_u [b; f; t] = (1 - get 0%R mask [b; m; f; t])%R) /\
      (1 < M ->
       exists mask_u,
         MaskBasedBeamformer.undesired_mask mask None M m mask_d = Ok mask_u /\
         shape mask_u = [B; F; N] /\
         forall b f t, b < B -> f < F -> t < N ->
           get 0%R mask_u [b; f; t]
           = (sum_upto M (fun k => get 0%R mask [b; k; f; t]) - get 0%R mask [b; m; f; t])%R) /\
      (forall (mask_undesired : tensor R) (M' : nat),
         shape mask_undesired = [B; M'; F; N] -> m < M' ->
         exists mask_u,
           MaskBasedBeamformer.undesired_mask mask (Some mask_undesired) M m mask_d = Ok mask_u /\
           shape mask_u = [B; F; N] /\
           forall b f t, b < B -> f < F -> t < N ->
             get 0%R mask_u [b; f; t] = get 0%R mask_undesired [b; m; f; t]).
Proof.
  intros mask B M F N m Hs Hm.
  destruct (select_channel_ok 0%R mask Hs Hm) as [mask_d [Hd [Hsd [Hwd Hgd]]]].
  exists mask_d. split; [exact Hd|]. split; [|split].
  - intros HM. subst M. simpl.
    eexists. split; [reflexivity|]. split; [rewrite shape_tmap; exact Hsd|].
    intros b f t Hb Hf Ht.
    rewrite get_tmap with (d := 0%R)
      by (first [exact Hwd | rewrite Hsd; apply in_range3; assumption]).
    rewrite Hgd by assumption. reflexivity.
  - intros HM. unfold MaskBasedBeamformer.undesired_mask.
    destruct (Nat.eqb_spec M 1) as [E|_]; [lia|].
    unfold sum_channels. rewrite Hs. cbn [bind].
    rewrite broadcast2_same_shape by (rewrite shape_tab; exact Hsd).
    rewrite shape_tab.
    eexists. split; [reflexivity|]. split; [reflexivity|].
    intros b f t Hb Hf Ht.
    rewrite !get_tab by (apply in_range3; assumption).
    rewrite Hgd by assumption. reflexivity.
  - intros mu M' Hmu Hm'. simpl.
    destruct (select_channel_ok 0%R mu Hmu Hm') as [u [Hu [Hsu [_ Hgu]]]].
    exists u. split; [exact Hu|]. split; [exact Hsu|]. exact Hgu.
Qed.

Lemma beamformer_undesired_mask_witness :
  exists mask_d,
    select_channel 0%R 0 Examples.two_masks = Ok mask_d /\
    (2 = 1 ->
     exists mask_u,
       MaskBasedBeamformer.undesired_mask Examples.two_masks None 2 0 mask_d = Ok mask_u /\
       shape mask_u = [1; 1; 1] /\
       forall b f t, b < 1 -> f < 1 -> t < 1 ->
         get 0%R mask_u [b; f; t] = (1 - get 0%R Examples.two_masks [b; 0%nat; f; t])%R) /\
    (1 < 2 ->
     exists mask_u,
       MaskBasedBeamformer.undesired_mask Examples.two_masks None 2 0 mask_d = Ok mask_u /\
       shape mask_u = [1; 1; 1] /\
       forall b f t, b < 1 -> f < 1 -> t < 1 ->
         get 0%R mask_u [b; f; t]
         = (sum_upto 2 (fun k => get 0%R Examples.two_masks [b; k; f; t])
            - get 0%R Examples.two_masks [b; 0%nat; f; t])%R) /\
    (forall (mask_undesired : tensor R) (M' : nat),
       shape mask_undesired = [1; M'; 1; 1] -> 0 < M' ->
       exists mask_u,
         MaskBasedBeamformer.undesired_mask Examples.two_masks (Some mask_undesired) 2 0 mask_d
           = Ok mask_u /\
         shape mask_u = [1; 1; 1] /\
         forall b f t, b < 1 -> f < 1 -> t < 1 ->
           get 0%R mask_u [b; f; t] = get 0%R mask_undesired [b; 0; f; t]).
Proof.
  apply (@beamformer_undesired_mask Examples.two_masks 1 2 1 1 0); [reflexivity | lia].
Defined.

(** ** WPEFilter.estimate_filter *)

Lemma Cadd_zero_r : forall q : complex, Cadd q (C_of_R 0) = q.
Proof. intros [a b]. unfold Cadd, C_of_R. simpl. f_equal; lra. Qed.

Lemma truthy_some :
  forall d, WPEFilter.truthy d = true -> exists r, d = Some r /\ r <> 0%R.
Proof.
  intros [r|] H; simpl in H; [|discriminate].
  exists r. split; [reflexivity|]. unfold Reqb in H.
  destruct (Req_dec_T r 0); [discriminate | assumption].
Qed.

(** The regularization of a batch of square matrices. *)
Lemma regularize_entries :
  forall (self : WPEFilter.t) (Q : tensor complex) (B F n : nat),
    shape Q = [B; F; n; n] ->
    exists Q',
      WPEFilter.regularize self Q = Ok Q' /\
      shape Q' = [B; F; n; n] /\
      (WPEFilter.truthy (WPEFilter.diag_reg self) = false -> Q' = Q) /\
      forall b f i j, b < B -> f < F -> i < n -> j < n ->
        get Czero Q' [b; f; i; j] =
          if WPEFilter.truthy (WPEFilter.diag_reg self) && (i =? j)
          then Cadd (get Czero Q [b; f; i; j])
                    (C_of_R (match WPEFilter.diag_reg self with Some r => r | None => 0 end
                             * re (Csum_upto n (fun k => get Czero Q [b; f; k; k]))
                             + WPEFilter.eps self)%R)
          else get Czero Q [b; f; i; j].
Proof.
  intros self Q B F n Hs. unfold WPEFilter.regularize.
  destruct (WPEFilter.truthy (WPEFilter.diag_reg self)) eqn:Et.
  - unfold WPEFilter.diag_loading. rewrite Hs. cbn [bind].
    unfold WPEFilter.diag_embed_const. rewrite shape_tab. cbn [bind last].
    rewrite broadcast2_same_shape by (rewrite shape_tab; symmetry; exact Hs).
    rewrite Hs. eexists. split; [reflexivity|]. split; [reflexivity|].
    split; [discriminate|].
    intros b f i j Hb Hf Hi Hj.
    rewrite !get_tab by (apply in_range4; assumption).
    rewrite Nat.min_id. cbn [andb].
    destruct (i =? j).
    + rewrite get_tab by (simpl; tauto). rewrite Rmult_1_r. reflexivity.
    + apply Cadd_zero_r.
  - exists Q. split; [reflexivity|]. split; [exact Hs|]. split; [reflexivity|].
    intros. reflexivity.
Qed.

Lemma numel_square :
  forall B F C L, numel [B; F; C * L; C * L] = numel [B; F; C; L; C; L].
Proof. intros. simpl. ring. Qed.

Lemma numel_rhs :
  forall B F C L, numel [B; F; C * L; C] = numel [B; F; C; L; C].
Proof. intros. simpl. ring. Qed.

Section EstimateFilterProofs.
Variable cholesky : tensor complex -> result (tensor complex).
Variable solve_triangular : tensor complex -> tensor complex -> bool -> result (tensor complex).

(** C6 (as the code has it): with [Q] of shape (B, F, C, L, C, L) reshaped to
    a (C L x C L) matrix per (b, f), a [diag_reg] that is set and non-zero
    adds diag_reg * Re(trace Q(b, f)) + eps to every diagonal entry of
    Q(b, f) and leaves the other entries; a [diag_reg] that is [None] or zero
    leaves [Q] as it is.  The matrix so obtained is factorized by Cholesky,
    and the filter is found by a forward and a backward triangular solve. *)
Theorem estimate_filter_regularized_cholesky_solve :
  forall (self : WPEFilter.t) (Q R : tensor complex) (B F C L : nat),
    shape Q = [B; F; C; L; C; L] ->
    shape R = [B; F; C; L; C] ->
    WPEFilter.filter_length self = Z.of_nat L ->
    exists Q',
      WPEFilter.regularize self (mkTensor [B; F; C * L; C * L] (data Q)) = Ok Q' /\
      (WPEFilter.truthy (WPEFilter.diag_reg self) = false ->
       Q' = mkTensor [B; F; C * L; C * L] (data Q)) /\
      (forall b f i j, b < B -> f < F -> i < C * L -> j < C * L ->
        get Czero Q' [b; f; i; j] =
          if WPEFilter.truthy (WPEFilter.diag_reg self) && (i =? j)
          then Cadd (get Czero (mkTensor [B; F; C * L; C * L] (data Q)) [b; f; i; j])
                    (C_of_R (Rplus
                               (Rmult
                                  (match WPEFilter.diag_reg self with
                                   | Some r => r
                                   | None => 0%R
                                   end)
                                  (re (Csum_upto (C * L)
                                         (fun k =>
                                            get Czero (mkTensor [B; F; C * L; C * L] (data Q))
                                              [b; f; k; k]))))
                               (WPEFilter.eps self)))
          else get Czero (mkTensor [B; F; C * L; C * L] (data Q)) [b; f; i; j]) /\
      WPEFilter.estimate_filter cholesky solve_triangular self Q R =
        (QL <- cholesky Q' ;;
         G <- solve_triangular QL (mkTensor [B; F; C * L; C] (data R)) false ;;
         QLH <- WPEFilter.conj_transpose QL ;;
         G <- solve_triangular QLH G true ;;
         G <- reshape [B; F; C; L; C] G ;;
         WPEFilter.permute_04123 G).
Proof.
  intros self Q R B F C L HQ HR HL.
  destruct (@regularize_entries self (mkTensor [B; F; C * L; C * L] (data Q)) B F (C * L)
              eq_refl) as [Q' [Hreg [Hshape [Hsame Hent]]]].
  exists Q'. split; [exact Hreg|]. split; [exact Hsame|]. split; [exact Hent|].
  unfold WPEFilter.estimate_filter. rewrite HQ, HL, Z.eqb_refl. cbn [assert bind].
  rewrite <- Nat2Z.inj_mul, Nat2Z.id.
  unfold reshape at 1 2. rewrite HQ, HR, numel_square, numel_rhs, !Nat.eqb_refl.
  cbn [bind]. rewrite Hreg. cbn [bind].
  unfold WPEFilter.cholesky_solve.
  destruct (cholesky Q') as [QL|e]; [|reflexivity]. cbn [bind].
  destruct (solve_triangular QL _ false) as [G|e]; [|reflexivity]. cbn [bind].
  destruct (WPEFilter.conj_transpose QL) as [QLH|e]; [|reflexivity]. cbn [bind].
  destruct (solve_triangular QLH G true) as [G'|e]; reflexivity.
Qed.

End EstimateFilterProofs.

Lemma estimate_filter_regularized_witness :
  exists Q',
    WPEFilter.regularize Examples.wpe_diag_reg_default
      (mkTensor [1; 1; 1 * 1; 1 * 1] (data Examples.unit_Q)) = Ok Q' /\
    (WPEFilter.truthy (WPEFilter.diag_reg Examples.wpe_diag_reg_default) = false ->
     Q' = mkTensor [1; 1; 1 * 1; 1 * 1] (data Examples.unit_Q)) /\
    (forall b f i j, b < 1 -> f < 1 -> i < 1 * 1 -> j < 1 * 1 ->
      get Czero Q' [b; f; i; j] =
        if WPEFilter.truthy (WPEFilter.diag_reg Examples.wpe_diag_reg_default) && (i =? j)
        then Cadd (get Czero (mkTensor [1; 1; 1 * 1; 1 * 1] (data Examples.unit_Q)) [b; f; i; j])
                  (C_of_R (Rplus
                             (Rmult
                                (match WPEFilter.diag_reg Examples.wpe_diag_reg_default with
                                 | Some r => r
                                 | None => 0%R
                                 end)
                                (re (Csum_upto (1 * 1)
                                       (fun k =>
                                          get Czero
                                            (mkTensor [1; 1; 1 * 1; 1 * 1] (data Examples.unit_Q))
                                            [b; f; k; k]))))
                             (WPEFilter.eps Examples.wpe_diag_reg_default)))
        else get Czero (mkTensor [1; 1; 1 * 1; 1 * 1] (data Examples.unit_Q)) [b; f; i; j]) /\
    WPEFilter.estimate_filter Examples.failing_cholesky Examples.failing_solve
      Examples.wpe_diag_reg_default Examples.unit_Q Examples.unit_R =
      (QL <- Examples.failing_cholesky Q' ;;
       G <- Examples.failing_solve QL (mkTensor [1; 1; 1 * 1; 1] (data Examples.unit_R)) false ;;
       QLH <- WPEFilter.conj_transpose QL ;;
       G <- Examples.failing_solve QLH G true ;;
       G <- reshape [1; 1; 1; 1; 1] G ;;
       WPEFilter.permute_04123 G).
Proof.
  apply (@estimate_filter_regularized_cholesky_solve
           Examples.failing_cholesky Examples.failing_solve
           Examples.wpe_diag_reg_default Examples.unit_Q Examples.unit_R 1 1 1 1);
    reflexivity.
Defined.

(** With [diag_reg = 0.0] the matrix handed to the Cholesky factorization is
    [Q] itself: its diagonal entry 1 is not the 1 + (0 * trace + eps) that
    regularization for every [diag_reg] would give. *)
Lemma estimate_filter_zero_diag_reg_not_regularized :
  WPEFilter.regularize Examples.wpe_diag_reg_zero Examples.unit_matrix
    = Ok Examples.unit_matrix /\
  get Czero Examples.unit_matrix [0; 0; 0; 0]
    <> Cadd (get Czero Examples.unit_matrix [0; 0; 0; 0])
            (C_of_R (Rplus (Rmult 0 (re (get Czero Examples.unit_matrix [0; 0; 0; 0])))
                       (WPEFilter.eps Examples.wpe_diag_reg_zero))) /\
  (forall cholesky solve_triangular,
     WPEFilter.estimate_filter cholesky solve_triangular
       Examples.wpe_diag_reg_zero Examples.unit_Q Examples.unit_R =
       (QL <- cholesky Examples.unit_matrix ;;
        G <- solve_triangular QL (mkTensor [1; 1; 1; 1] [mkC 1 0]) false ;;
        QLH <- WPEFilter.conj_transpose QL ;;
        G <- solve_triangular QLH G true ;;
        G <- reshape [1; 1; 1; 1; 1] G ;;
        WPEFilter.permute_04123 G)).
Proof.
  assert (Hreg : WPEFilter.regularize Examples.wpe_diag_reg_zero Examples.unit_matrix
                 = Ok Examples.unit_matrix).
  { unfold WPEFilter.regularize. simpl WPEFilter.diag_reg. unfold WPEFilter.truthy.
    rewrite (Reqb_true (eq_refl 0%R)). reflexivity. }
  split; [exact Hreg|]. split.
  - intro H. apply (f_equal re) in H. simpl in H. unfold Examples.small_eps in H. lra.
  - intros cholesky solve_triangular.
    unfold WPEFilter.estimate_filter. simpl shape. cbn [assert bind Z.eqb].
    change (WPEFilter.filter_length Examples.wpe_diag_reg_zero) with 1%Z.
    simpl Z.eqb. cbn [assert bind].
    unfold reshape at 1 2. simpl numel. simpl Nat.eqb. cbn [bind].
    change (mkTensor [1; 1; Z.to_nat (Z.of_nat 1 * 1); 1 * 1] (data Examples.unit_Q))
      with Examples.unit_matrix.
    rewrite Hreg. cbn [bind]. unfold WPEFilter.cholesky_solve.
    destruct (cholesky Examples.unit_matrix) as [QL|e]; [|reflexivity]. cbn [bind].
    destruct (solve_triangular QL _ false) as [G|e]; [|reflexivity]. cbn [bind].
    destruct (WPEFilter.conj_transpose QL) as [QLH|e]; [|reflexivity]. cbn [bind].
    destruct (solve_triangular QLH G true) as [G'|e]; reflexivity.
Qed.

(** ** Broadcasting against a tensor with axes of size 1 *)

Lemma expandable_length :
  forall s t, expandable s t = true -> List.length s = List.length t.
Proof.
  induction s as [|n s IH]; intros [|m t] H; simpl in *; try discriminate; [reflexivity|].
  apply andb_prop in H. destruct H as [_ H]. f_equal. auto.
Qed.

Lemma broadcast_shapes_expand_r :
  forall s t, expandable s t = true -> broadcast_shapes t s = Some t.
Proof.
  induction s as [|n s IH]; intros [|m t] H; simpl in *; try discriminate; [reflexivity|].
  apply andb_prop in H. destruct H as [Hn H]. rewrite (IH _ H).
  destruct (Nat.eqb_spec m n) as [->|Hne]; [reflexivity|].
  apply orb_prop in Hn. destruct Hn as [Hn|Hn]; apply Nat.eqb_eq in Hn; [congruence|].
  subst n. destruct (Nat.eqb_spec m 1); [congruence|]. reflexivity.
Qed.

Lemma broadcast_shapes_expand_l :
  forall s t, expandable s t = true -> broadcast_shapes s t = Some t.
Proof.
  induction s as [|n s IH]; intros [|m t] H; simpl in *; try discriminate; [reflexivity|].
  apply andb_prop in H. destruct H as [Hn H]. rewrite (IH _ H).
  destruct (Nat.eqb_spec n m) as [->|Hne]; [reflexivity|].
  apply orb_prop in Hn. destruct Hn as [Hn|Hn]; [discriminate|].
  rewrite Hn. reflexivity.
Qed.

(** The second operand is expanded to the shape of the first. *)
Lemma broadcast2_expand_r :
  forall (A B C : Type) (dA : A) (dB : B) (f : A -> B -> C) x y,
    expandable (shape y) (shape x) = true ->
    broadcast2 dA dB f x y
    = Ok (tab (shape x) (fun idx => f (get dA x idx) (get dB y (bidx (shape y) idx)))).
Proof.
  intros A B C dA dB f x y He.
  rewrite (@broadcast2_same_rank _ _ _ dA dB f x y (shape x)).
  - f_equal. apply tab_ext. intros idx Hr. rewrite (bidx_id _ _ Hr). reflexivity.
  - symmetry. apply expandable_length. exact He.
  - apply broadcast_shapes_expand_r. exact He.
Qed.

(** The first operand is expanded to the shape of the second. *)
Lemma broadcast2_expand_l :
  forall (A B C : Type) (dA : A) (dB : B) (f : A -> B -> C) x y,
    expandable (shape x) (shape y) = true ->
    broadcast2 dA dB f x y
    = Ok (tab (shape y) (fun idx => f (get dA x (bidx (shape x) idx)) (get dB y idx))).
Proof.
  intros A B C dA dB f x y He.
  rewrite (@broadcast2_same_rank _ _ _ dA dB f x y (shape y)).
  - f_equal. apply tab_ext. intros idx Hr. rewrite (bidx_id _ _ Hr). reflexivity.
  - apply expandable_length. exact He.
  - apply broadcast_shapes_expand_l. exact He.
Qed.

Lemma bsel_lt : forall n i, i < n -> (if n =? 1 then 0 else i) = i.
Proof.
  intros n i H. destruct (Nat.eqb_spec n 1); [lia | reflexivity].
Qed.

(** Reading a tensor through an added axis of size 1. *)
Lemma get_unsqueeze_last :
  forall (A : Type) (d : A) (x : tensor A) B M F b m f,
    get d (mkTensor [B; M; F; 1] (data x)) [b; m; f; 0]
    = get d (mkTensor [B; M; F] (data x)) [b; m; f].
Proof. intros. unfold get. simpl. f_equal; ring. Qed.

Lemma get_unsqueeze_before_last :
  forall (A : Type) (d : A) (x : tensor A) B M T b m t,
    get d (mkTensor [B; M; 1; T] (data x)) [b; m; 0; t]
    = get d (mkTensor [B; M; T] (data x)) [b; m; t].
Proof. intros. unfold get. simpl. f_equal; ring. Qed.

Lemma get_same_shape :
  forall (A : Type) (d : A) (x : tensor A) s idx,
    shape x = s -> get d (mkTensor s (data x)) idx = get d x idx.
Proof. intros A d x s idx <-. reflexivity. Qed.

(** ** MaskEstimatorGSS.update_masks over the reals *)

Lemma reshape_ok :
  forall (A : Type) (x : tensor A) s,
    numel s = numel (shape x) -> reshape s x = Ok (mkTensor s (data x)).
Proof. intros A x s H. unfold reshape. rewrite H, Nat.eqb_refl. reflexivity. Qed.

Lemma expandable_channel :
  forall B M F T, expandable [B; 1; F; T] [B; M; F; T] = true.
Proof. intros. simpl. rewrite !Nat.eqb_refl. now rewrite orb_true_r. Qed.

Lemma expandable_last :
  forall B M F T, expandable [B; M; F; 1] [B; M; F; T] = true.
Proof. intros. simpl. rewrite !Nat.eqb_refl. now rewrite orb_true_r. Qed.

Lemma expandable_subband :
  forall B M F T, expandable [B; M; 1; T] [B; M; F; T] = true.
Proof. intros. simpl. rewrite !Nat.eqb_refl. now rewrite orb_true_r. Qed.

(** The arithmetic of the estimator at the reals. *)
Ltac real_ops :=
  cbn [fzero fone fadd fsub fmul fdiv fmax fsqrt f_of_nat fisnan R_numeric] in *.

Section UpdateMasksProofs.
Local Open Scope R_scope.

Let update_masks := @MaskEstimatorGSS.update_masks R R_numeric exp.
Let weighted_pdf := @MaskEstimatorGSS.weighted_pdf R R_numeric exp.
Let normalize_sources := @MaskEstimatorGSS.normalize_sources R R_numeric.

(** The entries of the masks before normalization. *)
Lemma weighted_pdf_entries :
  forall (alpha activity log_pdf : tensor R) (B M F T : nat),
    shape alpha = [B; S M; F] -> shape activity = [B; S M; T] ->
    shape log_pdf = [B; S M; F; T] ->
    exists g,
      weighted_pdf alpha activity log_pdf = Ok g /\
      shape g = [B; S M; F; T] /\
      forall b m f t, (b < B)%nat -> (m < S M)%nat -> (f < F)%nat -> (t < T)%nat ->
        get 0 g [b; m; f; t]
        = get 0 alpha [b; m; f]
          * exp (get 0 log_pdf [b; m; f; t]
                 - MaskEstimatorGSS.fmax_upto M (fun k => get 0 log_pdf [b; k; f; t]))
          * get 0 activity [b; m; t].
Proof.
  intros alpha activity log_pdf B M F T Ha Hact Hlp.
  unfold weighted_pdf, MaskEstimatorGSS.weighted_pdf, MaskEstimatorGSS.max_sources.
  rewrite Hlp. cbn [bind].
  rewrite broadcast2_expand_r
    by (rewrite shape_tab, Hlp; apply expandable_channel).
  cbn [bind]. rewrite Ha, Hact.
  rewrite !reshape_ok by (first [rewrite Ha | rewrite Hact]; simpl; ring).
  cbn [bind]. cbn [removelast last app].
  rewrite broadcast2_expand_l
    by (rewrite shape_tmap, shape_tab, Hlp; apply expandable_last).
  cbn [bind].
  rewrite broadcast2_expand_r
    by (rewrite shape_tab, shape_tmap, shape_tab, Hlp; apply expandable_subband).
  rewrite !shape_tab, shape_tmap, shape_tab, Hlp.
  eexists. split; [reflexivity|]. split; [reflexivity|].
  intros b m f t Hb Hm Hf Ht.
  rewrite get_tab by (apply in_range4; assumption).
  rewrite get_tab by (apply in_range4; assumption).
  rewrite get_tmap with (d := 0)
    by (first [apply wf_tab | rewrite shape_tab; apply in_range4; assumption]).
  rewrite get_tab by (apply in_range4; assumption).
  cbn [shape bidx].
  rewrite ?(bsel_lt Hb), ?(bsel_lt Hf), ?(bsel_lt Ht), ?(bsel_lt Hm), ?Nat.eqb_refl.
  real_ops.
  rewrite get_unsqueeze_last, get_unsqueeze_before_last.
  rewrite (get_same_shape 0 alpha [b; m; f] Ha).
  rewrite (get_same_shape 0 activity [b; m; t] Hact).
  rewrite get_tab by (apply in_range4; try assumption; lia).
  reflexivity.
Qed.

(** The normalization across the sources. *)
Lemma normalize_sources_entries :
  forall (self : MaskEstimatorGSS.t R) (g : tensor R) (B M F T : nat),
    shape g = [B; M; F; T] ->
    exists gamma,
      normalize_sources self g = Ok gamma /\
      shape gamma = [B; M; F; T] /\
      forall b m f t, (b < B)%nat -> (m < M)%nat -> (f < F)%nat -> (t < T)%nat ->
        get 0 gamma [b; m; f; t]
        = get 0 g [b; m; f; t]
          / (sum_upto M (fun k => get 0 g [b; k; f; t]) + MaskEstimatorGSS.eps self).
Proof.
  intros self g B M F T Hg.
  unfold normalize_sources, MaskEstimatorGSS.normalize_sources, MaskEstimatorGSS.sum_sources.
  rewrite Hg. cbn [bind].
  rewrite broadcast2_expand_r
    by (rewrite shape_tmap, shape_tab, Hg; apply expandable_channel).
  rewrite Hg. eexists. split; [reflexivity|]. split; [reflexivity|].
  intros b m f t Hb Hm Hf Ht.
  rewrite get_tab by (apply in_range4; assumption).
  rewrite shape_tmap, shape_tab. cbn [bidx].
  rewrite ?(bsel_lt Hb), ?(bsel_lt Hf), ?(bsel_lt Ht), ?Nat.eqb_refl.
  rewrite get_tmap with (d := 0)
    by (first [apply wf_tab | rewrite shape_tab; apply in_range4; try assumption; lia]).
  rewrite get_tab by (apply in_range4; try assumption; lia).
  reflexivity.
Qed.

Lemma sum_upto_div :
  forall n f d, sum_upto n (fun k => f k / d) = sum_upto n f / d.
Proof.
  intros n f d. unfold sum_upto.
  induction (seq 0 n) as [|k l IH]; simpl.
  - unfold Rdiv. ring.
  - rewrite IH. unfold Rdiv. ring.
Qed.

Lemma sum_upto_ext :
  forall n f g, (forall k, (k < n)%nat -> f k = g k) -> sum_upto n f = sum_upto n g.
Proof.
  intros n f g H. unfold sum_upto.
  assert (Hin : forall k, In k (seq 0 n) -> f k = g k).
  { intros k Hk. apply in_seq in Hk. apply H. lia. }
  induction (seq 0 n) as [|k l IH]; simpl; [reflexivity|].
  rewrite (Hin k) by (left; reflexivity).
  rewrite IH by (intros; apply Hin; right; assumption). reflexivity.
Qed.

Lemma sum_upto_nonneg :
  forall n f, (forall k, (k < n)%nat -> 0 <= f k) -> 0 <= sum_upto n f.
Proof.
  intros n f H. unfold sum_upto.
  assert (Hin : forall k, In k (seq 0 n) -> 0 <= f k).
  { intros k Hk. apply in_seq in Hk. apply H. lia. }
  induction (seq 0 n) as [|k l IH]; simpl; [lra|].
  pose proof (Hin k (or_introl eq_refl)).
  assert (0 <= fold_right (fun k acc => f k + acc) 0 l)
    by (apply IH; intros; apply Hin; right; assumption).
  lra.
Qed.

Lemma Rdiv_nonneg : forall a b, 0 <= a -> 0 <= b -> 0 <= a / b.
Proof.
  intros a b Ha Hb. unfold Rdiv. destruct Hb as [Hb|<-].
  - apply Rmult_le_pos; [exact Ha | left; apply Rinv_0_lt_compat; exact Hb].
  - rewrite Rinv_0. lra.
Qed.

(** One mask update normalizes the masks across the sources with an
    eps-regularized denominator: with s(b, f, t) the sum over the sources of
    the weighted masks alpha * exp(log_pdf - max log_pdf) * activity, the
    masks of a frame sum to s / (s + eps). *)
Lemma update_masks_normalized :
  forall (self : MaskEstimatorGSS.t R) (alpha activity log_pdf : tensor R) (B M F T : nat),
    shape alpha = [B; M; F] -> shape activity = [B; M; T] ->
    shape log_pdf = [B; M; F; T] -> (0 < M)%nat ->
    0 < MaskEstimatorGSS.eps self ->
    (forall b m f, (b < B)%nat -> (m < M)%nat -> (f < F)%nat -> 0 <= get 0 alpha [b; m; f]) ->
    (forall b m t, (b < B)%nat -> (m < M)%nat -> (t < T)%nat -> 0 <= get 0 activity [b; m; t]) ->
    exists g gamma,
      weighted_pdf alpha activity log_pdf = Ok g /\
      update_masks self alpha activity log_pdf = Ok gamma /\
      shape gamma = [B; M; F; T] /\
      (forall b m f t, (b < B)%nat -> (m < M)%nat -> (f < F)%nat -> (t < T)%nat ->
         0 <= get 0 gamma [b; m; f; t]) /\
      forall b f t, (b < B)%nat -> (f < F)%nat -> (t < T)%nat ->
        0 <= sum_upto M (fun m => get 0 g [b; m; f; t]) /\
        sum_upto M (fun m => get 0 gamma [b; m; f; t])
        = sum_upto M (fun m => get 0 g [b; m; f; t])
          / (sum_upto M (fun m => get 0 g [b; m; f; t]) + MaskEstimatorGSS.eps self) /\
        1 - sum_upto M (fun m => get 0 gamma [b; m; f; t])
        = MaskEstimatorGSS.eps self
          / (sum_upto M (fun m => get 0 g [b; m; f; t]) + MaskEstimatorGSS.eps self) /\
        0 <= sum_upto M (fun m => get 0 gamma [b; m; f; t]) < 1.
Proof.
  intros self alpha activity log_pdf B M F T Ha Hact Hlp HM Heps Hna Hnact.
  destruct M as [|M]; [lia|]. clear HM.
  destruct (weighted_pdf_entries alpha activity log_pdf Ha Hact Hlp) as [g [Hg [Hsg Heg]]].
  destruct (normalize_sources_entries self g Hsg) as [gamma [Hn [Hsn Hen]]].
  assert (Hgpos : forall b m f t, (b < B)%nat -> (m < S M)%nat -> (f < F)%nat -> (t < T)%nat ->
                                  0 <= get 0 g [b; m; f; t]).
  { intros b m f t Hb Hm Hf Ht. rewrite Heg by assumption.
    apply Rmult_le_pos; [apply Rmult_le_pos|]; auto.
    left. apply exp_pos. }
  assert (Hspos : forall b f t, (b < B)%nat -> (f < F)%nat -> (t < T)%nat ->
                                0 <= sum_upto (S M) (fun m => get 0 g [b; m; f; t])).
  { intros b f t Hb Hf Ht. apply sum_upto_nonneg. intros m Hm. apply Hgpos; assumption. }
  exists g, gamma. split; [exact Hg|]. split.
  { unfold update_masks, MaskEstimatorGSS.update_masks.
    fold weighted_pdf. rewrite Hg. cbn [bind]. exact Hn. }
  split; [exact Hsn|]. split.
  { intros b m f t Hb Hm Hf Ht. rewrite Hen by assumption.
    apply Rdiv_nonneg; [apply Hgpos; assumption|].
    pose proof (Hspos b f t Hb Hf Ht). lra. }
  intros b f t Hb Hf Ht.
  pose proof (Hspos b f t Hb Hf Ht) as Hs.
  set (s := sum_upto (S M) (fun m => get 0 g [b; m; f; t])) in *.
  assert (Hsum : sum_upto (S M) (fun m => get 0 gamma [b; m; f; t])
                 = s / (s + MaskEstimatorGSS.eps self)).
  { rewrite (@sum_upto_ext (S M) (fun m => get 0 gamma [b; m; f; t])
               (fun m => get 0 g [b; m; f; t] / (s + MaskEstimatorGSS.eps self)))
      by (intros m Hm; apply Hen; assumption).
    apply sum_upto_div. }
  assert (Hpos : 0 < s + MaskEstimatorGSS.eps self) by lra.
  split; [exact Hs|]. split; [exact Hsum|].
  rewrite Hsum. split; [field; lra|].
  split.
  - apply Rmult_le_pos; [exact Hs | left; apply Rinv_0_lt_compat; exact Hpos].
  - apply Rmult_lt_reg_r with (r := s + MaskEstimatorGSS.eps self); [exact Hpos|].
    unfold Rdiv. rewrite Rmult_assoc, Rinv_l by lra. lra.
Qed.

End UpdateMasksProofs.

(** ** MaskEstimatorGSS.forward: what the EM iterations return *)

Section EstimatorProofs.
Context {F : Type} {num : Numeric F}.
Variable fexp : F -> F.
Variable update_pdf :
  MaskEstimatorGSS.t F -> tensor (F * F) -> tensor F -> tensor F -> result (tensor F * tensor F).

(** After at least one iteration the masks are the result of a mask update
    with the given activity. *)
Lemma em_iterations_last_update :
  forall n self z activity st st',
    MaskEstimatorGSS.em_iterations fexp update_pdf self z activity (S n) st = Ok st' ->
    exists alpha log_pdf,
      MaskEstimatorGSS.update_masks fexp self alpha activity log_pdf = Ok (fst st').
Proof.
  induction n as [|n IH]; intros self z activity st st' H.
  - simpl in H.
    destruct (MaskEstimatorGSS.em_iteration fexp update_pdf self z activity st)
      as [st1|e] eqn:E; simpl in H; [|discriminate].
    injection H as H. subst st'. unfold MaskEstimatorGSS.em_iteration in E.
    destruct (MaskEstimatorGSS.update_weights (fst st)) as [alpha|e]; simpl in E; [|discriminate].
    destruct (update_pdf self z (fst st) (snd st)) as [r|e]; simpl in E; [|discriminate].
    destruct (MaskEstimatorGSS.update_masks fexp self alpha activity (fst r))
      as [gamma|e] eqn:Eg; simpl in E; [|discriminate].
    injection E as <-. exists alpha, (fst r). exact Eg.
  - change (MaskEstimatorGSS.em_iterations fexp update_pdf self z activity (S (S n)) st)
      with (st1 <- MaskEstimatorGSS.em_iteration fexp update_pdf self z activity st ;;
            MaskEstimatorGSS.em_iterations fexp update_pdf self z activity (S n) st1) in H.
    destruct (MaskEstimatorGSS.em_iteration fexp update_pdf self z activity st)
      as [st1|e]; simpl bind in H; [|discriminate].
    eapply IH. exact H.
Qed.

Lemma estimate_last_update :
  forall self input activity gamma,
    (1 <= MaskEstimatorGSS.num_iterations self)%Z ->
    MaskEstimatorGSS.estimate fexp update_pdf self input activity = Ok gamma ->
    exists alpha log_pdf,
      MaskEstimatorGSS.update_masks fexp self alpha activity log_pdf = Ok gamma.
Proof.
  intros self input activity gamma Hn. unfold MaskEstimatorGSS.estimate.
  destruct (shape (values input)) as [|B [|C [|Fq [|T [|? ?]]]]]; try discriminate;
    destruct (shape activity) as [|B' [|M ?]]; try discriminate.
  destruct (assert _ _) as [u|e]; cbn [bind]; [|discriminate].
  destruct (assert _ _) as [u'|e]; cbn [bind]; [|discriminate].
  destruct (assert _ _) as [u''|e]; cbn [bind]; [|discriminate].
  destruct (MaskEstimatorGSS.normalize _ _) as [z|e]; cbn [bind]; [|discriminate].
  destruct (MaskEstimatorGSS.initial_masks _ _ _) as [gamma0|e]; cbn [bind]; [|discriminate].
  destruct (Z.to_nat (MaskEstimatorGSS.num_iterations self)) as [|n] eqn:En; [lia|].
  destruct (MaskEstimatorGSS.em_iterations _ _ _ _ _ _ _) as [st|e] eqn:E;
    cbn [bind]; [|discriminate].
  intro H. injection H as H. subst gamma. eapply em_iterations_last_update. exact E.
Qed.

(** What [forward] adds to the EM iterations: it raises exactly when an
    entry of the masks is a NaN, and returns the masks otherwise. *)
Lemma forward_check :
  forall self input activity,
    MaskEstimatorGSS.forward fexp update_pdf self input activity =
      match MaskEstimatorGSS.estimate fexp update_pdf self input activity with
      | Ok gamma =>
          if existsb fisnan (data gamma)
          then Err (RuntimeError "gamma contains NaNs")
          else Ok gamma
      | Err e => Err e
      end.
Proof.
  intros. unfold MaskEstimatorGSS.forward.
  destruct (MaskEstimatorGSS.estimate _ _ _ _ _); reflexivity.
Qed.

End EstimatorProofs.

(** ** MaskEstimatorGSS.forward over the reals: the masks it returns *)

Lemma expandable_middle3 : forall B M T, expandable [B; 1; T] [B; M; T] = true.
Proof. intros. simpl. rewrite !Nat.eqb_refl. now rewrite orb_true_r. Qed.

Lemma get_clamped_nonneg :
  forall (x : tensor R) (eps : R) idx,
    (0 < eps)%R -> (0 <= get 0%R (tmap (fun a => Rmax a eps) x) idx)%R.
Proof.
  intros x eps idx Heps. unfold get, tmap. simpl.
  destruct (nth_in_or_default (flat_index (shape x) idx)
              (map (fun a => Rmax a eps) (data x)) 0%R) as [Hin|Hd].
  - apply in_map_iff in Hin. destruct Hin as [a [<- _]].
    pose proof (Rmax_r a eps). lra.
  - rewrite Hd. lra.
Qed.

Section ForwardMasks.
Local Open Scope R_scope.

Variable update_pdf :
  MaskEstimatorGSS.t R -> tensor (R * R) -> tensor R -> tensor R -> result (tensor R * tensor R).
(** The log-pdf that [update_pdf] returns has the shape of the masks. *)
Hypothesis update_pdf_shape :
  forall self z gamma zH r,
    update_pdf self z gamma zH = Ok r -> shape (fst r) = shape gamma.

Variable self : MaskEstimatorGSS.t R.
Variable activity : tensor R.
Variables B M Fq T : nat.
Hypothesis activity_shape : shape activity = [B; M; T].
Hypothesis several_sources : (0 < M)%nat.
Hypothesis eps_pos : 0 < MaskEstimatorGSS.eps self.
Hypothesis activity_nonneg :
  forall b m t, (b < B)%nat -> (m < M)%nat -> (t < T)%nat -> 0 <= get 0 activity [b; m; t].

(** What one mask update gives: the masks [gamma], normalized from the
    weighted masks [g] of that update. *)
Let normalized (gamma : tensor R) : Prop :=
  exists alpha log_pdf g,
    MaskEstimatorGSS.update_masks exp self alpha activity log_pdf = Ok gamma /\
    MaskEstimatorGSS.weighted_pdf exp alpha activity log_pdf = Ok g /\
    forall b f t, (b < B)%nat -> (f < Fq)%nat -> (t < T)%nat ->
      0 <= sum_upto M (fun m => get 0 g [b; m; f; t]) /\
      sum_upto M (fun m => get 0 gamma [b; m; f; t])
      = sum_upto M (fun m => get 0 g [b; m; f; t])
        / (sum_upto M (fun m => get 0 g [b; m; f; t]) + MaskEstimatorGSS.eps self) /\
      1 - sum_upto M (fun m => get 0 gamma [b; m; f; t])
      = MaskEstimatorGSS.eps self
        / (sum_upto M (fun m => get 0 g [b; m; f; t]) + MaskEstimatorGSS.eps self) /\
      0 <= sum_upto M (fun m => get 0 gamma [b; m; f; t]) < 1.

Lemma initial_masks_nonneg :
  exists gamma0,
    MaskEstimatorGSS.initial_masks self activity Fq = Ok gamma0 /\
    nonneg_masks B M Fq T gamma0.
Proof.
  unfold MaskEstimatorGSS.initial_masks. rewrite shape_tmap, activity_shape.
  rewrite broadcast2_expand_r
    by (rewrite shape_tab, shape_tmap, activity_shape; apply expandable_middle3).
  cbn [bind]. rewrite shape_tmap, activity_shape.
  eexists. split; [reflexivity|]. split; [reflexivity|].
  intros b m f t Hb Hm Hf Ht.
  rewrite get_tab by (apply in_range4; assumption).
  rewrite get_tab by (apply in_range3; assumption).
  real_ops. apply Rdiv_nonneg; [apply get_clamped_nonneg; exact eps_pos|].
  rewrite shape_tab. cbn [bidx].
  rewrite ?(bsel_lt Hb), ?(bsel_lt Ht), ?Nat.eqb_refl.
  rewrite get_tab by (apply in_range3; try assumption; lia).
  apply sum_upto_nonneg. intros k Hk. apply get_clamped_nonneg. exact eps_pos.
Qed.

Lemma update_weights_nonneg :
  forall gamma,
    nonneg_masks B M Fq T gamma ->
    exists alpha,
      MaskEstimatorGSS.update_weights gamma = Ok alpha /\
      shape alpha = [B; M; Fq] /\
      forall b m f, (b < B)%nat -> (m < M)%nat -> (f < Fq)%nat -> 0 <= get 0 alpha [b; m; f].
Proof.
  intros gamma [Hs Hpos]. unfold MaskEstimatorGSS.update_weights. rewrite Hs.
  eexists. split; [reflexivity|]. split; [reflexivity|].
  intros b m f Hb Hm Hf.
  rewrite get_tab by (apply in_range3; assumption).
  real_ops. apply Rdiv_nonneg; [|apply pos_INR].
  apply sum_upto_nonneg. intros t Ht. apply Hpos; assumption.
Qed.

Lemma em_iteration_normalized :
  forall z st st',
    nonneg_masks B M Fq T (fst st) ->
    MaskEstimatorGSS.em_iteration exp update_pdf self z activity st = Ok st' ->
    nonneg_masks B M Fq T (fst st') /\ normalized (fst st').
Proof.
  intros z st st' Hinv. unfold MaskEstimatorGSS.em_iteration.
  destruct (update_weights_nonneg Hinv) as [alpha [Hw [Hsa Hpa]]].
  rewrite Hw. cbn [bind].
  destruct (update_pdf self z (fst st) (snd st)) as [r|e] eqn:Er; cbn [bind]; [|discriminate].
  assert (Hlp : shape (fst r) = [B; M; Fq; T]).
  { rewrite (update_pdf_shape Er). exact (proj1 Hinv). }
  destruct (@update_masks_normalized self alpha activity (fst r) B M Fq T
              Hsa activity_shape Hlp several_sources eps_pos Hpa activity_nonneg)
    as [g [gamma [Hg [Hu [Hsg [Hpg Hsum]]]]]].
  rewrite Hu. cbn [bind]. intro H. injection H as H. subst st'. cbn [fst].
  split; [split; assumption|].
  exists alpha, (fst r), g. auto.
Qed.

Lemma em_iterations_normalized :
  forall n z st st',
    nonneg_masks B M Fq T (fst st) ->
    MaskEstimatorGSS.em_iterations exp update_pdf self z activity (S n) st = Ok st' ->
    normalized (fst st').
Proof.
  induction n as [|n IH]; intros z st st' Hinv H.
  - simpl in H.
    destruct (MaskEstimatorGSS.em_iteration exp update_pdf self z activity st)
      as [st1|e] eqn:E; simpl in H; [|discriminate].
    injection H as H. subst st'. exact (proj2 (em_iteration_normalized z st Hinv E)).
  - change (MaskEstimatorGSS.em_iterations exp update_pdf self z activity (S (S n)) st)
      with (st1 <- MaskEstimatorGSS.em_iteration exp update_pdf self z activity st ;;
            MaskEstimatorGSS.em_iterations exp update_pdf self z activity (S n) st1) in H.
    destruct (MaskEstimatorGSS.em_iteration exp update_pdf self z activity st)
      as [st1|e] eqn:E; simpl bind in H; [|discriminate].
    eapply IH; [|exact H]. exact (proj1 (em_iteration_normalized z st Hinv E)).
Qed.

Lemma em_iteration_returns :
  forall z st r,
    nonneg_masks B M Fq T (fst st) ->
    update_pdf self z (fst st) (snd st) = Ok r ->
    exists gamma,
      MaskEstimatorGSS.em_iteration exp update_pdf self z activity st = Ok (gamma, snd r) /\
      nonneg_masks B M Fq T gamma.
Proof.
  intros z st r Hinv Er. unfold MaskEstimatorGSS.em_iteration.
  destruct (update_weights_nonneg Hinv) as [alpha [Hw [Hsa Hpa]]].
  rewrite Hw. cbn [bind]. rewrite Er. cbn [bind].
  assert (Hlp : shape (fst r) = [B; M; Fq; T]).
  { rewrite (update_pdf_shape Er). exact (proj1 Hinv). }
  destruct (@update_masks_normalized self alpha activity (fst r) B M Fq T
              Hsa activity_shape Hlp several_sources eps_pos Hpa activity_nonneg)
    as [g [gamma [Hg [Hu [Hsg [Hpg Hsum]]]]]].
  rewrite Hu. cbn [bind]. exists gamma. split; [reflexivity|]. split; assumption.
Qed.

(** C1 (as the code has it): for an input of shape (B, C, F, T) and a
    non-negative activity of shape (B, M, T), with eps > 0 and at least one
    EM iteration, the masks that [forward] returns come from a mask update
    that normalizes across the sources with an eps-regularized denominator.
    With s(b, f, t) the sum over the sources of the weighted masks
    alpha * exp(log_pdf - max log_pdf) * activity of that update, the sum
    over m of gamma(b, m, f, t) is s / (s + eps): it lies in [0, 1) and falls
    short of 1 by eps / (s + eps).  The number of iterations is arbitrary, so
    this holds after each iteration. *)
Theorem forward_masks_sum_over_sources :
  forall (input : dtensor (R * R)) (C : nat) (gamma : tensor R),
    shape (values input) = [B; C; Fq; T] ->
    (1 <= MaskEstimatorGSS.num_iterations self)%Z ->
    MaskEstimatorGSS.forward exp update_pdf self input activity = Ok gamma ->
    exists alpha log_pdf g,
      MaskEstimatorGSS.update_masks exp self alpha activity log_pdf = Ok gamma /\
      MaskEstimatorGSS.weighted_pdf exp alpha activity log_pdf = Ok g /\
      forall b f t, (b < B)%nat -> (f < Fq)%nat -> (t < T)%nat ->
        0 <= sum_upto M (fun m => get 0 g [b; m; f; t]) /\
        sum_upto M (fun m => get 0 gamma [b; m; f; t])
        = sum_upto M (fun m => get 0 g [b; m; f; t])
          / (sum_upto M (fun m => get 0 g [b; m; f; t]) + MaskEstimatorGSS.eps self) /\
        1 - sum_upto M (fun m => get 0 gamma [b; m; f; t])
        = MaskEstimatorGSS.eps self
          / (sum_upto M (fun m => get 0 g [b; m; f; t]) + MaskEstimatorGSS.eps self) /\
        0 <= sum_upto M (fun m => get 0 gamma [b; m; f; t]) < 1.
Proof.
  intros input C gamma Hin Hn. rewrite forward_check.
  destruct (MaskEstimatorGSS.estimate exp update_pdf self input activity)
    as [gamma'|e] eqn:E; [|discriminate].
  destruct (existsb fisnan (data gamma')); [discriminate|].
  intro H. injection H as H. subst gamma'.
  revert E. unfold MaskEstimatorGSS.estimate. rewrite Hin, activity_shape.
  destruct (assert _ _) as [u|e]; cbn [bind]; [|discriminate].
  destruct (assert _ _) as [u'|e]; cbn [bind]; [|discriminate].
  destruct (assert _ _) as [u''|e]; cbn [bind]; [|discriminate].
  destruct (MaskEstimatorGSS.normalize _ _) as [z|e]; cbn [bind]; [|discriminate].
  destruct initial_masks_nonneg as [gamma0 [H0 Hinv]]. rewrite H0. cbn [bind].
  destruct (Z.to_nat (MaskEstimatorGSS.num_iterations self)) as [|n] eqn:En; [lia|].
  destruct (MaskEstimatorGSS.em_iterations _ _ _ _ _ _ _) as [st|e] eqn:Eit;
    cbn [bind]; [|discriminate].
  intro H. injection H as H. subst gamma.
  exact (em_iterations_normalized n z (gamma0, _) Hinv Eit).
Qed.

End ForwardMasks.

Lemma example_entries_nonneg :
  forall (x : tensor R) (v0 v1 : R),
    x = mkTensor [1; 2; 1] [v0; v1] -> (0 <= v0)%R -> (0 <= v1)%R ->
    forall b m k, b < 1 -> m < 2 -> k < 1 -> (0 <= get 0%R x [b; m; k])%R.
Proof.
  intros x v0 v1 -> H0 H1 b m k Hb Hm Hk.
  assert (b = 0) by lia. assert (k = 0) by lia. subst b k.
  destruct m as [|[|m]]; [exact H0 | exact H1 | lia].
Qed.

Lemma normalize_returns :
  forall (self : MaskEstimatorGSS.t R) (x : tensor (R * R)) B C Fq T,
    shape x = [B; C; Fq; T] -> exists z, MaskEstimatorGSS.normalize self x = Ok z.
Proof.
  intros self x B C Fq T Hs. unfold MaskEstimatorGSS.normalize. rewrite Hs.
  rewrite broadcast2_expand_r by (rewrite shape_tab, Hs; apply expandable_channel).
  eexists. reflexivity.
Qed.

Lemma echo_update_pdf_shape :
  forall self z gamma zH r,
    Examples.echo_update_pdf self z gamma zH = Ok r -> shape (fst r) = shape gamma.
Proof. intros self z gamma zH r H. injection H as <-. reflexivity. Qed.

Lemma echo_iterations_return :
  forall (self : MaskEstimatorGSS.t R) (activity : tensor R) (B M Fq T : nat),
    shape activity = [B; M; T] -> 0 < M ->
    (0 < MaskEstimatorGSS.eps self)%R ->
    (forall b m t, b < B -> m < M -> t < T -> (0 <= get 0%R activity [b; m; t])%R) ->
    forall n z st,
      nonneg_masks B M Fq T (fst st) ->
      exists st',
        MaskEstimatorGSS.em_iterations exp Examples.echo_update_pdf self z activity n st = Ok st'.
Proof.
  intros self activity B M Fq T Hact HM Heps Hpos.
  induction n as [|n IH]; intros z st Hinv; simpl.
  - eexists. reflexivity.
  - destruct (@em_iteration_returns Examples.echo_update_pdf echo_update_pdf_shape
                self activity B M Fq T Hact HM Heps Hpos z st (fst st, snd st) Hinv eq_refl)
      as [gamma [Hit Hinv']].
    rewrite Hit. cbn [bind]. apply IH. exact Hinv'.
Qed.

(** With the stand-in for [update_pdf], [forward] returns masks. *)
Lemma echo_forward_returns :
  forall (self : MaskEstimatorGSS.t R) (input : dtensor (R * R)) (activity : tensor R)
         (B C M Fq T : nat),
    shape (values input) = [B; C; Fq; T] -> shape activity = [B; M; T] -> 1 < M ->
    dtype_is_complex (MaskEstimatorGSS.dtype_ self) = true ->
    (0 < MaskEstimatorGSS.eps self)%R ->
    (forall b m t, b < B -> m < M -> t < T -> (0 <= get 0%R activity [b; m; t])%R) ->
    exists gamma,
      MaskEstimatorGSS.forward exp Examples.echo_update_pdf self input activity = Ok gamma.
Proof.
  intros self input activity B C M Fq T Hin Hact HM Hc Heps Hpos.
  rewrite forward_check. unfold MaskEstimatorGSS.estimate.
  rewrite Hin, Hact. cbn [last].
  rewrite !Nat.eqb_refl, (proj2 (Nat.ltb_lt 1 M) HM), converted_input_is_complex by exact Hc.
  cbn [andb assert bind].
  unfold to_dtype. rewrite Hc. cbn [values].
  destruct (normalize_returns self (values input) Hin) as [z Hz].
  rewrite Hz. cbn [bind].
  destruct (@initial_masks_nonneg self activity B M Fq T Hact ltac:(lia) Heps)
    as [gamma0 [H0 Hinv]].
  rewrite H0. cbn [bind].
  destruct (@echo_iterations_return self activity B M Fq T Hact ltac:(lia) Heps Hpos
              (Z.to_nat (MaskEstimatorGSS.num_iterations self)) z
              (gamma0, tab [B; M; Fq; T] (fun _ => fone)) Hinv) as [st Hst].
  rewrite Hst. cbn [bind]. exists (fst st).
  replace (existsb fisnan (data (fst st))) with false; [reflexivity|].
  symmetry. induction (data (fst st)); simpl; auto.
Qed.

Lemma forward_masks_sum_witness :
  exists gamma alpha log_pdf g,
    MaskEstimatorGSS.forward exp Examples.echo_update_pdf Examples.gss1 Examples.gss_input
      Examples.full_activity = Ok gamma /\
    MaskEstimatorGSS.update_masks exp Examples.gss1 alpha Examples.full_activity log_pdf
      = Ok gamma /\
    MaskEstimatorGSS.weighted_pdf exp alpha Examples.full_activity log_pdf = Ok g /\
    forall b f t, b < 1 -> f < 1 -> t < 1 ->
      (0 <= sum_upto 2 (fun m => get 0 g [b; m; f; t]))%R /\
      sum_upto 2 (fun m => get 0%R gamma [b; m; f; t])
      = (sum_upto 2 (fun m => get 0 g [b; m; f; t])
         / (sum_upto 2 (fun m => get 0 g [b; m; f; t])
            + MaskEstimatorGSS.eps Examples.gss1))%R /\
      (1 - sum_upto 2 (fun m => get 0 gamma [b; m; f; t])
       = MaskEstimatorGSS.eps Examples.gss1
         / (sum_upto 2 (fun m => get 0 g [b; m; f; t])
            + MaskEstimatorGSS.eps Examples.gss1))%R /\
      (0 <= sum_upto 2 (fun m => get 0 gamma [b; m; f; t]) < 1)%R.
Proof.
  destruct (@echo_forward_returns Examples.gss1 Examples.gss_input Examples.full_activity
              1 1 2 1 1 eq_refl eq_refl ltac:(lia) eq_refl
              ltac:(simpl; unfold Examples.small_eps; lra)
              (@example_entries_nonneg Examples.full_activity 1%R 1%R eq_refl
                 ltac:(lra) ltac:(lra)))
    as [gamma Hf].
  destruct (@forward_masks_sum_over_sources Examples.echo_update_pdf echo_update_pdf_shape
              Examples.gss1 Examples.full_activity 1 2 1 1 eq_refl
              ltac:(lia)
              ltac:(simpl; unfold Examples.small_eps; lra)
              (@example_entries_nonneg Examples.full_activity 1%R 1%R eq_refl
                 ltac:(lra) ltac:(lra))
              Examples.gss_input 1 gamma eq_refl ltac:(simpl; lia) Hf)
    as [alpha [log_pdf [g [Hu [Hg Hsum]]]]].
  exists gamma, alpha, log_pdf, g. split; [exact Hf|]. split; [exact Hu|].
  split; [exact Hg | exact Hsum].
Defined.

(** ** Frames without activity *)

Lemma broadcast2_inv :
  forall (A B C : Type) (dA : A) (dB : B) (f : A -> B -> C) x y z,
    broadcast2 dA dB f x y = Ok z ->
    exists s rank, z = tab s (fun idx => f (bget dA x rank idx) (bget dB y rank idx)).
Proof.
  intros A B C dA dB f x y z H. unfold broadcast2 in H.
  destruct (broadcast_shapes _ _) as [s|]; [|discriminate].
  injection H as <-. eauto.
Qed.

Section ZeroActivity.
Local Open Scope R_scope.

Lemma all_zero_get : forall x idx, all_zero x -> get 0 x idx = 0.
Proof.
  intros x idx H. unfold get.
  destruct (nth_in_or_default (flat_index (shape x) idx) (data x) 0) as [Hin|Hd];
    [apply H; exact Hin | exact Hd].
Qed.

Lemma all_zero_bget : forall x rank idx, all_zero x -> bget 0 x rank idx = 0.
Proof. intros. unfold bget. apply all_zero_get. assumption. Qed.

Lemma all_zero_tab : forall s f, (forall idx, f idx = 0) -> all_zero (tab s f).
Proof.
  intros s f H v Hin. unfold tab in Hin. simpl in Hin.
  apply in_map_iff in Hin. destruct Hin as [idx [<- _]]. apply H.
Qed.

(** Where no source is active the updated masks are all zero. *)
Lemma update_masks_without_activity :
  forall (self : MaskEstimatorGSS.t R) (alpha activity log_pdf gamma : tensor R),
    all_zero activity ->
    MaskEstimatorGSS.update_masks exp self alpha activity log_pdf = Ok gamma ->
    all_zero gamma.
Proof.
  intros self alpha activity log_pdf gamma Hact.
  unfold MaskEstimatorGSS.update_masks, MaskEstimatorGSS.weighted_pdf.
  destruct (MaskEstimatorGSS.max_sources log_pdf) as [mx|e]; cbn [bind]; [|discriminate].
  destruct (broadcast2 _ _ _ log_pdf mx) as [g0|e]; cbn [bind]; [|discriminate].
  destruct (reshape _ alpha) as [a|e]; cbn [bind]; [|discriminate].
  destruct (reshape _ activity) as [act|e] eqn:Eact; cbn [bind]; [|discriminate].
  assert (Hact' : all_zero act).
  { unfold reshape in Eact. destruct (_ =? _)%nat; [|discriminate].
    injection Eact as <-. exact Hact. }
  destruct (broadcast2 _ _ _ a _) as [g1|e]; cbn [bind]; [|discriminate].
  destruct (broadcast2 _ _ _ g1 act) as [g|e] eqn:Eg; cbn [bind]; [|discriminate].
  assert (Hg : all_zero g).
  { apply broadcast2_inv in Eg. destruct Eg as [s [rank ->]].
    apply all_zero_tab. intros idx. real_ops.
    rewrite (@all_zero_bget act rank idx Hact'). ring. }
  unfold MaskEstimatorGSS.normalize_sources.
  destruct (MaskEstimatorGSS.sum_sources g) as [sm|e]; cbn [bind]; [|discriminate].
  intro H. apply broadcast2_inv in H. destruct H as [s [rank ->]].
  apply all_zero_tab. intros idx. real_ops.
  rewrite (@all_zero_bget g rank idx Hg). unfold Rdiv. ring.
Qed.

Lemma sum_upto_zero : forall n f, (forall k, f k = 0) -> sum_upto n f = 0.
Proof.
  intros n f H. unfold sum_upto. induction (seq 0 n) as [|k l IH]; simpl; [reflexivity|].
  rewrite H, IH. ring.
Qed.

Lemma no_activity_all_zero : all_zero Examples.no_activity.
Proof. intros v [<-|[<-|[]]]; reflexivity. Qed.

End ZeroActivity.

(** C1 as stated fails: with two sources that are both inactive in a frame,
    a mask update gives masks that sum to 0 there, not to 1 within eps; and
    whatever the backend returns for the log-pdf, the masks that [forward]
    returns for this activity sum to 0. *)
Lemma masks_without_activity_sum_to_zero :
  (exists gamma,
     MaskEstimatorGSS.update_masks exp Examples.gss1 Examples.equal_weights
       Examples.no_activity Examples.equal_log_pdf = Ok gamma /\
     shape gamma = [1; 2; 1; 1] /\
     sum_upto 2 (fun m => get 0%R gamma [0; m; 0; 0]) = 0%R) /\
  (forall update_pdf input gamma,
     MaskEstimatorGSS.forward exp update_pdf Examples.gss1 input Examples.no_activity
       = Ok gamma ->
     sum_upto 2 (fun m => get 0%R gamma [0; m; 0; 0]) = 0%R) /\
  ~ (Rabs (0 - 1) <= MaskEstimatorGSS.eps Examples.gss1)%R.
Proof.
  split; [|split].
  - destruct (@weighted_pdf_entries Examples.equal_weights Examples.no_activity
                Examples.equal_log_pdf 1 1 1 1 eq_refl eq_refl eq_refl) as [g [Hg [Hsg _]]].
    destruct (@normalize_sources_entries Examples.gss1 g 1 2 1 1 Hsg) as [gamma [Hn [Hs _]]].
    assert (Hu : MaskEstimatorGSS.update_masks exp Examples.gss1 Examples.equal_weights
                   Examples.no_activity Examples.equal_log_pdf = Ok gamma).
    { unfold MaskEstimatorGSS.update_masks. rewrite Hg. cbn [bind]. exact Hn. }
    exists gamma. split; [exact Hu|]. split; [exact Hs|].
    apply sum_upto_zero. intros k. apply all_zero_get.
    eapply update_masks_without_activity; [apply no_activity_all_zero | exact Hu].
  - intros update_pdf input gamma H. rewrite forward_check in H.
    destruct (MaskEstimatorGSS.estimate exp update_pdf Examples.gss1 input Examples.no_activity)
      as [gamma'|e] eqn:E; [|discriminate].
    destruct (existsb fisnan (data gamma')); [discriminate|].
    injection H as <-.
    destruct (@estimate_last_update R R_numeric exp update_pdf Examples.gss1 input
                Examples.no_activity gamma' ltac:(simpl; lia) E) as [alpha [lp Hu]].
    apply sum_upto_zero. intros k. apply all_zero_get.
    eapply update_masks_without_activity; [apply no_activity_all_zero | exact Hu].
  - simpl. unfold Examples.small_eps, Rabs.
    destruct (Rcase_abs (0 - 1)); lra.
Qed.


(** ** MaskEstimatorGSS.forward: the check of the masks *)

Section MaskCheckProofs.
Context {F : Type} {num : Numeric F}.
Variable fexp : F -> F.
Variable update_pdf :
  MaskEstimatorGSS.t F -> tensor (F * F) -> tensor F -> tensor F -> result (tensor F * tensor F).

(** C3 (as the code has it): when the EM iterations have produced the masks
    [gamma], [forward] raises its error exactly when an entry of [gamma] is
    a NaN, and returns [gamma] when no entry is; the error goes to the
    caller, nothing is tried again. *)
Theorem forward_raises_iff_nan :
  forall self input activity gamma,
    MaskEstimatorGSS.estimate fexp update_pdf self input activity = Ok gamma ->
    (MaskEstimatorGSS.forward fexp update_pdf self input activity
       = Err (RuntimeError "gamma contains NaNs")
     <-> exists v, In v (data gamma) /\ fisnan v = true) /\
    ((forall v, In v (data gamma) -> fisnan v = false) ->
     MaskEstimatorGSS.forward fexp update_pdf self input activity = Ok gamma).
Proof.
  intros self input activity gamma H.
  unfold MaskEstimatorGSS.forward, MaskEstimatorGSS.check_gamma, tany.
  rewrite H. cbn [bind].
  destruct (existsb fisnan (data gamma)) eqn:E.
  - apply existsb_exists in E. split.
    + split; [intros _; exact E | reflexivity].
    + intros Hno. destruct E as [v [Hin Hv]]. rewrite (Hno v Hin) in Hv. discriminate.
  - split.
    + split; [discriminate|].
      intros Hex. apply existsb_exists in Hex. congruence.
    + reflexivity.
Qed.

End MaskCheckProofs.

Lemma forward_raises_iff_nan_witness :
  MaskEstimatorGSS.estimate (fun x => x) Examples.no_update_pdf Examples.gss_float0
    Examples.float_input Examples.float_activity = Ok Examples.half_masks /\
  MaskEstimatorGSS.forward (fun x => x) Examples.no_update_pdf Examples.gss_float0
    Examples.float_input Examples.float_activity = Ok Examples.half_masks.
Proof.
  assert (H : MaskEstimatorGSS.estimate (fun x => x) Examples.no_update_pdf Examples.gss_float0
                Examples.float_input Examples.float_activity = Ok Examples.half_masks)
    by (vm_compute; reflexivity).
  split; [exact H|].
  apply (proj2 (@forward_raises_iff_nan PrimFloat.float Binary64.float_numeric (fun x => x)
                  Examples.no_update_pdf Examples.gss_float0 Examples.float_input
                  Examples.float_activity Examples.half_masks H)).
  intros v [<-|[<-|[]]]; vm_compute; reflexivity.
Defined.

(** An activity with a NaN makes [forward] raise. *)
Example forward_nan_activity_raises :
  MaskEstimatorGSS.forward (fun x => x) Examples.no_update_pdf Examples.gss_float0
    Examples.float_input Examples.nan_activity = Err (RuntimeError "gamma contains NaNs").
Proof. vm_compute. reflexivity. Qed.

(** C3 as stated fails: masks with infinite entries and no NaN pass the
    check.  In binary64, with eps = 2^-27, the normalization of the weighted
    masks (-2^-28, -2^-28) divides by zero and gives (-inf, -inf), which the
    check returns. *)
Lemma infinite_masks_are_returned :
  MaskEstimatorGSS.normalize_sources Examples.gss_float Examples.negative_weighted
    = Ok Examples.infinite_masks /\
  tany (fun v => negb (PrimFloat.is_finite v)) Examples.infinite_masks = true /\
  MaskEstimatorGSS.check_gamma Examples.infinite_masks = Ok Examples.infinite_masks.
Proof. repeat split; vm_compute; reflexivity. Qed.

(** * Further properties of the modules *)

(** ** SpectrogramToMultichannelFeatures *)

Lemma expandable_refl : forall s, expandable s s = true.
Proof. induction s as [|n s IH]; simpl; [reflexivity|]. now rewrite Nat.eqb_refl, IH. Qed.

Lemma magnitude_shape :
  forall (self : Features.t) (input : tensor complex) B C F N,
    known_reduction (Features.mag_reduction self) ->
    shape input = [B; C; F; N] ->
    exists mag,
      Features.magnitude self input = Ok mag /\
      shape mag = [B; match Features.mag_reduction self with None => C | Some _ => 1 end; F; N].
Proof.
  intros self input B C F N Hred Hs. unfold Features.magnitude.
  destruct Hred as [H|[H|[H|H]]]; rewrite H; cbn [String.eqb Ascii.eqb Bool.eqb].
  - eexists. split; [reflexivity|]. rewrite shape_tmap. exact Hs.
  - unfold Cmean_channels_keep. rewrite Hs. cbn [bind].
    eexists. split; [reflexivity|]. reflexivity.
  - unfold mean_channels_keep. rewrite shape_tmap, Hs.
    eexists. split; [reflexivity|]. reflexivity.
  - unfold mean_channels_keep. rewrite shape_tmap, Hs. cbn [bind].
    eexists. split; [reflexivity|]. reflexivity.
Qed.

Lemma features_init_inv :
  forall ns nic red use_ipd self,
    Features.init ns nic red use_ipd None None = Ok self ->
    self = Features.mk red use_ipd (if use_ipd then (2 * ns)%Z else ns)
             (if use_ipd then nic
              else match red with None => nic | Some _ => Some 1%Z end).
Proof.
  intros ns nic red use_ipd self H. unfold Features.init in H.
  apply (f_equal (fun r => match r with Ok s => s | Err _ => self end)) in H.
  destruct use_ipd; cbv beta iota in H; symmetry; exact H.
Qed.

Section FeaturesProofs.
Variable angle : complex -> R.
Variable wrap_to_pi : R -> R.

(** X3: a feature extractor constructed for the channel and subband counts
    of its input, with one of the four magnitude reductions, returns
    features whose channel and feature counts are the configured
    [num_channels] and [num_features], and the lengths unchanged. *)
Theorem features_have_configured_shape :
  forall red use_ipd self (input : tensor complex) (input_length : tensor Z) (B C F N : nat),
    Features.init (Z.of_nat F) (Some (Z.of_nat C)) red use_ipd None None = Ok self ->
    known_reduction red ->
    shape input = [B; C; F; N] ->
    exists features c,
      Features.forward angle wrap_to_pi self input input_length = Ok (features, input_length) /\
      Features.num_channels self = Ok (Z.of_nat c) /\
      shape features = [B; c; Z.to_nat (Features.num_features self); N].
Proof.
  intros red use_ipd self input input_length B C F N Hinit Hred Hs.
  apply features_init_inv in Hinit. subst self.
  destruct (@magnitude_shape (Features.mk red use_ipd
                                (if use_ipd then (2 * Z.of_nat F)%Z else Z.of_nat F)
                                (if use_ipd then Some (Z.of_nat C)
                                 else match red with
                                      | None => Some (Z.of_nat C)
                                      | Some _ => Some 1%Z
                                      end))
              input B C F N Hred Hs) as [mag [Hmag Hsm]].
  cbn [Features.mag_reduction] in Hsm.
  unfold Features.forward, Features.num_channels, Features.num_features.
  rewrite Hmag. cbn [bind Features.use_ipd Features._num_channels Features._num_features].
  destruct use_ipd.
  - (* with IPD *)
    unfold Cmean_channels_keep. rewrite Hs. cbn [bind].
    rewrite broadcast2_expand_r
      by (rewrite !shape_tmap, shape_tab, Hs; apply expandable_channel).
    cbn [bind]. rewrite !shape_tmap, shape_tab, Hs.
    unfold expand. rewrite Hsm.
    replace (expandable [B; match red with None => C | Some _ => 1 end; F; N] [B; C; F; N])
      with true
      by (destruct red; [symmetry; apply expandable_channel | symmetry; apply expandable_refl]).
    cbn [bind]. unfold cat_features. rewrite shape_tab, shape_tmap, shape_tab.
    rewrite !Nat.eqb_refl. cbn [andb bind].
    rewrite shape_tab, Z.eqb_refl. cbn [negb].
    eexists. exists C. split; [reflexivity|]. split; [reflexivity|].
    rewrite shape_tab. do 2 f_equal. f_equal. lia.
  - (* magnitude only *)
    cbn [bind]. rewrite Hsm.
    exists mag, (match red with None => C | Some _ => 1 end).
    destruct red; rewrite Z.eqb_refl; cbn [negb]; rewrite Nat2Z.id; auto.
Qed.

End FeaturesProofs.

Section FeaturesErrors.
Variable angle : complex -> R.
Variable wrap_to_pi : R -> R.

(** X4: the constructor accepts any magnitude reduction; a module built
    with one that [forward] does not know raises a ValueError on every
    input, before the input is looked at. *)
Theorem features_unknown_reduction_fails_in_forward :
  forall (ns : Z) (nic : option Z) (r : string) (use_ipd : bool)
         (input : tensor complex) (input_length : tensor Z),
    r <> "abs_mean"%string -> r <> "mean_abs"%string -> r <> "rms"%string ->
    exists self,
      Features.init ns nic (Some r) use_ipd None None = Ok self /\
      Features.forward angle wrap_to_pi self input input_length
        = Err (ValueError "Unexpected magnitude reduction").
Proof.
  intros ns nic r use_ipd input input_length H1 H2 H3.
  apply String.eqb_neq in H1, H2, H3.
  unfold Features.init.
  destruct use_ipd; eexists; (split; [reflexivity|]);
    unfold Features.forward, Features.magnitude; cbn [Features.mag_reduction];
    rewrite H1, H2, H3; reflexivity.
Qed.

(** X5: when the magnitude is not reduced or the IPD is used, an input whose
    channel count differs from the configured one is refused. *)
Theorem features_channel_mismatch_raises :
  forall red use_ipd nic self (input : tensor complex) (input_length : tensor Z)
         (B C F N : nat),
    Features.init (Z.of_nat F) (Some nic) red use_ipd None None = Ok self ->
    known_reduction red ->
    use_ipd = true \/ red = None ->
    shape input = [B; C; F; N] ->
    Z.of_nat C <> nic ->
    Features.forward angle wrap_to_pi self input input_length
      = Err (RuntimeError
               "Number of channels in features is different than the configured number of channels").
Proof.
  intros red use_ipd nic self input input_length B C F N Hinit Hred Hmode Hs Hne.
  apply features_init_inv in Hinit. subst self.
  destruct (@magnitude_shape (Features.mk red use_ipd
                                (if use_ipd then (2 * Z.of_nat F)%Z else Z.of_nat F)
                                (if use_ipd then Some nic
                                 else match red with
                                      | None => Some nic
                                      | Some _ => Some 1%Z
                                      end))
              input B C F N Hred Hs) as [mag [Hmag Hsm]].
  cbn [Features.mag_reduction] in Hsm.
  apply Z.eqb_neq in Hne.
  unfold Features.forward.
  rewrite Hmag. cbn [bind Features.use_ipd Features._num_channels].
  destruct use_ipd.
  - unfold Cmean_channels_keep. rewrite Hs. cbn [bind].
    rewrite broadcast2_expand_r
      by (rewrite !shape_tmap, shape_tab, Hs; apply expandable_channel).
    cbn [bind]. rewrite !shape_tmap, shape_tab, Hs.
    unfold expand. rewrite Hsm.
    replace (expandable [B; match red with None => C | Some _ => 1 end; F; N] [B; C; F; N])
      with true
      by (destruct red; [symmetry; apply expandable_channel | symmetry; apply expandable_refl]).
    cbn [bind]. unfold cat_features. rewrite shape_tab, shape_tmap, shape_tab.
    rewrite !Nat.eqb_refl. cbn [andb bind].
    rewrite shape_tab, Hne. reflexivity.
  - destruct Hmode as [Hm|Hm]; [discriminate|]. subst red.
    cbn [bind]. rewrite Hsm, Hne. reflexivity.
Qed.

(** X6: when the magnitude is reduced and the IPD is not used, the
    configured number of channels is 1 whatever [num_input_channels] says,
    and an input with any number of channels is accepted: the features have
    one channel. *)
Theorem features_reduced_ignores_channel_count :
  forall (r : string) (nic : option Z) self (input : tensor complex)
         (input_length : tensor Z) (B C F N : nat),
    Features.init (Z.of_nat F) nic (Some r) false None None = Ok self ->
    known_reduction (Some r) ->
    shape input = [B; C; F; N] ->
    Features.num_channels self = Ok 1%Z /\
    exists features,
      Features.forward angle wrap_to_pi self input input_length = Ok (features, input_length) /\
      shape features = [B; 1; F; N].
Proof.
  intros r nic self input input_length B C F N Hinit Hred Hs.
  apply features_init_inv in Hinit. subst self.
  destruct (@magnitude_shape (Features.mk (Some r) false (Z.of_nat F) (Some 1%Z))
              input B C F N Hred Hs) as [mag [Hmag Hsm]].
  cbn [Features.mag_reduction] in Hsm.
  split; [reflexivity|].
  unfold Features.forward.
  rewrite Hmag. cbn [bind Features.use_ipd Features._num_channels].
  rewrite Hsm. cbn [Z.of_nat Pos.of_succ_nat Z.eqb Pos.eqb negb].
  exists mag. split; [reflexivity | exact Hsm].
Qed.

(** X7: an extractor constructed without [num_input_channels] that keeps
    the channels (no magnitude reduction, or IPD) has no configured number
    of channels: the property [num_channels] raises a ValueError, while
    [forward] accepts an input with any number of channels and keeps
    them. *)
Theorem features_unconfigured_channels :
  forall red use_ipd self (input : tensor complex) (input_length : tensor Z) (B C F N : nat),
    Features.init (Z.of_nat F) None red use_ipd None None = Ok self ->
    known_reduction red ->
    use_ipd = true \/ red = None ->
    shape input = [B; C; F; N] ->
    Features.num_channels self = Err (ValueError "Num channels is not configured.") /\
    exists features,
      Features.forward angle wrap_to_pi self input input_length = Ok (features, input_length) /\
      shape features = [B; C; Z.to_nat (Features.num_features self); N].
Proof.
  intros red use_ipd self input input_length B C F N Hinit Hred Hmode Hs.
  apply features_init_inv in Hinit. subst self.
  destruct (@magnitude_shape (Features.mk red use_ipd
                                (if use_ipd then (2 * Z.of_nat F)%Z else Z.of_nat F)
                                (if use_ipd then None
                                 else match red with
                                      | None => None
                                      | Some _ => Some 1%Z
                                      end))
              input B C F N Hred Hs) as [mag [Hmag Hsm]].
  cbn [Features.mag_reduction] in Hsm.
  unfold Features.forward, Features.num_channels, Features.num_features.
  rewrite Hmag. cbn [bind Features.use_ipd Features._num_channels Features._num_features].
  destruct use_ipd.
  - split; [reflexivity|].
    unfold Cmean_channels_keep. rewrite Hs. cbn [bind].
    rewrite broadcast2_expand_r
      by (rewrite !shape_tmap, shape_tab, Hs; apply expandable_channel).
    cbn [bind]. rewrite !shape_tmap, shape_tab, Hs.
    unfold expand. rewrite Hsm.
    replace (expandable [B; match red with None => C | Some _ => 1 end; F; N] [B; C; F; N])
      with true
      by (destruct red; [symmetry; apply expandable_channel | symmetry; apply expandable_refl]).
    cbn [bind]. unfold cat_features. rewrite shape_tab, shape_tmap, shape_tab.
    rewrite !Nat.eqb_refl. cbn [andb bind].
    eexists. split; [reflexivity|].
    rewrite shape_tab. do 2 f_equal. f_equal. lia.
  - destruct Hmode as [Hm|Hm]; [discriminate|]. subst red.
    split; [reflexivity|]. cbn [bind].
    exists mag. split; [reflexivity|]. rewrite Hsm, Nat2Z.id. reflexivity.
Qed.

End FeaturesErrors.

Lemma features_have_configured_shape_witness :
  Features.init (Z.of_nat 1) (Some (Z.of_nat 2)) (Some "rms"%string) true None None
    = Ok MoreExamples.features_rms_ipd /\
  exists features c,
    Features.forward MoreExamples.angle0 MoreExamples.wrap0 MoreExamples.features_rms_ipd
      Examples.two_channels Examples.one_length = Ok (features, Examples.one_length) /\
    Features.num_channels MoreExamples.features_rms_ipd = Ok (Z.of_nat c) /\
    shape features = [1; c; Z.to_nat (Features.num_features MoreExamples.features_rms_ipd); 1].
Proof.
  split; [reflexivity|].
  apply (@features_have_configured_shape MoreExamples.angle0 MoreExamples.wrap0
           (Some "rms"%string) true MoreExamples.features_rms_ipd
           Examples.two_channels Examples.one_length 1 2 1 1 eq_refl);
    [right; right; right; reflexivity | reflexivity].
Defined.

Lemma features_unknown_reduction_witness :
  exists self,
    Features.init 1 None (Some "median"%string) false None None = Ok self /\
    Features.forward MoreExamples.angle0 MoreExamples.wrap0 self
      Examples.two_channels Examples.one_length
      = Err (ValueError "Unexpected magnitude reduction").
Proof.
  apply (@features_unknown_reduction_fails_in_forward MoreExamples.angle0 MoreExamples.wrap0
           1%Z None "median"%string false Examples.two_channels Examples.one_length);
    discriminate.
Defined.

Lemma features_channel_mismatch_witness :
  Features.init (Z.of_nat 1) (Some 3%Z) None false None None = Ok MoreExamples.features_none3 /\
  Features.forward MoreExamples.angle0 MoreExamples.wrap0 MoreExamples.features_none3
    Examples.two_channels Examples.one_length
    = Err (RuntimeError
             "Number of channels in features is different than the configured number of channels").
Proof.
  split; [reflexivity|].
  apply (@features_channel_mismatch_raises MoreExamples.angle0 MoreExamples.wrap0
           None false 3%Z MoreExamples.features_none3
           Examples.two_channels Examples.one_length 1 2 1 1 eq_refl);
    [left; reflexivity | right; reflexivity | reflexivity | simpl; lia].
Defined.

Lemma features_reduced_ignores_channel_count_witness :
  Features.init (Z.of_nat 1) (Some 5%Z) (Some "rms"%string) false None None
    = Ok MoreExamples.features_rms5 /\
  Features.num_channels MoreExamples.features_rms5 = Ok 1%Z /\
  exists features,
    Features.forward MoreExamples.angle0 MoreExamples.wrap0 MoreExamples.features_rms5
      Examples.two_channels Examples.one_length = Ok (features, Examples.one_length) /\
    shape features = [1; 1; 1; 1].
Proof.
  split; [reflexivity|].
  apply (@features_reduced_ignores_channel_count MoreExamples.angle0 MoreExamples.wrap0
           "rms"%string (Some 5%Z) MoreExamples.features_rms5
           Examples.two_channels Examples.one_length 1 2 1 1 eq_refl);
    [right; right; right; reflexivity | reflexivity].
Defined.

Lemma features_unconfigured_channels_witness :
  Features.num_channels MoreExamples.features_unconfigured
    = Err (ValueError "Num channels is not configured.") /\
  exists features,
    Features.forward MoreExamples.angle0 MoreExamples.wrap0 MoreExamples.features_unconfigured
      Examples.two_channels Examples.one_length = Ok (features, Examples.one_length) /\
    shape features
    = [1; 2; Z.to_nat (Features.num_features MoreExamples.features_unconfigured); 1].
Proof.
  apply (@features_unconfigured_channels MoreExamples.angle0 MoreExamples.wrap0
           None false MoreExamples.features_unconfigured Examples.two_channels
           Examples.one_length 1 2 1 1);
    [reflexivity | left; reflexivity | right; reflexivity | reflexivity].
Defined.

(** ** MaskReferenceChannel: a reference channel outside the input *)

(** X8: the reference channel is taken by the slice
    [ref_channel : ref_channel + 1], so [ref_channel = -1] does not select
    the last channel, and neither it nor an index beyond the channels
    raises an index error: the slice is empty.  With a single mask
    the output is then an empty tensor of shape (B, 0, F, N); with several
    masks the product cannot be broadcast and [forward] raises. *)
Theorem mask_reference_channel_outside_input :
  forall (self : MaskReferenceChannel.t) (input : tensor complex) (input_length : tensor Z)
         (mask : tensor R) (B C F N M : nat),
    shape input = [B; C; F; N] ->
    shape mask = [B; M; F; N] ->
    (MaskReferenceChannel.ref_channel self = (-1)%Z
     \/ (Z.of_nat C <= MaskReferenceChannel.ref_channel self)%Z) ->
    (M = 1 ->
     exists output,
       MaskReferenceChannel.forward self input input_length mask = Ok (output, input_length) /\
       shape output = [B; 0; F; N]) /\
    (2 <= M ->
     MaskReferenceChannel.forward self input input_length mask
       = Err (RuntimeError "The size of tensor a must match the size of tensor b")).
Proof.
  intros self input input_length mask B C F N M Hi Hm Href.
  unfold MaskReferenceChannel.forward, slice_channels. rewrite Hi.
  assert (Hempty : slice_bound (MaskReferenceChannel.ref_channel self + 1) C
                   - slice_bound (MaskReferenceChannel.ref_channel self) C = 0).
  { unfold slice_bound. destruct Href as [-> | Hge].
    - simpl. lia.
    - destruct (Z.ltb_spec (MaskReferenceChannel.ref_channel self + 1) 0); [lia|].
      destruct (Z.ltb_spec (MaskReferenceChannel.ref_channel self) 0); lia. }
  rewrite Hempty. cbn [bind]. unfold broadcast2.
  rewrite shape_tmap, shape_tab, Hm. cbn [List.length Nat.max]. unfold align.
  cbn [List.length Nat.sub repeat app broadcast_shapes].
  rewrite !Nat.eqb_refl. split.
  - intros ->. cbn [Nat.eqb bind]. eexists. split; reflexivity.
  - intros HM. destruct M as [|[|M]]; try lia. reflexivity.
Qed.

Lemma mask_reference_channel_outside_witness :
  (1 = 1 ->
   exists output,
     MaskReferenceChannel.forward MoreExamples.reference_last Examples.two_channels
       Examples.one_length MoreExamples.single_mask = Ok (output, Examples.one_length) /\
     shape output = [1; 0; 1; 1]) /\
  (2 <= 1 ->
   MaskReferenceChannel.forward MoreExamples.reference_last Examples.two_channels
     Examples.one_length MoreExamples.single_mask
     = Err (RuntimeError "The size of tensor a must match the size of tensor b")).
Proof.
  apply (@mask_reference_channel_outside_input MoreExamples.reference_last
           Examples.two_channels Examples.one_length MoreExamples.single_mask 1 2 1 1 1);
    [reflexivity | reflexivity | left; reflexivity].
Defined.

(** ** MaskBasedBeamformer.__init__: when it succeeds *)

Lemma Rltb_false : forall x y : R, ~ (x < y)%R -> Rltb x y = false.
Proof. intros x y H. unfold Rltb. destruct (Rlt_dec x y); [contradiction | reflexivity]. Qed.

Lemma Rleb_false : forall x y : R, ~ (x <= y)%R -> Rleb x y = false.
Proof. intros x y H. unfold Rleb. destruct (Rle_dec x y); [contradiction | reflexivity]. Qed.

(** X9: the constructor of the beamformer succeeds exactly for a known
    filter type with [mask_min_db < mask_max_db] and
    [postmask_min_db <= postmask_max_db]; an unknown filter type is a
    ValueError, a wrong pair of thresholds an AssertionError. *)
Theorem beamformer_init_succeeds_iff :
  forall a : MaskBasedBeamformer.args,
    ((exists r, MaskBasedBeamformer.init a = Ok r) <->
     (MaskBasedBeamformer.filter_type a = "pmwf"%string
      \/ MaskBasedBeamformer.filter_type a = "mvdr_souden"%string) /\
     (MaskBasedBeamformer.mask_min_db a < MaskBasedBeamformer.mask_max_db a)%R /\
     (MaskBasedBeamformer.postmask_min_db a <= MaskBasedBeamformer.postmask_max_db a)%R) /\
    (MaskBasedBeamformer.filter_type a <> "pmwf"%string ->
     MaskBasedBeamformer.filter_type a <> "mvdr_souden"%string ->
     MaskBasedBeamformer.init a = Err (ValueError "Unknown filter type")) /\
    (forall e, MaskBasedBeamformer.init a = Err e ->
               e = ValueError "Unknown filter type"
               \/ e = AssertionError "mask_min_db < mask_max_db"
               \/ e = AssertionError "postmask_min_db <= postmask_max_db").
Proof.
  intros a. unfold MaskBasedBeamformer.init.
  destruct (String.eqb_spec (MaskBasedBeamformer.filter_type a) "pmwf") as [Hp|Hp];
    destruct (String.eqb_spec (MaskBasedBeamformer.filter_type a) "mvdr_souden") as [Hs|Hs];
    cbn [orb negb andb];
    destruct (Rlt_dec (MaskBasedBeamformer.mask_min_db a) (MaskBasedBeamformer.mask_max_db a))
      as [Hm|Hm];
    destruct (Rle_dec (MaskBasedBeamformer.postmask_min_db a)
                (MaskBasedBeamformer.postmask_max_db a)) as [Hq|Hq];
    rewrite ?(Rltb_true Hm), ?(Rltb_false Hm), ?(Rleb_true Hq), ?(Rleb_false Hq);
    cbn [assert bind];
    (split; [split; [intros [r Hr]; try discriminate; tauto
                    | intros [[?|?] [? ?]]; try contradiction; eauto]
            | split; [intros; try contradiction; try reflexivity
                     | intros e He; try discriminate; injection He as <-; tauto]]).
Qed.

(** ** MaskEstimatorGSS: input checks, initial masks and mask range *)


Section GssValidation.
Context {F : Type} {num : Numeric F}.
Variable fexp : F -> F.
Variable update_pdf :
  MaskEstimatorGSS.t F -> tensor (F * F) -> tensor F -> tensor F -> result (tensor F * tensor F).

(** X10: [forward] checks the activity before any computation: an activity
    whose batch size or number of frames differs from the input's raises
    the AssertionError about its shape, and an activity for fewer than two
    sources raises the AssertionError about multiple outputs, whatever
    the number of iterations and the backend are. *)
Theorem gss_forward_validates_activity :
  forall (self : MaskEstimatorGSS.t F) (input : dtensor (F * F)) (activity : tensor F)
         (B C Fq T B' M : nat) (rest : list nat),
    shape (values input) = [B; C; Fq; T] ->
    shape activity = B' :: M :: rest ->
    (B' <> B \/ last (shape activity) 0 <> T ->
     MaskEstimatorGSS.forward fexp update_pdf self input activity
       = Err (AssertionError "Expecting activity of shape (B, num_outputs, T)")) /\
    (B' = B -> last (shape activity) 0 = T -> M <= 1 ->
     MaskEstimatorGSS.forward fexp update_pdf self input activity
       = Err (AssertionError "Expecting multiple outputs")).
Proof.
  intros self input activity B C Fq T B' M rest Hin Hact.
  unfold MaskEstimatorGSS.forward, MaskEstimatorGSS.estimate. rewrite Hin.
  destruct (shape activity) as [|b0 [|m0 r0]] eqn:Es; try discriminate.
  injection Hact as -> -> ->.
  split.
  - intros [Hb | Ht].
    + rewrite (proj2 (Nat.eqb_neq B' B) Hb). reflexivity.
    + rewrite (proj2 (Nat.eqb_neq _ T) Ht), andb_false_r. reflexivity.
  - intros -> Ht HM. rewrite Ht, !Nat.eqb_refl. cbn [andb assert bind].
    rewrite (proj2 (Nat.ltb_ge 1 M) HM). reflexivity.
Qed.

End GssValidation.

Lemma gss_forward_validates_witness :
  (1 <> 1 \/ last (shape MoreExamples.one_source) 0 <> 1 ->
   MaskEstimatorGSS.forward exp Examples.echo_update_pdf Examples.gss1 Examples.gss_input
     MoreExamples.one_source
     = Err (AssertionError "Expecting activity of shape (B, num_outputs, T)")) /\
  (1 = 1 -> last (shape MoreExamples.one_source) 0 = 1 -> 1 <= 1 ->
   MaskEstimatorGSS.forward exp Examples.echo_update_pdf Examples.gss1 Examples.gss_input
     MoreExamples.one_source
     = Err (AssertionError "Expecting multiple outputs")).
Proof.
  apply (@gss_forward_validates_activity R R_numeric exp Examples.echo_update_pdf Examples.gss1
           Examples.gss_input MoreExamples.one_source 1 1 1 1 1 1 [1]);
    reflexivity.
Defined.

Lemma sum_upto_pos :
  forall n f, 0 < n -> (forall k, k < n -> (0 < f k)%R) -> (0 < sum_upto n f)%R.
Proof.
  intros n f Hn Hf. unfold sum_upto.
  assert (H : forall m s, (forall k, s <= k < s + S m -> (0 < f k)%R) ->
              (0 < fold_right (fun k acc => (f k + acc)%R) 0%R (seq s (S m)))%R).
  { induction m as [|m IH]; intros s Hs.
    - simpl. specialize (Hs s ltac:(lia)). lra.
    - change (seq s (S (S m))) with (s :: seq (S s) (S m)). cbn [fold_right].
      specialize (IH (S s) ltac:(intros; apply Hs; lia)).
      specialize (Hs s ltac:(lia)). lra. }
  destruct n as [|n]; [lia|]. apply H. intros k Hk. apply Hf. lia.
Qed.

Lemma sum_upto_ge_term :
  forall n f m, m < n -> (forall k, k < n -> (0 <= f k)%R) -> (f m <= sum_upto n f)%R.
Proof.
  intros n f m Hm Hf. unfold sum_upto.
  assert (H : forall len s, s <= m < s + len ->
              (forall k, s <= k < s + len -> (0 <= f k)%R) ->
              (f m <= fold_right (fun k acc => (f k + acc)%R) 0%R (seq s len))%R).
  { induction len as [|len IH]; intros s Hs Hpos; [lia|].
    cbn [seq fold_right].
    assert (Hrest : (0 <= fold_right (fun k acc => (f k + acc)%R) 0%R (seq (S s) len))%R).
    { clear IH Hs. revert s Hpos. induction len as [|len IH]; intros s Hpos; simpl; [lra|].
      specialize (IH (S s) ltac:(intros; apply Hpos; lia)).
      specialize (Hpos (S s) ltac:(lia)). lra. }
    destruct (Nat.eq_dec s m) as [->|Hne]; [lra|].
    specialize (IH (S s) ltac:(lia) ltac:(intros; apply Hpos; lia)).
    specialize (Hpos s ltac:(lia)). lra. }
  apply H; [lia | intros; apply Hf; lia].
Qed.


Lemma existsb_never : forall (A : Type) (l : list A), existsb (fun _ => false) l = false.
Proof. induction l; simpl; auto. Qed.

Lemma initial_masks_entries :
  forall (self : MaskEstimatorGSS.t R) (activity : tensor R) (B M Fq T : nat),
    shape activity = [B; M; T] -> wf activity ->
    exists gamma0,
      MaskEstimatorGSS.initial_masks self activity Fq = Ok gamma0 /\
      shape gamma0 = [B; M; Fq; T] /\
      forall b m f t, b < B -> m < M -> f < Fq -> t < T ->
        get 0%R gamma0 [b; m; f; t]
        = (Rmax (get 0 activity [b; m; t]) (MaskEstimatorGSS.eps self)
           / sum_upto M (fun k => Rmax (get 0 activity [b; k; t]) (MaskEstimatorGSS.eps self)))%R.
Proof.
  intros self activity B M Fq T Hact Hwf.
  unfold MaskEstimatorGSS.initial_masks. rewrite shape_tmap, Hact.
  rewrite broadcast2_expand_r
    by (rewrite shape_tab, shape_tmap, Hact; apply expandable_middle3).
  cbn [bind]. rewrite shape_tmap, Hact.
  eexists. split; [reflexivity|]. split; [reflexivity|].
  intros b m f t Hb Hm Hf Ht.
  rewrite get_tab by (apply in_range4; assumption).
  rewrite get_tab by (apply in_range3; assumption).
  rewrite shape_tab. cbn [bidx].
  rewrite ?(bsel_lt Hb), ?(bsel_lt Ht), ?Nat.eqb_refl.
  rewrite get_tab by (apply in_range3; try assumption; lia).
  real_ops.
  rewrite (@get_tmap R R (fun a => Rmax a (MaskEstimatorGSS.eps self)) 0%R 0%R activity
             [b; m; t] Hwf)
    by (rewrite Hact; apply in_range3; assumption).
  f_equal. apply sum_upto_ext. intros k Hk.
  apply (@get_tmap R R (fun a => Rmax a (MaskEstimatorGSS.eps self)) 0%R 0%R activity
           [b; k; t] Hwf).
  rewrite Hact. apply in_range3; assumption.
Qed.

Lemma clamped_sum_pos :
  forall (activity : tensor R) (eps : R) M b t,
    0 < M -> (0 < eps)%R ->
    (0 < sum_upto M (fun k => Rmax (get 0 activity [b; k; t]) eps))%R.
Proof.
  intros activity eps M b t HM Heps. apply sum_upto_pos; [exact HM|].
  intros k _. eapply Rlt_le_trans; [exact Heps | apply Rmax_r].
Qed.

Section GssInitialMasks.
Local Open Scope R_scope.
Variable update_pdf :
  MaskEstimatorGSS.t R -> tensor (R * R) -> tensor R -> tensor R -> result (tensor R * tensor R).

(** The part of [forward] before the EM iterations, for a valid call. *)
Lemma gss_estimate_unfold :
  forall (self : MaskEstimatorGSS.t R) (input : dtensor (R * R)) (activity : tensor R)
         (B C M Fq T : nat),
    shape (values input) = [B; C; Fq; T] ->
    shape activity = [B; M; T] -> (1 < M)%nat ->
    dtype_is_complex (MaskEstimatorGSS.dtype_ self) = true ->
    exists z,
      MaskEstimatorGSS.forward exp update_pdf self input activity
      = (gamma0 <- MaskEstimatorGSS.initial_masks self activity Fq ;;
         st <- MaskEstimatorGSS.em_iterations exp update_pdf self z activity
                 (Z.to_nat (MaskEstimatorGSS.num_iterations self))
                 (gamma0, tab [B; M; Fq; T] (fun _ => 1)) ;;
         Ok (fst st)).
Proof.
  intros self input activity B C M Fq T Hin Hact HM Hc.
  rewrite forward_check. unfold MaskEstimatorGSS.estimate.
  rewrite Hin, Hact. cbn [last].
  rewrite !Nat.eqb_refl, (proj2 (Nat.ltb_lt 1 M) HM), converted_input_is_complex by exact Hc.
  cbn [andb assert bind].
  unfold to_dtype. rewrite Hc. cbn [values].
  destruct (normalize_returns self (values input) Hin) as [z Hz].
  rewrite Hz. cbn [bind]. exists z.
  destruct (MaskEstimatorGSS.initial_masks self activity Fq) as [gamma0|e]; cbn [bind];
    [|reflexivity].
  destruct (MaskEstimatorGSS.em_iterations _ _ _ _ _ _ _) as [st|e]; cbn [bind]; [|reflexivity].
  real_ops. rewrite existsb_never. reflexivity.
Qed.

(** X11: with [num_iterations <= 0] the loop body never runs and [forward]
    returns the initial masks: the activity clamped from below at [eps] and
    normalized across the sources, the same for every subband.  These
    masks sum to exactly one over the sources. *)
Theorem gss_no_iteration_returns_initial_masks :
  forall (self : MaskEstimatorGSS.t R) (input : dtensor (R * R)) (activity : tensor R)
         (B C M Fq T : nat),
    shape (values input) = [B; C; Fq; T] ->
    shape activity = [B; M; T] -> wf activity -> (1 < M)%nat ->
    dtype_is_complex (MaskEstimatorGSS.dtype_ self) = true ->
    0 < MaskEstimatorGSS.eps self ->
    (MaskEstimatorGSS.num_iterations self <= 0)%Z ->
    exists gamma,
      MaskEstimatorGSS.forward exp update_pdf self input activity = Ok gamma /\
      shape gamma = [B; M; Fq; T] /\
      (forall b m f t, (b < B)%nat -> (m < M)%nat -> (f < Fq)%nat -> (t < T)%nat ->
         get 0 gamma [b; m; f; t]
         = Rmax (get 0 activity [b; m; t]) (MaskEstimatorGSS.eps self)
           / sum_upto M (fun k => Rmax (get 0 activity [b; k; t]) (MaskEstimatorGSS.eps self))) /\
      (forall b f t, (b < B)%nat -> (f < Fq)%nat -> (t < T)%nat ->
         sum_upto M (fun m => get 0 gamma [b; m; f; t]) = 1).
Proof.
  intros self input activity B C M Fq T Hin Hact Hwf HM Hc Heps Hn.
  destruct (@gss_estimate_unfold self input activity B C M Fq T Hin Hact HM Hc) as [z ->].
  destruct (@initial_masks_entries self activity B M Fq T Hact Hwf)
    as [gamma0 [H0 [Hs Hentry]]].
  rewrite H0. cbn [bind].
  replace (Z.to_nat (MaskEstimatorGSS.num_iterations self)) with 0%nat by lia.
  cbn [MaskEstimatorGSS.em_iterations bind fst].
  exists gamma0. split; [reflexivity|]. split; [exact Hs|]. split; [exact Hentry|].
  intros b f t Hb Hf Ht.
  rewrite (@sum_upto_ext M _
             (fun m => Rmax (get 0 activity [b; m; t]) (MaskEstimatorGSS.eps self)
                       / sum_upto M (fun k => Rmax (get 0 activity [b; k; t])
                                                (MaskEstimatorGSS.eps self))))
    by (intros k Hk; apply Hentry; assumption).
  rewrite sum_upto_div. apply Rdiv_diag.
  apply Rgt_not_eq. apply clamped_sum_pos; [lia | exact Heps].
Qed.

End GssInitialMasks.

Lemma small_eps_pos : (0 < Examples.small_eps)%R.
Proof. unfold Examples.small_eps. lra. Qed.

Lemma gss_no_iteration_witness :
  exists gamma,
    MaskEstimatorGSS.forward exp Examples.echo_update_pdf MoreExamples.gss0 Examples.gss_input
      Examples.full_activity = Ok gamma /\
    shape gamma = [1; 2; 1; 1] /\
    (forall b m f t, b < 1 -> m < 2 -> f < 1 -> t < 1 ->
       get 0%R gamma [b; m; f; t]
       = (Rmax (get 0 Examples.full_activity [b; m; t]) (MaskEstimatorGSS.eps MoreExamples.gss0)
          / sum_upto 2 (fun k => Rmax (get 0 Examples.full_activity [b; k; t])
                                   (MaskEstimatorGSS.eps MoreExamples.gss0)))%R) /\
    (forall b f t, b < 1 -> f < 1 -> t < 1 ->
       sum_upto 2 (fun m => get 0%R gamma [b; m; f; t]) = 1%R).
Proof.
  apply (@gss_no_iteration_returns_initial_masks Examples.echo_update_pdf MoreExamples.gss0
           Examples.gss_input Examples.full_activity 1 1 2 1 1);
    first [reflexivity | exact small_eps_pos | simpl; lia].
Defined.

(** ** normalize *)

Section GssNormalize.
Local Open Scope R_scope.

Lemma normalize_entries :
  forall (self : MaskEstimatorGSS.t R) (x : tensor (R * R)) (B C Fq T : nat),
    shape x = [B; C; Fq; T] ->
    exists z,
      MaskEstimatorGSS.normalize self x = Ok z /\
      shape z = [B; C; Fq; T] /\
      forall b c f t, (b < B)%nat -> (c < C)%nat -> (f < Fq)%nat -> (t < T)%nat ->
        get (0, 0) z [b; c; f; t]
        = (fst (get (0, 0) x [b; c; f; t]) / (channel_norm x C b f t + MaskEstimatorGSS.eps self),
           snd (get (0, 0) x [b; c; f; t]) / (channel_norm x C b f t + MaskEstimatorGSS.eps self)).
Proof.
  intros self x B C Fq T Hs.
  unfold MaskEstimatorGSS.normalize. rewrite Hs.
  erewrite broadcast2_single_channel; [|exact Hs | apply shape_tab].
  eexists. split; [reflexivity|]. split; [reflexivity|].
  intros b c f t Hb Hc Hf Ht.
  rewrite get_tab by (apply in_range4; assumption).
  rewrite get_tab by (apply in_range4; try assumption; lia).
  reflexivity.
Qed.

(** X12: [normalize] divides by the norm plus [eps], so the result does not
    have unit norm across the channels: a vector of norm [n] is scaled to
    norm [n / (n + eps)], which is below one (and zero for a zero
    vector). *)
Theorem gss_normalize_norm :
  forall (self : MaskEstimatorGSS.t R) (x : tensor (R * R)) (B C Fq T : nat),
    shape x = [B; C; Fq; T] ->
    0 < MaskEstimatorGSS.eps self ->
    exists z,
      MaskEstimatorGSS.normalize self x = Ok z /\
      shape z = [B; C; Fq; T] /\
      forall b f t, (b < B)%nat -> (f < Fq)%nat -> (t < T)%nat ->
        channel_norm z C b f t
        = channel_norm x C b f t / (channel_norm x C b f t + MaskEstimatorGSS.eps self) /\
        0 <= channel_norm z C b f t < 1.
Proof.
  intros self x B C Fq T Hs Heps.
  destruct (@normalize_entries self x B C Fq T Hs) as [z [Hz [Hsz Hentry]]].
  exists z. split; [exact Hz|]. split; [exact Hsz|].
  intros b f t Hb Hf Ht.
  assert (Hn : 0 <= channel_norm x C b f t) by apply sqrt_pos.
  assert (Heq : channel_norm z C b f t
                = channel_norm x C b f t
                  / (channel_norm x C b f t + MaskEstimatorGSS.eps self)).
  { unfold channel_norm at 1.
    rewrite (@sum_upto_ext C _
               (fun c => MaskEstimatorGSS.cabs2 (get (0, 0) x [b; c; f; t])
                         / ((channel_norm x C b f t + MaskEstimatorGSS.eps self)
                            * (channel_norm x C b f t + MaskEstimatorGSS.eps self)))).
    - rewrite sum_upto_div. rewrite sqrt_div_alt by nra.
      rewrite sqrt_square by lra. reflexivity.
    - intros c Hc. rewrite (Hentry b c f t Hb Hc Hf Ht).
      unfold MaskEstimatorGSS.cabs2. real_ops. cbn [fst snd].
      generalize (channel_norm x C b f t + MaskEstimatorGSS.eps self).
      intro d. unfold Rdiv. rewrite Rinv_mult. ring. }
  rewrite Heq. split; [reflexivity|]. split.
  - apply Rdiv_nonneg; lra.
  - apply Rmult_lt_reg_r with (channel_norm x C b f t + MaskEstimatorGSS.eps self); [lra|].
    unfold Rdiv. rewrite Rmult_assoc, Rinv_l by lra. lra.
Qed.

End GssNormalize.

Lemma gss_normalize_norm_witness :
  exists z,
    MaskEstimatorGSS.normalize Examples.gss1 MoreExamples.gss_pair = Ok z /\
    shape z = [1; 2; 1; 1] /\
    forall b f t, b < 1 -> f < 1 -> t < 1 ->
      channel_norm z 2 b f t
      = (channel_norm MoreExamples.gss_pair 2 b f t
         / (channel_norm MoreExamples.gss_pair 2 b f t + MaskEstimatorGSS.eps Examples.gss1))%R /\
      (0 <= channel_norm z 2 b f t < 1)%R.
Proof.
  apply (@gss_normalize_norm Examples.gss1 MoreExamples.gss_pair 1 2 1 1);
    [reflexivity | exact small_eps_pos].
Defined.

Section GssMaskRange.
Local Open Scope R_scope.
Variable update_pdf :
  MaskEstimatorGSS.t R -> tensor (R * R) -> tensor R -> tensor R -> result (tensor R * tensor R).
(** The log-pdf that [update_pdf] returns has the shape of the masks. *)
Hypothesis update_pdf_shape :
  forall self z gamma zH r,
    update_pdf self z gamma zH = Ok r -> shape (fst r) = shape gamma.

Variable self : MaskEstimatorGSS.t R.
Variable activity : tensor R.
Variables B M Fq T : nat.
Hypothesis activity_shape : shape activity = [B; M; T].
Hypothesis activity_wf : wf activity.
Hypothesis eps_pos : 0 < MaskEstimatorGSS.eps self.
Hypothesis activity_nonneg :
  forall b m t, (b < B)%nat -> (m < M)%nat -> (t < T)%nat -> 0 <= get 0 activity [b; m; t].

(** Masks whose sum over the sources is at most one. *)
Let bounded (gamma : tensor R) : Prop :=
  forall b f t, (b < B)%nat -> (f < Fq)%nat -> (t < T)%nat ->
    sum_upto M (fun m => get 0 gamma [b; m; f; t]) <= 1.

Lemma em_iteration_bounded :
  forall z st st',
    (0 < M)%nat ->
    nonneg_masks B M Fq T (fst st) ->
    MaskEstimatorGSS.em_iteration exp update_pdf self z activity st = Ok st' ->
    nonneg_masks B M Fq T (fst st') /\ bounded (fst st').
Proof.
  intros z st st' HM Hinv. unfold MaskEstimatorGSS.em_iteration.
  destruct (update_weights_nonneg Hinv) as [alpha [Hw [Hsa Hpa]]].
  rewrite Hw. cbn [bind].
  destruct (update_pdf self z (fst st) (snd st)) as [r|e] eqn:Er; cbn [bind]; [|discriminate].
  assert (Hlp : shape (fst r) = [B; M; Fq; T]).
  { rewrite (update_pdf_shape Er). exact (proj1 Hinv). }
  destruct (@update_masks_normalized self alpha activity (fst r) B M Fq T
              Hsa activity_shape Hlp HM eps_pos Hpa activity_nonneg)
    as [g [gamma [Hg [Hu [Hsg [Hpg Hsum]]]]]].
  rewrite Hu. cbn [bind]. intro H. injection H as H. subst st'. cbn [fst].
  split; [split; assumption|].
  intros b f t Hb Hf Ht. destruct (Hsum b f t Hb Hf Ht) as [_ [_ [_ [_ Hlt]]]]. lra.
Qed.

Lemma em_iterations_bounded :
  forall n z st st',
    (0 < M)%nat ->
    nonneg_masks B M Fq T (fst st) -> bounded (fst st) ->
    MaskEstimatorGSS.em_iterations exp update_pdf self z activity n st = Ok st' ->
    nonneg_masks B M Fq T (fst st') /\ bounded (fst st').
Proof.
  induction n as [|n IH]; intros z st st' HM Hinv Hb.
  - simpl. intro H. injection H as <-. split; assumption.
  - cbn [MaskEstimatorGSS.em_iterations].
    destruct (MaskEstimatorGSS.em_iteration exp update_pdf self z activity st)
      as [st1|e] eqn:E; cbn [bind]; [|discriminate].
    destruct (em_iteration_bounded z st HM Hinv E) as [H1 H2].
    intro H. exact (IH z st1 st' HM H1 H2 H).
Qed.

(** X13: for a non-negative activity and [eps > 0], every entry of the
    masks that [forward] returns lies between zero and one, for any number
    of iterations and any [update_pdf] that returns a log-pdf of the shape of
    the masks. *)
Theorem gss_masks_between_zero_and_one :
  forall (input : dtensor (R * R)) (C : nat) (gamma : tensor R),
    shape (values input) = [B; C; Fq; T] ->
    MaskEstimatorGSS.forward exp update_pdf self input activity = Ok gamma ->
    shape gamma = [B; M; Fq; T] /\
    forall b m f t, (b < B)%nat -> (m < M)%nat -> (f < Fq)%nat -> (t < T)%nat ->
      0 <= get 0 gamma [b; m; f; t] <= 1.
Proof.
  intros input C gamma Hin Hf.
  assert (HM : (1 < M)%nat).
  { revert Hf. unfold MaskEstimatorGSS.forward, MaskEstimatorGSS.estimate.
    rewrite Hin, activity_shape.
    destruct (assert _ _) as [u|e]; cbn [bind]; [|discriminate].
    destruct (Nat.ltb_spec 1 M) as [H|H]; [intros _; exact H | discriminate]. }
  assert (Hc : dtype_is_complex (MaskEstimatorGSS.dtype_ self) = true).
  { revert Hf. unfold MaskEstimatorGSS.forward, MaskEstimatorGSS.estimate.
    rewrite Hin, activity_shape.
    destruct (assert _ _) as [u|e]; cbn [bind]; [|discriminate].
    destruct (assert _ _) as [u'|e]; cbn [bind]; [|discriminate].
    unfold is_complex, to_dtype. cbn [dtype_of].
    destruct (dtype_is_complex (MaskEstimatorGSS.dtype_ self)); [reflexivity | discriminate]. }
  destruct (@gss_estimate_unfold update_pdf self input activity B C M Fq T
              Hin activity_shape HM Hc) as [z Hz].
  rewrite Hz in Hf. clear Hz.
  destruct (@initial_masks_entries self activity B M Fq T activity_shape activity_wf)
    as [gamma0 [H0 [Hs0 Hentry]]].
  rewrite H0 in Hf. cbn [bind] in Hf.
  assert (Hpos : forall b t, 0 < sum_upto M (fun k => Rmax (get 0 activity [b; k; t])
                                                         (MaskEstimatorGSS.eps self))).
  { intros b t. apply clamped_sum_pos; [lia | exact eps_pos]. }
  assert (Hinv0 : nonneg_masks B M Fq T gamma0).
  { split; [exact Hs0|]. intros b m f t Hb Hm Hf' Ht. rewrite Hentry by assumption.
    apply Rdiv_nonneg; [|apply Rlt_le, Hpos].
    eapply Rle_trans; [apply Rlt_le, eps_pos | apply Rmax_r]. }
  assert (Hb0 : bounded gamma0).
  { intros b f t Hb Hf' Ht.
    rewrite (@sum_upto_ext M _
               (fun m => Rmax (get 0 activity [b; m; t]) (MaskEstimatorGSS.eps self)
                         / sum_upto M (fun k => Rmax (get 0 activity [b; k; t])
                                                  (MaskEstimatorGSS.eps self))))
      by (intros k Hk; apply Hentry; assumption).
    rewrite sum_upto_div, Rdiv_diag; [lra|]. apply Rgt_not_eq, Hpos. }
  destruct (MaskEstimatorGSS.em_iterations exp update_pdf self z activity
              (Z.to_nat (MaskEstimatorGSS.num_iterations self))
              (gamma0, tab [B; M; Fq; T] (fun _ => 1))) as [st|e] eqn:Eit;
    cbn [bind] in Hf; [|discriminate].
  injection Hf as <-.
  destruct (@em_iterations_bounded _ z (gamma0, tab [B; M; Fq; T] (fun _ => 1)) st
              ltac:(lia) Hinv0 Hb0 Eit) as [[Hs Hnn] Hbd].
  split; [exact Hs|].
  intros b m f t Hb Hm Hf' Ht. split; [apply Hnn; assumption|].
  eapply Rle_trans; [|apply (Hbd b f t Hb Hf' Ht)].
  apply (@sum_upto_ge_term M (fun k => get 0 (fst st) [b; k; f; t]) m Hm).
  intros k Hk. apply Hnn; assumption.
Qed.

End GssMaskRange.

Lemma gss_masks_range_witness :
  exists gamma,
    MaskEstimatorGSS.forward exp Examples.echo_update_pdf Examples.gss1 Examples.gss_input
      Examples.full_activity = Ok gamma /\
    shape gamma = [1; 2; 1; 1] /\
    forall b m f t, b < 1 -> m < 2 -> f < 1 -> t < 1 ->
      (0 <= get 0 gamma [b; m; f; t] <= 1)%R.
Proof.
  destruct (@echo_forward_returns Examples.gss1 Examples.gss_input Examples.full_activity
              1 1 2 1 1 eq_refl eq_refl ltac:(lia) eq_refl small_eps_pos
              (@example_entries_nonneg Examples.full_activity 1%R 1%R eq_refl
                 ltac:(lra) ltac:(lra)))
    as [gamma Hf].
  exists gamma. split; [exact Hf|].
  exact (@gss_masks_between_zero_and_one Examples.echo_update_pdf echo_update_pdf_shape
           Examples.gss1 Examples.full_activity 1 2 1 1 eq_refl eq_refl small_eps_pos
           (@example_entries_nonneg Examples.full_activity 1%R 1%R eq_refl
              ltac:(lra) ltac:(lra))
           Examples.gss_input 1 gamma eq_refl Hf).
Defined.

(** ** WPEFilter *)

Lemma in_range6 :
  forall B F C L C' L' b f j k m n,
    b < B -> f < F -> j < C -> k < L -> m < C' -> n < L' ->
    in_range [B; F; C; L; C'; L'] [b; f; j; k; m; n].
Proof. intros. simpl. tauto. Qed.

(** The convolution tensor for any [n_steps]: only the steps that exist are
    kept. *)
Lemma convtensor_entries :
  forall (A : Type) (zero : A) (x : tensor A) (B C F N : nat) (filter_length delay : Z)
         (n_steps : option Z),
    shape x = [B; C; F; N] ->
    (1 <= filter_length)%Z -> (0 < Z.of_nat N + delay)%Z ->
    let steps := slice_stop (match n_steps with Some n => n | None => Z.of_nat N end)
                   (Z.to_nat (Z.of_nat N + delay)) in
    exists y,
      convtensor zero x filter_length delay n_steps = Ok y /\
      shape y = [B; C; F; steps; Z.to_nat filter_length] /\
      wf y /\
      forall b c f t l,
        b < B -> c < C -> f < F -> t < steps -> l < Z.to_nat filter_length ->
        get zero y [b; c; f; t; l] =
          let k := (Z.of_nat t - delay - (filter_length - 1) + Z.of_nat l)%Z in
          if (0 <=? k)%Z then get zero x [b; c; f; Z.to_nat k] else zero.
Proof.
  intros A zero x B C F N L delay n_steps Hs HL HN steps.
  unfold convtensor, pad_time. rewrite Hs.
  destruct (Z.ltb_spec (Z.of_nat N + (L - 1 + delay)) 0) as [Hneg|Hpad]; [lia|].
  cbn [bind]. unfold unfold_time. rewrite shape_tab.
  set (P := Z.to_nat (Z.of_nat N + (L - 1 + delay))).
  destruct (Z.ltb_spec L 0) as [HL0|_]; [lia|].
  destruct (Z.ltb_spec (Z.of_nat P) L) as [Hbig|Hfit]; [subst P; lia|].
  cbn [orb bind]. unfold take_steps. rewrite shape_tab.
  replace (P - Z.to_nat L + 1) with (Z.to_nat (Z.of_nat N + delay)) by (subst P; lia).
  fold steps.
  assert (Hsteps : steps <= Z.to_nat (Z.of_nat N + delay)).
  { subst steps. unfold slice_stop. destruct (Z.ltb_spec (match n_steps with Some n => n | None => Z.of_nat N end) 0); lia. }
  eexists. split; [reflexivity|]. split; [reflexivity|]. split; [apply wf_tab|].
  intros b c f t l Hb Hc Hf Ht Hl.
  rewrite get_tab by (apply in_range5; assumption).
  rewrite get_tab by (apply in_range5; try assumption; lia).
  rewrite get_tab by (apply in_range4; try assumption; subst P; lia).
  cbv zeta.
  replace (Z.of_nat (t + l) - (L - 1 + delay))%Z
    with (Z.of_nat t - delay - (L - 1) + Z.of_nat l)%Z by lia.
  destruct (Z.ltb_spec (Z.of_nat t - delay - (L - 1) + Z.of_nat l) 0) as [Hk|Hk];
    destruct (Z.leb_spec 0 (Z.of_nat t - delay - (L - 1) + Z.of_nat l)) as [Hk'|Hk'];
    try lia; reflexivity.
Qed.

Lemma convtensor_default_steps :
  forall (A : Type) (zero : A) (x : tensor A) (B C F N : nat) (filter_length delay : Z),
    shape x = [B; C; F; N] ->
    (1 <= filter_length)%Z -> (0 <= delay)%Z -> 0 < N ->
    exists y,
      convtensor zero x filter_length delay None = Ok y /\
      shape y = [B; C; F; N; Z.to_nat filter_length] /\
      wf y /\
      forall b c f t l,
        b < B -> c < C -> f < F -> t < N -> l < Z.to_nat filter_length ->
        get zero y [b; c; f; t; l] =
          let k := (Z.of_nat t - delay - (filter_length - 1) + Z.of_nat l)%Z in
          if (0 <=? k)%Z then get zero x [b; c; f; Z.to_nat k] else zero.
Proof.
  intros A zero x B C F N L delay Hs HL Hd HN.
  destruct (@convtensor_entries A zero x B C F N L delay None Hs HL ltac:(lia))
    as [y [Hy [Hsy [Hwf Hent]]]].
  assert (Hst : slice_stop (Z.of_nat N) (Z.to_nat (Z.of_nat N + delay)) = N).
  { unfold slice_stop. destruct (Z.ltb_spec (Z.of_nat N) 0); lia. }
  cbv zeta in Hsy, Hent. rewrite Hst in Hsy, Hent.
  exists y. auto.
Qed.


(** X14: with an explicit [n_steps] the convolution tensor keeps
    [min(n_steps, N + delay)] steps, not always [n_steps]: asking for more
    steps than the delayed signal has neither raises nor pads.  The steps
    kept are the first ones. *)
Theorem convtensor_number_of_steps :
  forall (A : Type) (zero : A) (x : tensor A) (B C F N : nat) (filter_length delay n : Z),
    shape x = [B; C; F; N] ->
    (1 <= filter_length)%Z -> (0 <= delay)%Z -> (0 < Z.of_nat N + delay)%Z -> (0 <= n)%Z ->
    exists y,
      convtensor zero x filter_length delay (Some n) = Ok y /\
      shape y = [B; C; F; Nat.min (Z.to_nat n) (Z.to_nat (Z.of_nat N + delay));
                 Z.to_nat filter_length] /\
      forall b c f t l,
        b < B -> c < C -> f < F ->
        t < Nat.min (Z.to_nat n) (Z.to_nat (Z.of_nat N + delay)) ->
        l < Z.to_nat filter_length ->
        get zero y [b; c; f; t; l] =
          let k := (Z.of_nat t - delay - (filter_length - 1) + Z.of_nat l)%Z in
          if (0 <=? k)%Z then get zero x [b; c; f; Z.to_nat k] else zero.
Proof.
  intros A zero x B C F N L delay n Hs HL Hd HN Hn.
  destruct (@convtensor_entries A zero x B C F N L delay (Some n) Hs HL HN)
    as [y [Hy [Hsy [_ Hent]]]].
  assert (Hst : slice_stop n (Z.to_nat (Z.of_nat N + delay))
                = Nat.min (Z.to_nat n) (Z.to_nat (Z.of_nat N + delay))).
  { unfold slice_stop. destruct (Z.ltb_spec n 0); [lia | reflexivity]. }
  cbv zeta in Hsy, Hent. rewrite Hst in Hsy, Hent.
  exists y. auto.
Qed.

Lemma convtensor_number_of_steps_witness :
  exists y,
    convtensor 0%Z (tab [1; 1; 1; 3] (fun idx => Z.of_nat (S (last idx 0)))) 2 1 (Some 10%Z)
      = Ok y /\
    shape y = [1; 1; 1; Nat.min (Z.to_nat 10) (Z.to_nat (Z.of_nat 3 + 1)); Z.to_nat 2] /\
    forall b c f t l,
      b < 1 -> c < 1 -> f < 1 ->
      t < Nat.min (Z.to_nat 10) (Z.to_nat (Z.of_nat 3 + 1)) ->
      l < Z.to_nat 2 ->
      get 0%Z y [b; c; f; t; l] =
        let k := (Z.of_nat t - 1 - (2 - 1) + Z.of_nat l)%Z in
        if (0 <=? k)%Z
        then get 0%Z (tab [1; 1; 1; 3] (fun idx => Z.of_nat (S (last idx 0)))) [b; c; f; Z.to_nat k]
        else 0%Z.
Proof.
  apply (@convtensor_number_of_steps Z 0%Z
           (tab [1; 1; 1; 3] (fun idx => Z.of_nat (S (last idx 0)))) 1 1 1 3 2 1 10);
    [reflexivity | lia | lia | lia | lia].
Defined.

Example convtensor_more_steps_example :
  convtensor 0%Z (tab [1; 1; 1; 3] (fun idx => Z.of_nat (S (last idx 0)))) 2 1 (Some 10%Z)
  = Ok (mkTensor [1; 1; 1; 4; 2] [0; 0; 0; 1; 1; 2; 2; 3]%Z).
Proof. vm_compute. reflexivity. Qed.

(** X15: a signal without frames cannot be unfolded: for a delay of zero
    [convtensor] raises torch's error about the window size, whatever
    [n_steps] is. *)
Theorem convtensor_empty_signal_raises :
  forall (A : Type) (zero : A) (x : tensor A) (B C F : nat) (filter_length : Z)
         (n_steps : option Z),
    shape x = [B; C; F; 0] ->
    (1 <= filter_length)%Z ->
    convtensor zero x filter_length 0 n_steps
    = Err (RuntimeError "maximum size for tensor at dimension 3 exceeded").
Proof.
  intros A zero x B C F L n_steps Hs HL. unfold convtensor, pad_time. rewrite Hs.
  destruct (Z.ltb_spec (Z.of_nat 0 + (L - 1 + 0)) 0) as [Hneg|Hpad]; [lia|].
  cbn [bind]. unfold unfold_time. rewrite shape_tab.
  destruct (Z.ltb_spec L 0) as [HL0|_]; [lia|].
  destruct (Z.ltb_spec (Z.of_nat (Z.to_nat (Z.of_nat 0 + (L - 1 + 0)))) L) as [Hbig|Hfit];
    [reflexivity | lia].
Qed.

Lemma convtensor_empty_signal_witness :
  convtensor Czero MoreExamples.no_frames 3 0 None
  = Err (RuntimeError "maximum size for tensor at dimension 3 exceeded").
Proof.
  apply (@convtensor_empty_signal_raises complex Czero MoreExamples.no_frames 1 1 1 3 None);
    [reflexivity | lia].
Defined.

Lemma last_bidx :
  forall s t idx,
    in_range t idx -> List.length s = List.length t -> last s 0 = last t 0 ->
    last (bidx s idx) 0 = last idx 0.
Proof.
  induction s as [|n s IH]; intros t idx Hidx Hlen Hlast.
  - destruct t; [|discriminate]. destruct idx; [reflexivity | destruct Hidx].
  - destruct t as [|m t]; [discriminate|].
    destruct idx as [|i idx]; [destruct Hidx|]. destruct Hidx as [Hi Hidx].
    cbn [bidx]. destruct s as [|n' s].
    + destruct t; [|discriminate]. destruct idx; [|destruct Hidx].
      cbn in Hlast. subst m. cbn. apply bsel_lt, Hi.
    + destruct t as [|m' t]; [discriminate|].
      destruct idx as [|i' idx]; [destruct Hidx|].
      specialize (IH (m' :: t) (i' :: idx) Hidx ltac:(simpl in *; lia) Hlast).
      cbn [bidx] in IH |- *. exact IH.
Qed.

(** [x.masked_fill(mask, v)] leaves an entry or replaces it by [v]. *)
Lemma mask_padded_frames_entries :
  forall (A : Type) (zero : A) (x : tensor A) (lengths : tensor Z) B s,
    shape x = B :: s -> s <> [] -> shape lengths = [B] ->
    exists y,
      WPEFilter.mask_padded_frames zero x lengths = Ok y /\
      shape y = shape x /\ wf y /\
      forall idx, in_range (shape x) idx ->
        get zero y idx
        = if (Z.of_nat (last idx 0%nat) <? get 0%Z lengths [hd 0%nat idx])%Z
          then get zero x idx else zero.
Proof.
  intros A zero x lengths B s Hs Hne Hl.
  unfold WPEFilter.mask_padded_frames, masked_fill.
  assert (Hm : shape (make_seq_mask_like lengths x false)
               = B :: repeat 1 (List.length s - 1) ++ [last s 0])
    by (eapply time_mask_shape; eassumption).
  rewrite Hm, Hs, (time_mask_rank B Hne), Nat.leb_refl.
  unfold align. rewrite (time_mask_rank B Hne), Nat.sub_diag. cbn [repeat app andb].
  assert (He : expandable (B :: repeat 1 (List.length s - 1) ++ [last s 0]) (B :: s) = true).
  { cbn [expandable]. rewrite Nat.eqb_refl. cbn [orb andb]. apply expandable_time_mask, Hne. }
  rewrite He. eexists. split; [reflexivity|]. split; [reflexivity|]. split; [apply wf_tab|].
  intros idx Hidx. rewrite get_tab by exact Hidx.
  unfold bget. rewrite Hm, (time_mask_rank B Hne), Nat.sub_diag. cbn [skipn].
  unfold align. rewrite (time_mask_rank B Hne), Nat.sub_diag. cbn [repeat app].
  unfold make_seq_mask_like at 1. rewrite Hs, Hl. cbn [hd List.length].
  replace (S (List.length s) - 2) with (List.length s - 1) by lia.
  replace (last (B :: s) 0) with (last s 0) by (destruct s; [congruence | reflexivity]).
  rewrite get_tab by (apply bidx_in_range with (t := B :: s); assumption).
  assert (Hhd : hd 0 (bidx (B :: repeat 1 (List.length s - 1) ++ [last s 0]) idx) = hd 0 idx).
  { destruct idx as [|i idx]; [destruct Hidx|]. cbn [bidx hd].
    destruct Hidx as [Hi _]. apply bsel_lt, Hi. }
  assert (Hlast : last (bidx (B :: repeat 1 (List.length s - 1) ++ [last s 0]) idx) 0
                  = last idx 0).
  { apply last_bidx with (t := B :: s); [exact Hidx | apply time_mask_rank, Hne |].
    destruct s as [|n s]; [congruence|].
    change (B :: repeat 1 (List.length (n :: s) - 1) ++ [last (n :: s) 0])
      with ((B :: repeat 1 (List.length (n :: s) - 1)) ++ [last (n :: s) 0]).
    rewrite last_last. reflexivity. }
  rewrite Hhd, Hlast.
  destruct (Z.of_nat (last idx 0%nat) <? get 0%Z lengths [hd 0%nat idx])%Z; reflexivity.
Qed.

(** [weight[:, None, :, :, None]] and [weight[:, None, :, :]] read the entry
    of [weight]. *)
Lemma get_weight5 :
  forall (A : Type) (d : A) (w : tensor A) B F N b f i,
    shape w = [B; F; N] ->
    get d (mkTensor [B; 1; F; N; 1] (data w)) [b; 0; f; i; 0] = get d w [b; f; i].
Proof.
  intros A d w B F N b f i Hs. unfold get. rewrite Hs.
  cbn [shape data flat_index numel fold_right]. f_equal. lia.
Qed.

Lemma get_weight4 :
  forall (A : Type) (d : A) (w : tensor A) B F N b f i,
    shape w = [B; F; N] ->
    get d (mkTensor [B; 1; F; N] (data w)) [b; 0; f; i] = get d w [b; f; i].
Proof.
  intros A d w B F N b f i Hs. unfold get. rewrite Hs.
  cbn [shape data flat_index numel fold_right]. f_equal. lia.
Qed.

Lemma expandable_weight5 :
  forall B C F N L, expandable [B; 1; F; N; 1] [B; C; F; N; L] = true.
Proof.
  intros. cbn [expandable]. rewrite !Nat.eqb_refl. cbn. rewrite !orb_true_r. reflexivity.
Qed.



Lemma Csum_upto_ext :
  forall n f g, (forall k, k < n -> f k = g k) -> Csum_upto n f = Csum_upto n g.
Proof.
  intros n f g H. unfold Csum_upto.
  assert (Hl : forall l, (forall k, In k l -> f k = g k) ->
            fold_right (fun k acc => Cadd (f k) acc) Czero l
            = fold_right (fun k acc => Cadd (g k) acc) Czero l).
  { induction l as [|a l IH]; intros Hin; [reflexivity|].
    cbn [fold_right]. rewrite (Hin a (or_introl eq_refl)), IH; [reflexivity|].
    intros k Hk. apply Hin. right. exact Hk. }
  apply Hl. intros k Hk. apply H. apply in_seq in Hk. lia.
Qed.

Lemma estimate_correlations_entries :
  forall (input : tensor complex) (weight : tensor R) (tilde_input : tensor complex)
         (input_length : option (tensor Z)) (B C F N L : nat),
    shape input = [B; C; F; N] -> shape weight = [B; F; N] ->
    shape tilde_input = [B; C; F; N; L] -> wf tilde_input ->
    lengths_fit input_length B ->
    exists Q R,
      WPEFilter.estimate_correlations input weight tilde_input input_length = Ok (Q, R) /\
      shape Q = [B; F; C; L; C; L] /\ shape R = [B; F; C; L; C] /\
      wf Q /\ wf R /\
      (forall b f j k m n, b < B -> f < F -> j < C -> k < L -> m < C -> n < L ->
         get Czero Q [b; f; j; k; m; n]
         = Csum_upto N (fun i =>
             Cmul (Cconj (get Czero tilde_input [b; j; f; i; k]))
                  (Cscale (masked_weight weight input_length b f i)
                          (get Czero tilde_input [b; m; f; i; n])))) /\
      (forall b f j k m, b < B -> f < F -> j < C -> k < L -> m < C ->
         get Czero R [b; f; j; k; m]
         = Csum_upto N (fun i =>
             Cmul (Cconj (get Czero tilde_input [b; j; f; i; k]))
                  (Cscale (masked_weight weight input_length b f i)
                          (get Czero input [b; m; f; i])))).
Proof.
  intros input weight tilde input_length B C F N L Hin Hw Ht Hwf Hlen.
  unfold WPEFilter.estimate_correlations.
  assert (Hmask : exists w',
            match input_length with
            | Some lengths => WPEFilter.mask_padded_frames 0%R weight lengths
            | None => Ok weight
            end = Ok w' /\ shape w' = [B; F; N] /\
            forall b f i, b < B -> f < F -> i < N ->
              get 0%R w' [b; f; i] = masked_weight weight input_length b f i).
  { destruct input_length as [lengths|]; cbn [lengths_fit masked_weight] in *.
    - destruct (@mask_padded_frames_entries R 0%R weight lengths B [F; N] Hw
                  ltac:(discriminate) Hlen) as [w' [Hw' [Hs' [_ He]]]].
      exists w'. split; [exact Hw'|]. split; [congruence|].
      intros b f i Hb Hf Hi. rewrite He by (rewrite Hw; apply in_range3; assumption).
      reflexivity.
    - exists weight. auto. }
  destruct Hmask as [w' [-> [Hs' Hw']]]. cbn [bind]. rewrite Hs'.
  rewrite reshape_ok by (rewrite Hs'; simpl; lia). cbn [bind].
  rewrite broadcast2_expand_l
    by (cbn [shape]; rewrite Ht; apply expandable_weight5).
  cbn [bind]. unfold WPEFilter.einsum_Q. rewrite shape_tmap, shape_tab, Ht.
  rewrite !Nat.eqb_refl. cbn [andb bind].
  unfold unsqueeze1. rewrite Hs'.
  rewrite reshape_ok by (rewrite Hs'; simpl; lia). cbn [bind].
  rewrite broadcast2_expand_l
    by (cbn [shape]; rewrite Hin; apply expandable_channel).
  cbn [bind]. unfold WPEFilter.einsum_R. rewrite shape_tmap, shape_tab, Ht, Hin.
  rewrite !Nat.eqb_refl. cbn [andb bind].
  eexists. eexists. split; [reflexivity|]. split; [reflexivity|]. split; [reflexivity|].
  split; [apply wf_tab|]. split; [apply wf_tab|]. split.
  - intros b f j k m n Hb Hf Hj Hk Hm Hn.
    rewrite get_tab by (apply in_range6; assumption).
    apply Csum_upto_ext. intros i Hi.
    rewrite (@get_tmap complex complex Cconj Czero Czero tilde [b; j; f; i; k] Hwf)
      by (rewrite Ht; apply in_range5; assumption).
    rewrite get_tab by (apply in_range5; assumption).
    cbn [shape bidx]. rewrite ?(bsel_lt Hb), ?(bsel_lt Hf), ?(bsel_lt Hi), ?Nat.eqb_refl.
    rewrite (get_weight5 0%R w' b f i Hs'), Hw' by assumption.
    reflexivity.
  - intros b f j k m Hb Hf Hj Hk Hm.
    rewrite get_tab by (apply in_range5; assumption).
    apply Csum_upto_ext. intros i Hi.
    rewrite (@get_tmap complex complex Cconj Czero Czero tilde [b; j; f; i; k] Hwf)
      by (rewrite Ht; apply in_range5; assumption).
    rewrite get_tab by (apply in_range4; assumption).
    cbn [shape bidx]. rewrite ?(bsel_lt Hb), ?(bsel_lt Hf), ?(bsel_lt Hi), ?Nat.eqb_refl.
    rewrite (get_weight4 0%R w' b f i Hs'), Hw' by assumption.
    reflexivity.
Qed.

Lemma Cconj_Csum_upto :
  forall n f, Cconj (Csum_upto n f) = Csum_upto n (fun k => Cconj (f k)).
Proof.
  intros n f. unfold Csum_upto. induction (seq 0 n) as [|a l IH].
  - unfold Cconj, Czero. cbn [fold_right re im]. f_equal. lra.
  - cbn [fold_right]. rewrite <- IH. unfold Cconj, Cadd. cbn [re im]. f_equal. lra.
Qed.

Lemma re_Csum_upto :
  forall n f, re (Csum_upto n f) = sum_upto n (fun k => re (f k)).
Proof.
  intros n f. unfold Csum_upto, sum_upto. induction (seq 0 n) as [|a l IH]; [reflexivity|].
  cbn [fold_right]. rewrite <- IH. reflexivity.
Qed.

Lemma im_Csum_upto :
  forall n f, im (Csum_upto n f) = sum_upto n (fun k => im (f k)).
Proof.
  intros n f. unfold Csum_upto, sum_upto. induction (seq 0 n) as [|a l IH]; [reflexivity|].
  cbn [fold_right]. rewrite <- IH. reflexivity.
Qed.

Lemma masked_weight_nonneg :
  forall weight input_length b f i,
    (0 <= get 0 weight [b; f; i])%R -> (0 <= masked_weight weight input_length b f i)%R.
Proof.
  intros weight input_length b f i H. unfold masked_weight.
  destruct input_length as [lengths|]; [|exact H].
  destruct (_ <? _)%Z; [exact H | lra].
Qed.

(** X16: the correlation matrix Q that [estimate_correlations] returns is
    Hermitian for any real weights, as the Cholesky decomposition of
    [estimate_filter] needs; with non-negative weights its diagonal is real
    and non-negative. *)
Theorem estimate_correlations_hermitian :
  forall (input : tensor complex) (weight : tensor R) (tilde_input : tensor complex)
         (input_length : option (tensor Z)) (B C F N L : nat),
    shape input = [B; C; F; N] -> shape weight = [B; F; N] ->
    shape tilde_input = [B; C; F; N; L] -> wf tilde_input ->
    lengths_fit input_length B ->
    exists Q R,
      WPEFilter.estimate_correlations input weight tilde_input input_length = Ok (Q, R) /\
      shape Q = [B; F; C; L; C; L] /\ shape R = [B; F; C; L; C] /\
      (forall b f j k m n, b < B -> f < F -> j < C -> k < L -> m < C -> n < L ->
         get Czero Q [b; f; j; k; m; n] = Cconj (get Czero Q [b; f; m; n; j; k])) /\
      ((forall b f i, b < B -> f < F -> i < N -> (0 <= get 0 weight [b; f; i])%R) ->
       forall b f j k, b < B -> f < F -> j < C -> k < L ->
         im (get Czero Q [b; f; j; k; j; k]) = 0%R /\
         (0 <= re (get Czero Q [b; f; j; k; j; k]))%R).
Proof.
  intros input weight tilde input_length B C F N L Hin Hw Ht Hwf Hlen.
  destruct (@estimate_correlations_entries input weight tilde input_length B C F N L
              Hin Hw Ht Hwf Hlen) as [Q [R [HQR [HsQ [HsR [_ [_ [HQ _]]]]]]]].
  exists Q, R. split; [exact HQR|]. split; [exact HsQ|]. split; [exact HsR|]. split.
  - intros b f j k m n Hb Hf Hj Hk Hm Hn.
    rewrite (HQ b f j k m n) by assumption. rewrite (HQ b f m n j k) by assumption.
    rewrite Cconj_Csum_upto. apply Csum_upto_ext. intros i Hi.
    unfold Cconj, Cmul, Cscale. cbn [re im]. f_equal; ring.
  - intros Hpos b f j k Hb Hf Hj Hk.
    rewrite (HQ b f j k j k) by assumption.
    rewrite im_Csum_upto, re_Csum_upto. split.
    + rewrite (@sum_upto_ext N _ (fun _ => 0%R)).
      * clear. unfold sum_upto. induction (seq 0 N); simpl; lra.
      * intros i Hi. unfold Cconj, Cmul, Cscale. cbn [re im]. ring.
    + apply sum_upto_nonneg. intros i Hi.
      unfold Cconj, Cmul, Cscale. cbn [re im].
      pose proof (masked_weight_nonneg weight input_length b f i (Hpos b f i Hb Hf Hi)) as Hm.
      set (w := masked_weight weight input_length b f i) in *.
      set (x := re (get Czero tilde [b; j; f; i; k])).
      set (y := im (get Czero tilde [b; j; f; i; k])).
      replace (x * (w * x) - - y * (w * y))%R with (w * (x * x + y * y))%R by ring.
      apply Rmult_le_pos; [exact Hm | nra].
Qed.

Lemma estimate_correlations_hermitian_witness :
  exists Q R,
    WPEFilter.estimate_correlations Examples.two_channels MoreExamples.unit_weight
      MoreExamples.two_channel_taps None = Ok (Q, R) /\
    shape Q = [1; 1; 2; 1; 2; 1] /\ shape R = [1; 1; 2; 1; 2] /\
    (forall b f j k m n, b < 1 -> f < 1 -> j < 2 -> k < 1 -> m < 2 -> n < 1 ->
       get Czero Q [b; f; j; k; m; n] = Cconj (get Czero Q [b; f; m; n; j; k])) /\
    ((forall b f i, b < 1 -> f < 1 -> i < 1 ->
        (0 <= get 0 MoreExamples.unit_weight [b; f; i])%R) ->
     forall b f j k, b < 1 -> f < 1 -> j < 2 -> k < 1 ->
       im (get Czero Q [b; f; j; k; j; k]) = 0%R /\
       (0 <= re (get Czero Q [b; f; j; k; j; k]))%R).
Proof.
  apply (@estimate_correlations_hermitian Examples.two_channels MoreExamples.unit_weight
           MoreExamples.two_channel_taps None 1 2 1 1 1);
    first [reflexivity | exact I].
Defined.

Lemma estimate_filter_shape :
  forall cholesky solve_triangular (self : WPEFilter.t) (Q R G : tensor complex) (B F C L : nat),
    shape Q = [B; F; C; L; C; L] ->
    WPEFilter.estimate_filter cholesky solve_triangular self Q R = Ok G ->
    shape G = [B; C; F; C; L].
Proof.
  intros cholesky solve_triangular self Q R G B F C L HQ.
  unfold WPEFilter.estimate_filter. rewrite HQ.
  destruct (assert _ _) as [u|e]; cbn [bind]; [|discriminate].
  destruct (reshape _ Q) as [Q1|e]; cbn [bind]; [|discriminate].
  destruct (reshape _ R) as [R1|e]; cbn [bind]; [|discriminate].
  destruct (WPEFilter.regularize self Q1) as [Q2|e]; cbn [bind]; [|discriminate].
  destruct (WPEFilter.cholesky_solve cholesky solve_triangular Q2 R1) as [G1|e];
    cbn [bind]; [|discriminate].
  unfold reshape. destruct (_ =? _); cbn [bind]; [|discriminate].
  unfold WPEFilter.permute_04123. cbn [shape].
  intro H. injection H as <-. apply shape_tab.
Qed.

Lemma Csum_upto_zero : forall n f, (forall k, k < n -> f k = Czero) -> Csum_upto n f = Czero.
Proof.
  intros n f H. rewrite (@Csum_upto_ext n f (fun _ => Czero) H).
  unfold Csum_upto. induction (seq 0 n) as [|a l IH]; [reflexivity|].
  cbn [fold_right]. rewrite IH. unfold Cadd, Czero. cbn [re im]. f_equal; lra.
Qed.

Lemma Cmul_zero_l : forall c, Cmul Czero c = Czero.
Proof. intros c. unfold Cmul, Czero. cbn [re im]. f_equal; ring. Qed.

Lemma Csub_zero_r : forall c, Csub c Czero = c.
Proof. intros [x y]. unfold Csub, Czero. cbn [re im]. f_equal; ring. Qed.


Section WPEForward.
Variable cholesky : tensor complex -> result (tensor complex).
Variable solve_triangular : tensor complex -> tensor complex -> bool -> result (tensor complex).

(** [forward], from the estimated filter on. *)
Lemma wpe_forward_entries :
  forall (self : WPEFilter.t) (input : tensor complex) (power : tensor R)
         (input_length : option (tensor Z)) (B C F N : nat) r,
    shape input = [B; C; F; N] -> shape power = [B; C; F; N] ->
    lengths_fit input_length B ->
    (1 <= WPEFilter.filter_length self)%Z -> (0 <= WPEFilter.prediction_delay self)%Z ->
    0 < N ->
    WPEFilter.forward cholesky solve_triangular self input power input_length = Ok r ->
    exists tilde G,
      convtensor Czero input (WPEFilter.filter_length self) (WPEFilter.prediction_delay self) None
        = Ok tilde /\
      shape G = [B; C; F; C; Z.to_nat (WPEFilter.filter_length self)] /\
      snd r = input_length /\
      shape (fst r) = [B; C; F; N] /\ wf (fst r) /\
      forall b c f t, b < B -> c < C -> f < F -> t < N ->
        get Czero (fst r) [b; c; f; t]
        = if valid_frame input_length b t
          then Csub (get Czero input [b; c; f; t])
                 (Csum_upto C (fun j =>
                    Csum_upto (Z.to_nat (WPEFilter.filter_length self)) (fun k =>
                      Cmul (get Czero tilde [b; j; f; t; k]) (get Czero G [b; c; f; j; k]))))
          else Czero.
Proof.
  intros self input power input_length B C F N r Hin Hp Hlen HL Hd HN.
  unfold WPEFilter.forward, WPEFilter.mean_channels. rewrite Hp. cbn [bind].
  destruct (@convtensor_default_steps complex Czero input B C F N
              (WPEFilter.filter_length self) (WPEFilter.prediction_delay self) Hin HL Hd HN)
    as [tilde [Ht [Hst [Hwt _]]]].
  rewrite Ht. cbn [bind].
  destruct (@estimate_correlations_entries input
              (tmap (fun w => (1 / (w + WPEFilter.eps self))%R)
                 (tab [B; F; N]
                    (fun idx => match idx with
                                | [b; f; t] =>
                                    (sum_upto C (fun c => get 0%R power [b; c; f; t]) / INR C)%R
                                | _ => 0%R
                                end)))
              tilde input_length B C F N (Z.to_nat (WPEFilter.filter_length self))
              Hin ltac:(rewrite shape_tmap; apply shape_tab) Hst Hwt Hlen)
    as [Q [R [HQR [HsQ [HsR _]]]]].
  rewrite HQR. cbn [bind fst snd].
  destruct (WPEFilter.estimate_filter cholesky solve_triangular self Q R) as [G|e] eqn:EG;
    cbn [bind]; [|discriminate].
  pose proof (estimate_filter_shape _ _ _ _ _ HsQ EG) as HsG.
  unfold WPEFilter.apply_filter, WPEFilter.einsum_apply. rewrite Hst, HsG.
  rewrite !Nat.eqb_refl. cbn [andb bind].
  rewrite broadcast2_same_shape by (rewrite shape_tab; symmetry; exact Hin).
  cbn [bind]. rewrite Hin.
  intro H. exists tilde, G. split; [reflexivity|]. split; [exact HsG|]. revert H.
  destruct input_length as [lengths|]; cbn [lengths_fit valid_frame] in *.
  - match goal with
    | |- context [WPEFilter.mask_padded_frames Czero ?x lengths] =>
        destruct (@mask_padded_frames_entries complex Czero x lengths B [C; F; N]
                    (shape_tab _ _) ltac:(discriminate) Hlen)
          as [y [Hy [Hsy [Hwy Hey]]]]
    end.
    rewrite Hy. cbn [bind]. intro H. injection H as <-. cbn [fst snd].
    split; [reflexivity|]. split; [rewrite Hsy; apply shape_tab|]. split; [exact Hwy|].
    intros b c f t Hb Hc Hf Ht'.
    rewrite Hey by (rewrite shape_tab; apply in_range4; assumption).
    cbn [last hd].
    destruct (Z.of_nat t <? get 0%Z lengths [b])%Z; [|reflexivity].
    rewrite get_tab by (apply in_range4; assumption).
    rewrite get_tab by (apply in_range4; assumption). reflexivity.
  - cbn [bind]. intro H. injection H as <-. cbn [fst snd].
    split; [reflexivity|]. split; [apply shape_tab|]. split; [apply wf_tab|].
    intros b c f t Hb Hc Hf Ht'.
    rewrite get_tab by (apply in_range4; assumption).
    rewrite get_tab by (apply in_range4; assumption). reflexivity.
Qed.

End WPEForward.

Section WPEForwardTheorems.
Variable cholesky : tensor complex -> result (tensor complex).
Variable solve_triangular : tensor complex -> tensor complex -> bool -> result (tensor complex).

(** X17: whenever [forward] returns, the output has the shape of the input
    and the lengths are returned unchanged; every frame at or beyond the
    valid length is zero, and the first [prediction_delay] valid frames are
    the input itself, whatever filter the backend gave: the prediction for
    them uses no sample (in exact arithmetic). *)
Theorem wpe_forward_keeps_early_frames :
  forall (self : WPEFilter.t) (input : tensor complex) (power : tensor R)
         (input_length : option (tensor Z)) (B C F N : nat) output output_length,
    shape input = [B; C; F; N] -> shape power = [B; C; F; N] ->
    lengths_fit input_length B ->
    (1 <= WPEFilter.filter_length self)%Z -> (0 <= WPEFilter.prediction_delay self)%Z ->
    0 < N ->
    WPEFilter.forward cholesky solve_triangular self input power input_length
      = Ok (output, output_length) ->
    output_length = input_length /\
    shape output = [B; C; F; N] /\
    forall b c f t, b < B -> c < C -> f < F -> t < N ->
      (valid_frame input_length b t = false -> get Czero output [b; c; f; t] = Czero) /\
      (valid_frame input_length b t = true ->
       (Z.of_nat t < WPEFilter.prediction_delay self)%Z ->
       get Czero output [b; c; f; t] = get Czero input [b; c; f; t]).
Proof.
  intros self input power input_length B C F N output output_length
         Hin Hp Hlen HL Hd HN Hf.
  destruct (@wpe_forward_entries cholesky solve_triangular self input power input_length
              B C F N (output, output_length) Hin Hp Hlen HL Hd HN Hf)
    as [tilde [G [Ht [HsG [Hl [Hs [_ He]]]]]]].
  cbn [fst snd] in *.
  split; [exact Hl|]. split; [exact Hs|].
  intros b c f t Hb Hc Hf' Ht'. rewrite (He b c f t Hb Hc Hf' Ht'). split.
  - intros ->. reflexivity.
  - intros -> Hearly.
    destruct (@convtensor_default_steps complex Czero input B C F N
                (WPEFilter.filter_length self) (WPEFilter.prediction_delay self) Hin HL Hd HN)
      as [tilde' [Ht2 [_ [_ Hent]]]].
    rewrite Ht in Ht2. injection Ht2 as <-.
    rewrite Csum_upto_zero; [apply Csub_zero_r|].
    intros j Hj. apply Csum_upto_zero. intros k Hk.
    rewrite (Hent b j f t k Hb Hj Hf' Ht' Hk). cbv zeta.
    destruct (Z.leb_spec 0 (Z.of_nat t - WPEFilter.prediction_delay self
                            - (WPEFilter.filter_length self - 1) + Z.of_nat k)); [lia|].
    apply Cmul_zero_l.
Qed.

(** A backend that returns results of the shapes of the factorisation and
    of the solves. *)
Hypothesis cholesky_returns :
  forall Q, exists QL, cholesky Q = Ok QL /\ shape QL = shape Q.
Hypothesis solve_triangular_returns :
  forall A B upper, exists G, solve_triangular A B upper = Ok G /\ shape G = shape B.

Lemma wpe_forward_returns :
  forall (self : WPEFilter.t) (input : tensor complex) (power : tensor R)
         (input_length : option (tensor Z)) (B C F N : nat),
    shape input = [B; C; F; N] -> shape power = [B; C; F; N] ->
    lengths_fit input_length B ->
    (1 <= WPEFilter.filter_length self)%Z -> (0 <= WPEFilter.prediction_delay self)%Z ->
    0 < N ->
    exists output,
      WPEFilter.forward cholesky solve_triangular self input power input_length
        = Ok (output, input_length) /\
      shape output = [B; C; F; N].
Proof.
  intros self input power input_length B C F N Hin Hp Hlen HL Hd HN.
  unfold WPEFilter.forward, WPEFilter.mean_channels. rewrite Hp. cbn [bind].
  destruct (@convtensor_default_steps complex Czero input B C F N
              (WPEFilter.filter_length self) (WPEFilter.prediction_delay self) Hin HL Hd HN)
    as [tilde [Ht [Hst [Hwt _]]]].
  rewrite Ht. cbn [bind].
  match goal with
  | |- context [WPEFilter.estimate_correlations input ?w tilde input_length] =>
      destruct (@estimate_correlations_entries input w tilde input_length B C F N
                  (Z.to_nat (WPEFilter.filter_length self))
                  Hin ltac:(rewrite shape_tmap; apply shape_tab) Hst Hwt Hlen)
        as [Q [R [HQR [HsQ [HsR _]]]]]
  end.
  rewrite HQR. cbn [bind fst snd].
  set (L := Z.to_nat (WPEFilter.filter_length self)) in *.
  assert (HG : exists G, WPEFilter.estimate_filter cholesky solve_triangular self Q R = Ok G).
  { unfold WPEFilter.estimate_filter. rewrite HsQ.
    replace (Z.of_nat L =? WPEFilter.filter_length self)%Z with true
      by (symmetry; apply Z.eqb_eq; subst L; lia).
    cbn [assert bind].
    replace (Z.to_nat (Z.of_nat C * WPEFilter.filter_length self)) with (C * L)
      by (subst L; lia).
    rewrite reshape_ok by (rewrite HsQ; apply numel_square). cbn [bind].
    rewrite reshape_ok by (rewrite HsR; apply numel_rhs). cbn [bind].
    destruct (@regularize_entries self (mkTensor [B; F; C * L; C * L] (data Q)) B F (C * L)
                eq_refl) as [Q' [HQ' [HsQ' _]]].
    rewrite HQ'. cbn [bind]. unfold WPEFilter.cholesky_solve.
    destruct (cholesky_returns Q') as [QL [HQL HsQL]]. rewrite HQL. cbn [bind].
    destruct (solve_triangular_returns QL (mkTensor [B; F; C * L; C] (data R)) false)
      as [G1 [HG1 HsG1]].
    rewrite HG1. cbn [bind]. unfold WPEFilter.conj_transpose. rewrite HsQL, HsQ'. cbn [bind].
    match goal with
    | |- context [solve_triangular ?a G1 true] =>
        destruct (solve_triangular_returns a G1 true) as [G2 [HG2 HsG2]]
    end.
    rewrite HG2. cbn [bind].
    rewrite reshape_ok
      by (rewrite HsG2, HsG1; cbn [shape]; symmetry; apply numel_rhs).
    cbn [bind]. unfold WPEFilter.permute_04123. cbn [shape]. eexists. reflexivity. }
  destruct HG as [G HG]. rewrite HG. cbn [bind].
  pose proof (estimate_filter_shape _ _ _ _ _ HsQ HG) as HsG.
  unfold WPEFilter.apply_filter, WPEFilter.einsum_apply. rewrite Hst, HsG.
  rewrite !Nat.eqb_refl. cbn [andb bind].
  rewrite broadcast2_same_shape by (rewrite shape_tab; symmetry; exact Hin).
  cbn [bind]. rewrite Hin.
  destruct input_length as [lengths|]; cbn [lengths_fit] in *.
  - match goal with
    | |- context [WPEFilter.mask_padded_frames Czero ?x lengths] =>
        destruct (@mask_padded_frames_entries complex Czero x lengths B [C; F; N]
                    (shape_tab _ _) ltac:(discriminate) Hlen)
          as [y [Hy [Hsy [_ _]]]]
    end.
    rewrite Hy. cbn [bind]. exists y. split; [reflexivity|].
    rewrite Hsy. apply shape_tab.
  - cbn [bind]. eexists. split; [reflexivity | apply shape_tab].
Qed.

End WPEForwardTheorems.


Lemma stub_cholesky_returns :
  forall Q, exists QL, MoreExamples.stub_cholesky Q = Ok QL /\ shape QL = shape Q.
Proof. intros Q. exists Q. split; reflexivity. Qed.

Lemma stub_solve_returns :
  forall A B upper,
    exists G, MoreExamples.stub_solve_triangular A B upper = Ok G /\ shape G = shape B.
Proof. intros A B upper. exists B. split; reflexivity. Qed.

Lemma wpe_forward_keeps_early_frames_witness :
  exists output,
    WPEFilter.forward MoreExamples.stub_cholesky MoreExamples.stub_solve_triangular
      MoreExamples.wpe31 (values Examples.complex_input) MoreExamples.unit_power None
      = Ok (output, None) /\
    shape output = [1; 1; 1; 2] /\
    forall b c f t, b < 1 -> c < 1 -> f < 1 -> t < 2 ->
      (valid_frame None b t = false -> get Czero output [b; c; f; t] = Czero) /\
      (valid_frame None b t = true ->
       (Z.of_nat t < WPEFilter.prediction_delay MoreExamples.wpe31)%Z ->
       get Czero output [b; c; f; t] = get Czero (values Examples.complex_input) [b; c; f; t]).
Proof.
  destruct (@wpe_forward_returns MoreExamples.stub_cholesky MoreExamples.stub_solve_triangular
              stub_cholesky_returns stub_solve_returns
              MoreExamples.wpe31 (values Examples.complex_input) MoreExamples.unit_power None
              1 1 1 2 eq_refl eq_refl I ltac:(simpl; lia) ltac:(simpl; lia) ltac:(lia))
    as [output [Hf Hs]].
  exists output. split; [exact Hf|].
  exact (proj2 (@wpe_forward_keeps_early_frames MoreExamples.stub_cholesky
                  MoreExamples.stub_solve_triangular
                  MoreExamples.wpe31 (values Examples.complex_input) MoreExamples.unit_power None
                  1 1 1 2 output None eq_refl eq_refl I
                  ltac:(simpl; lia) ltac:(simpl; lia) ltac:(lia) Hf)).
Defined.

(** X18: [apply_filter] on an input is a causal FIR filter: the output at
    frame [t] sums, over the input channels and the taps, the samples at
    frames [t - prediction_delay - (filter_length - 1) + k], none of them later
    than [t - prediction_delay]; samples before the start count as zero.
    Giving both or neither of [input] and [tilde_input] raises. *)
Theorem apply_filter_is_causal_fir :
  forall (self : WPEFilter.t) (filter input : tensor complex) (B C M F N : nat),
    shape input = [B; C; F; N] ->
    shape filter = [B; M; F; C; Z.to_nat (WPEFilter.filter_length self)] ->
    (1 <= WPEFilter.filter_length self)%Z -> (0 <= WPEFilter.prediction_delay self)%Z ->
    0 < N ->
    (exists output,
       WPEFilter.apply_filter self filter (Some input) None = Ok output /\
       shape output = [B; M; F; N] /\
       forall b m f t, b < B -> m < M -> f < F -> t < N ->
         get Czero output [b; m; f; t]
         = Csum_upto C (fun j =>
             Csum_upto (Z.to_nat (WPEFilter.filter_length self)) (fun k =>
               Cmul (past_sample input b j f
                       (Z.of_nat t - WPEFilter.prediction_delay self
                        - (WPEFilter.filter_length self - 1) + Z.of_nat k))
                    (get Czero filter [b; m; f; j; k])))) /\
    WPEFilter.apply_filter self filter None None
      = Err (RuntimeError "Both inputs cannot be None simultaneously.") /\
    (forall tilde_input,
       WPEFilter.apply_filter self filter (Some input) (Some tilde_input)
       = Err (RuntimeError "Both inputs cannot be provided simultaneously.")).
Proof.
  intros self filter input B C M F N Hin Hf HL Hd HN.
  split; [|split; [reflexivity | intros; reflexivity]].
  unfold WPEFilter.apply_filter.
  destruct (@convtensor_default_steps complex Czero input B C F N
              (WPEFilter.filter_length self) (WPEFilter.prediction_delay self) Hin HL Hd HN)
    as [tilde [Ht [Hst [_ Hent]]]].
  rewrite Ht. cbn [bind]. unfold WPEFilter.einsum_apply. rewrite Hst, Hf.
  rewrite !Nat.eqb_refl. cbn [andb].
  eexists. split; [reflexivity|]. split; [reflexivity|].
  intros b m f t Hb Hm Hf' Ht'.
  rewrite get_tab by (apply in_range4; assumption).
  apply Csum_upto_ext. intros j Hj. apply Csum_upto_ext. intros k Hk.
  rewrite (Hent b j f t k Hb Hj Hf' Ht' Hk). reflexivity.
Qed.

Lemma apply_filter_is_causal_fir_witness :
  (exists output,
     WPEFilter.apply_filter MoreExamples.wpe31 MoreExamples.three_taps
       (Some (values Examples.complex_input)) None = Ok output /\
     shape output = [1; 1; 1; 2] /\
     forall b m f t, b < 1 -> m < 1 -> f < 1 -> t < 2 ->
       get Czero output [b; m; f; t]
       = Csum_upto 1 (fun j =>
           Csum_upto (Z.to_nat (WPEFilter.filter_length MoreExamples.wpe31)) (fun k =>
             Cmul (past_sample (values Examples.complex_input) b j f
                     (Z.of_nat t - WPEFilter.prediction_delay MoreExamples.wpe31
                      - (WPEFilter.filter_length MoreExamples.wpe31 - 1) + Z.of_nat k))
                  (get Czero MoreExamples.three_taps [b; m; f; j; k])))) /\
  WPEFilter.apply_filter MoreExamples.wpe31 MoreExamples.three_taps None None
    = Err (RuntimeError "Both inputs cannot be None simultaneously.") /\
  (forall tilde_input,
     WPEFilter.apply_filter MoreExamples.wpe31 MoreExamples.three_taps
       (Some (values Examples.complex_input)) (Some tilde_input)
     = Err (RuntimeError "Both inputs cannot be provided simultaneously.")).
Proof.
  apply (@apply_filter_is_causal_fir MoreExamples.wpe31 MoreExamples.three_taps
           (values Examples.complex_input) 1 1 1 1 2);
    first [reflexivity | simpl; lia].
Defined.

(** ** permute_convtensor *)

Lemma tap_permutation_blocks :
  forall C L,
    tap_permutation C L
    = flat_map (fun m => map (fun i => m * L + i) (rev (seq 0 L))) (seq 0 C).
Proof.
  intros C L. unfold tap_permutation.
  assert (H : forall n s acc,
            List.length acc = s * L ->
            fold_left
              (fun permute m =>
                 slice_assign permute (m * L) ((m + 1) * L)
                   (map (fun i => m * L + i) (rev (seq 0 L))))
              (seq s n) acc
            = acc ++ flat_map (fun m => map (fun i => m * L + i) (rev (seq 0 L))) (seq s n)).
  { induction n as [|n IH]; intros s acc Hlen.
    - cbn. rewrite app_nil_r. reflexivity.
    - cbn [seq fold_left flat_map]. rewrite IH.
      + unfold slice_assign. rewrite firstn_all2 by lia. rewrite skipn_all2 by lia.
        rewrite app_nil_r, <- app_assoc. reflexivity.
      + unfold slice_assign. rewrite firstn_all2 by lia. rewrite skipn_all2 by lia.
        rewrite app_nil_r, length_app, length_map, length_rev, length_seq. lia. }
  rewrite (H C 0 []) by reflexivity. reflexivity.
Qed.

Lemma nth_flipped_block :
  forall L m l, l < L -> nth l (map (fun i => m * L + i) (rev (seq 0 L))) 0 = m * L + (L - 1 - l).
Proof.
  intros L m l Hl.
  rewrite (nth_indep _ 0 ((fun i => m * L + i) 0))
    by (rewrite length_map, length_rev, length_seq; exact Hl).
  rewrite map_nth. f_equal.
  rewrite rev_nth by (rewrite length_seq; exact Hl).
  rewrite length_seq, seq_nth by lia. lia.
Qed.

Lemma nth_tap_permutation :
  forall C L c l, c < C -> l < L -> nth (c * L + l) (tap_permutation C L) 0 = c * L + (L - 1 - l).
Proof.
  intros C L c l Hc Hl. rewrite tap_permutation_blocks.
  assert (H : forall n s c, c < n ->
            nth (c * L + l)
              (flat_map (fun m => map (fun i => m * L + i) (rev (seq 0 L))) (seq s n)) 0
            = (s + c) * L + (L - 1 - l)).
  { induction n as [|n IH]; intros s c' Hc'; [lia|].
    cbn [seq flat_map]. destruct c' as [|c'].
    - rewrite app_nth1 by (rewrite length_map, length_rev, length_seq; simpl; lia).
      cbn [Nat.mul Nat.add]. rewrite nth_flipped_block by exact Hl. f_equal. lia.
    - rewrite app_nth2 by (rewrite length_map, length_rev, length_seq; simpl; lia).
      rewrite length_map, length_rev, length_seq.
      replace (S c' * L + l - L) with (c' * L + l) by (simpl; lia).
      rewrite IH by lia. lia. }
  rewrite (H C 0 c Hc). reflexivity.
Qed.

Lemma length_tap_permutation : forall C L, List.length (tap_permutation C L) = C * L.
Proof.
  intros C L. rewrite tap_permutation_blocks.
  assert (H : forall n s,
            List.length (flat_map (fun m => map (fun i => m * L + i) (rev (seq 0 L))) (seq s n))
            = n * L).
  { induction n as [|n IH]; intros s; [reflexivity|].
    cbn [seq flat_map]. rewrite length_app, length_map, length_rev, length_seq, IH. simpl. lia. }
  apply H.
Qed.

Lemma tap_permutation_in_range :
  forall C L, forallb (fun i => i <? C * L) (tap_permutation C L) = true.
Proof.
  intros C L. apply forallb_forall. intros i Hi. rewrite tap_permutation_blocks in Hi.
  apply in_flat_map in Hi. destruct Hi as [m [Hm Hi]].
  apply in_map_iff in Hi. destruct Hi as [k [<- Hk]].
  apply in_seq in Hm. apply in_rev in Hk. apply in_seq in Hk.
  apply Nat.ltb_lt. nia.
Qed.

Lemma get_merge_last :
  forall (A : Type) (d : A) (l : list A) B F N C L b f t c k,
    k < L ->
    get d (mkTensor [B; F; N; C * L] l) [b; f; t; c * L + k]
    = get d (mkTensor [B; F; N; C; L] l) [b; f; t; c; k].
Proof.
  intros. unfold get. cbn [shape data flat_index numel fold_right]. f_equal. lia.
Qed.

(** X19: [permute_convtensor] applied to the convolution tensor gives the
    layout of a multichannel convolution matrix: of shape
    (B, F, N, C * filter_length), where column [c * filter_length + l] holds
    channel [c] delayed by [delay + l] frames (zero before the start), so
    that the taps of each channel run from the most recent sample back. *)
Theorem permute_convtensor_layout :
  forall (A : Type) (zero : A) (x : tensor A) (B C F N : nat) (filter_length delay : Z),
    shape x = [B; C; F; N] ->
    (1 <= filter_length)%Z -> (0 <= delay)%Z -> 0 < N ->
    exists tilde_x y,
      convtensor zero x filter_length delay None = Ok tilde_x /\
      permute_convtensor zero tilde_x = Ok y /\
      shape y = [B; F; N; C * Z.to_nat filter_length] /\
      forall b c f t l,
        b < B -> c < C -> f < F -> t < N -> l < Z.to_nat filter_length ->
        get zero y [b; f; t; c * Z.to_nat filter_length + l] =
          let s := (Z.of_nat t - delay - Z.of_nat l)%Z in
          if (0 <=? s)%Z then get zero x [b; c; f; Z.to_nat s] else zero.
Proof.
  intros A zero x B C F N L delay Hs HL Hd HN.
  destruct (@convtensor_default_steps A zero x B C F N L delay Hs HL Hd HN)
    as [tilde [Ht [Hst [_ Hent]]]].
  exists tilde. unfold permute_convtensor. rewrite Hst.
  rewrite reshape_ok by (rewrite shape_tab; simpl; lia). cbn [bind].
  unfold index_last. cbn [shape]. rewrite tap_permutation_in_range, length_tap_permutation.
  eexists. split; [exact Ht|]. split; [reflexivity|]. split; [reflexivity|].
  intros b c f t l Hb Hc Hf Ht' Hl.
  rewrite get_tab by (apply in_range4; try assumption; nia).
  rewrite nth_tap_permutation by assumption.
  unfold tab at 1. cbn [data].
  rewrite get_merge_last by lia.
  change (mkTensor [B; F; N; C; Z.to_nat L]
            (map (fun idx => match idx with
                             | [b0; f0; t0; c0; l0] => get zero tilde [b0; c0; f0; t0; l0]
                             | _ => zero
                             end) (indices [B; F; N; C; Z.to_nat L])))
    with (tab [B; F; N; C; Z.to_nat L]
            (fun idx => match idx with
                        | [b0; f0; t0; c0; l0] => get zero tilde [b0; c0; f0; t0; l0]
                        | _ => zero
                        end)).
  rewrite get_tab by (apply in_range5; try assumption; lia).
  rewrite (Hent b c f t (Z.to_nat L - 1 - l) Hb Hc Hf Ht' ltac:(lia)). cbv zeta.
  replace (Z.of_nat t - delay - (L - 1) + Z.of_nat (Z.to_nat L - 1 - l))%Z
    with (Z.of_nat t - delay - Z.of_nat l)%Z by lia.
  reflexivity.
Qed.

Lemma permute_convtensor_layout_witness :
  exists tilde_x y,
    convtensor 0%Z (tab [1; 1; 1; 3] (fun idx => Z.of_nat (S (last idx 0)))) 2 1 None
      = Ok tilde_x /\
    permute_convtensor 0%Z tilde_x = Ok y /\
    shape y = [1; 1; 3; 1 * Z.to_nat 2] /\
    forall b c f t l,
      b < 1 -> c < 1 -> f < 1 -> t < 3 -> l < Z.to_nat 2 ->
      get 0%Z y [b; f; t; c * Z.to_nat 2 + l] =
        let s := (Z.of_nat t - 1 - Z.of_nat l)%Z in
        if (0 <=? s)%Z
        then get 0%Z (tab [1; 1; 1; 3] (fun idx => Z.of_nat (S (last idx 0)))) [b; c; f; Z.to_nat s]
        else 0%Z.
Proof.
  apply (@permute_convtensor_layout Z 0%Z
           (tab [1; 1; 1; 3] (fun idx => Z.of_nat (S (last idx 0)))) 1 1 1 3 2 1);
    [reflexivity | lia | lia | lia].
Defined.

Example permute_convtensor_example :
  (tilde_x <- convtensor 0%Z (tab [1; 1; 1; 3] (fun idx => Z.of_nat (S (last idx 0)))) 2 1 None ;;
   permute_convtensor 0%Z tilde_x)
  = Ok (mkTensor [1; 1; 3; 2] [0; 0; 1; 0; 2; 1]%Z).
Proof. vm_compute. reflexivity. Qed.

(** ** MaskBasedDereverbWPE.forward: shape and data type *)

Section DereverbShape.
Variable cholesky : tensor complex -> result (tensor complex).
Variable solve_triangular : tensor complex -> tensor complex -> bool -> result (tensor complex).

Variable self : MaskBasedDereverbWPE.t.
Variable input_length : option (tensor Z).
Variable mask : option (tensor R).
Variables B C F N : nat.
Hypothesis mask_shape : mask_fits mask B C F N.
Hypothesis lengths_shape : lengths_fit input_length B.
Hypothesis filter_length_pos : (1 <= WPEFilter.filter_length (MaskBasedDereverbWPE.filter self))%Z.
Hypothesis delay_nonneg : (0 <= WPEFilter.prediction_delay (MaskBasedDereverbWPE.filter self))%Z.
Hypothesis some_frames : 0 < N.

(** What holds of the output after an iteration. *)
Let processed (st : MaskBasedDereverbWPE.locals) : Prop :=
  shape (MaskBasedDereverbWPE.output st) = [B; C; F; N] /\
  wf (MaskBasedDereverbWPE.output st) /\
  MaskBasedDereverbWPE.output_length st = Some input_length /\
  forall b c f t, b < B -> c < C -> f < F -> t < N ->
    valid_frame input_length b t = false ->
    get Czero (MaskBasedDereverbWPE.output st) [b; c; f; t] = Czero.

(** The power that an iteration passes to the filter has the shape of the
    signal. *)
Lemma iteration_power :
  forall i (output : tensor complex),
    shape output = [B; C; F; N] ->
    exists magnitude,
      match mask with
      | Some mask =>
          if i =? 0
          then broadcast2 0%R 0%R Rmult
                 (tmap (clamp (MaskBasedDereverbWPE.mask_min self)
                          (MaskBasedDereverbWPE.mask_max self)) mask)
                 (tmap Cabs output)
          else Ok (tmap Cabs output)
      | None => Ok (tmap Cabs output)
      end = Ok magnitude /\
      shape magnitude = [B; C; F; N].
Proof.
  intros i output Hs.
  destruct mask as [m|]; [destruct (i =? 0)|].
  - destruct mask_shape as [Hm|Hm].
    + rewrite broadcast2_expand_l
        by (rewrite !shape_tmap, Hm, Hs; apply expandable_channel).
      eexists. split; [reflexivity|]. rewrite shape_tab, shape_tmap. exact Hs.
    + rewrite broadcast2_same_shape by (rewrite !shape_tmap, Hm, Hs; reflexivity).
      eexists. split; [reflexivity|]. rewrite shape_tab, shape_tmap. exact Hm.
  - eexists. split; [reflexivity|]. rewrite shape_tmap. exact Hs.
  - eexists. split; [reflexivity|]. rewrite shape_tmap. exact Hs.
Qed.

Lemma iteration_processed :
  forall i st st',
    shape (MaskBasedDereverbWPE.output st) = [B; C; F; N] ->
    MaskBasedDereverbWPE.iteration cholesky solve_triangular self input_length mask i st
      = Ok st' ->
    processed st'.
Proof.
  intros i st st' Hs. unfold MaskBasedDereverbWPE.iteration.
  destruct (@iteration_power i _ Hs) as [magnitude [-> Hsm]]. cbn [bind].
  destruct (WPEFilter.forward _ _ _ _ _ _) as [r|e] eqn:Er; cbn [bind]; [|discriminate].
  intro H. injection H as <-.
  destruct (@wpe_forward_entries cholesky solve_triangular (MaskBasedDereverbWPE.filter self)
              (MaskBasedDereverbWPE.output st) (tmap (fun m => (m ^ 2)%R) magnitude)
              input_length B C F N r Hs ltac:(rewrite shape_tmap; exact Hsm)
              lengths_shape filter_length_pos delay_nonneg some_frames Er)
    as [tilde [G [_ [_ [Hl [Hsr [Hwr He]]]]]]].
  unfold processed. cbn [MaskBasedDereverbWPE.output MaskBasedDereverbWPE.output_length].
  split; [exact Hsr|]. split; [exact Hwr|]. split; [rewrite Hl; reflexivity|].
  intros b c f t Hb Hc Hf Ht Hv. rewrite (He b c f t Hb Hc Hf Ht), Hv. reflexivity.
Qed.

Lemma iterations_processed :
  forall n i st st',
    shape (MaskBasedDereverbWPE.output st) = [B; C; F; N] ->
    MaskBasedDereverbWPE.iterations cholesky solve_triangular self input_length mask (S n) i st
      = Ok st' ->
    processed st'.
Proof.
  induction n as [|n IH]; intros i st st' Hs.
  - cbn [MaskBasedDereverbWPE.iterations].
    destruct (MaskBasedDereverbWPE.iteration _ _ _ _ _ _ _) as [st1|e] eqn:E1;
      cbn [bind]; [|discriminate].
    intro H. injection H as <-. exact (@iteration_processed i st _ Hs E1).
  - change (MaskBasedDereverbWPE.iterations cholesky solve_triangular self input_length mask
              (S (S n)) i st)
      with (st1 <- MaskBasedDereverbWPE.iteration cholesky solve_triangular self input_length
                     mask i st ;;
            MaskBasedDereverbWPE.iterations cholesky solve_triangular self input_length mask
              (S n) (S i) st1).
    destruct (MaskBasedDereverbWPE.iteration _ _ _ _ _ _ _) as [st1|e] eqn:E1;
      cbn [bind]; [|discriminate].
    apply IH. exact (proj1 (@iteration_processed i st _ Hs E1)).
Qed.

(** X20: whenever [forward] returns for an input of shape (B, C, F, N), with
    a mask of shape (B, 1, F, N) or (B, C, F, N) or none, the output has the
    data type and the shape of the input, the lengths are returned
    unchanged, and every frame at or beyond the valid length is zero. *)
Theorem dereverb_forward_keeps_shape_and_dtype :
  forall (input : dtensor complex) output output_length,
    dtype_is_complex (MaskBasedDereverbWPE.dtype_ self) = true ->
    shape (values input) = [B; C; F; N] ->
    MaskBasedDereverbWPE.forward cholesky solve_triangular self input input_length mask
      = Ok (output, output_length) ->
    dtype_of output = dtype_of input /\
    shape (values output) = [B; C; F; N] /\
    output_length = input_length /\
    forall b c f t, b < B -> c < C -> f < F -> t < N ->
      valid_frame input_length b t = false ->
      get Czero (values output) [b; c; f; t] = Czero.
Proof.
  intros input output output_length Hc Hin.
  rewrite (@dereverb_forward_unfold cholesky solve_triangular self input input_length mask Hc).
  destruct (Z.to_nat (MaskBasedDereverbWPE.num_iterations self)) as [|n].
  - cbn. discriminate.
  - destruct (MaskBasedDereverbWPE.iterations _ _ _ _ _ _ _ _) as [st|e] eqn:E;
      cbn [bind]; [|discriminate].
    assert (H0 : shape (MaskBasedDereverbWPE.output
                          (MaskBasedDereverbWPE.mkLocals
                             (values (to_dtype Creal_part (MaskBasedDereverbWPE.dtype_ self) input))
                             None)) = [B; C; F; N]).
    { cbn [MaskBasedDereverbWPE.output]. unfold to_dtype. rewrite Hc. exact Hin. }
    destruct (@iterations_processed n 0 _ _ H0 E) as [Hs [Hw [Hl Hz]]].
    rewrite Hl. intro H. injection H as <- <-.
    unfold to_dtype. cbn [dtype_of values].
    split; [reflexivity|]. split; [|split; [reflexivity|]].
    + destruct (dtype_is_complex (dtype_of input)); [exact Hs | rewrite shape_tmap; exact Hs].
    + intros b c f t Hb Hc' Hf Ht Hv.
      destruct (dtype_is_complex (dtype_of input)); [apply Hz; assumption|].
      rewrite (@get_tmap complex complex Creal_part Czero Czero _ [b; c; f; t] Hw)
        by (rewrite Hs; apply in_range4; assumption).
      rewrite Hz by assumption. reflexivity.
Qed.

Hypothesis cholesky_returns :
  forall Q, exists QL, cholesky Q = Ok QL /\ shape QL = shape Q.
Hypothesis solve_triangular_returns :
  forall A B upper, exists G, solve_triangular A B upper = Ok G /\ shape G = shape B.

Lemma iterations_return :
  forall n i st,
    shape (MaskBasedDereverbWPE.output st) = [B; C; F; N] ->
    exists st',
      MaskBasedDereverbWPE.iterations cholesky solve_triangular self input_length mask n i st
        = Ok st'.
Proof.
  induction n as [|n IH]; intros i st Hs.
  - eexists. reflexivity.
  - cbn [MaskBasedDereverbWPE.iterations].
    assert (H1 : exists st1,
              MaskBasedDereverbWPE.iteration cholesky solve_triangular self input_length mask i st
                = Ok st1).
    { unfold MaskBasedDereverbWPE.iteration.
      destruct (@iteration_power i _ Hs) as [magnitude [-> Hsm]]. cbn [bind].
      destruct (@wpe_forward_returns cholesky solve_triangular cholesky_returns
                  solve_triangular_returns (MaskBasedDereverbWPE.filter self)
                  (MaskBasedDereverbWPE.output st) (tmap (fun m => (m ^ 2)%R) magnitude)
                  input_length B C F N Hs ltac:(rewrite shape_tmap; exact Hsm)
                  lengths_shape filter_length_pos delay_nonneg some_frames)
        as [out [Hout _]].
      rewrite Hout. cbn [bind]. eexists. reflexivity. }
    destruct H1 as [st1 H1]. rewrite H1. cbn [bind].
    apply IH. exact (proj1 (@iteration_processed i st _ Hs H1)).
Qed.

Lemma dereverb_forward_returns :
  forall (input : dtensor complex),
    dtype_is_complex (MaskBasedDereverbWPE.dtype_ self) = true ->
    shape (values input) = [B; C; F; N] ->
    (1 <= MaskBasedDereverbWPE.num_iterations self)%Z ->
    exists output,
      MaskBasedDereverbWPE.forward cholesky solve_triangular self input input_length mask
        = Ok (output, input_length).
Proof.
  intros input Hc Hin Hn.
  rewrite (@dereverb_forward_unfold cholesky solve_triangular self input input_length mask Hc).
  assert (H0 : shape (MaskBasedDereverbWPE.output
                        (MaskBasedDereverbWPE.mkLocals
                           (values (to_dtype Creal_part (MaskBasedDereverbWPE.dtype_ self) input))
                           None)) = [B; C; F; N]).
  { cbn [MaskBasedDereverbWPE.output]. unfold to_dtype. rewrite Hc. exact Hin. }
  destruct (@iterations_return (Z.to_nat (MaskBasedDereverbWPE.num_iterations self)) 0 _ H0)
    as [st Hst].
  rewrite Hst. cbn [bind].
  destruct (Z.to_nat (MaskBasedDereverbWPE.num_iterations self)) as [|n] eqn:En; [lia|].
  destruct (@iterations_processed n 0 _ _ H0 Hst) as [_ [_ [Hl _]]].
  rewrite Hl. eexists. reflexivity.
Qed.

End DereverbShape.

Lemma dereverb_forward_keeps_shape_witness :
  exists output,
    MaskBasedDereverbWPE.forward MoreExamples.stub_cholesky MoreExamples.stub_solve_triangular
      Examples.dereverb1 Examples.real_input None None = Ok (output, None) /\
    dtype_of output = dtype_of Examples.real_input /\
    shape (values output) = [1; 1; 1; 2] /\
    forall b c f t, b < 1 -> c < 1 -> f < 1 -> t < 2 ->
      valid_frame None b t = false ->
      get Czero (values output) [b; c; f; t] = Czero.
Proof.
  destruct (@dereverb_forward_returns MoreExamples.stub_cholesky
              MoreExamples.stub_solve_triangular Examples.dereverb1 None None 1 1 1 2
              I I ltac:(simpl; lia) ltac:(simpl; lia) ltac:(lia)
              stub_cholesky_returns stub_solve_returns
              Examples.real_input eq_refl eq_refl ltac:(simpl; lia))
    as [output Hf].
  exists output. split; [exact Hf|].
  destruct (@dereverb_forward_keeps_shape_and_dtype MoreExamples.stub_cholesky
              MoreExamples.stub_solve_triangular Examples.dereverb1 None None 1 1 1 2
              I I ltac:(simpl; lia) ltac:(simpl; lia) ltac:(lia)
              Examples.real_input output None eq_refl eq_refl Hf)
    as [Hd [Hs [_ Hz]]].
  split; [exact Hd|]. split; [exact Hs | exact Hz].
Defined.

(** ** MaskBasedDereverbWPE.forward: the iterations compose *)

Section DereverbCompose.
Variable cholesky : tensor complex -> result (tensor complex).
Variable solve_triangular : tensor complex -> tensor complex -> bool -> result (tensor complex).
Let forward := MaskBasedDereverbWPE.forward cholesky solve_triangular.
Let iteration := MaskBasedDereverbWPE.iteration cholesky solve_triangular.
Let iterations := MaskBasedDereverbWPE.iterations cholesky solve_triangular.

Lemma wpe_forward_length :
  forall self input power input_length r,
    WPEFilter.forward cholesky solve_triangular self input power input_length = Ok r ->
    snd r = input_length.
Proof.
  intros self input power input_length r. unfold WPEFilter.forward.
  repeat match goal with
         | |- bind ?x _ = _ -> _ => destruct x; cbn [bind]; [|discriminate]
         end.
  intro H. injection H as <-. reflexivity.
Qed.

(** An iteration reads the mask only when it is the first one, and only
    the output of the previous one. *)
Lemma iteration_later :
  forall self input_length mask i j st st',
    MaskBasedDereverbWPE.output st' = MaskBasedDereverbWPE.output st ->
    iteration self input_length mask (S i) st = iteration self input_length None j st'.
Proof.
  intros self input_length mask i j st st' Ho.
  unfold iteration, MaskBasedDereverbWPE.iteration. rewrite Ho.
  destruct mask; reflexivity.
Qed.

Lemma iteration_other_settings :
  forall self n input_length mask i st,
    iteration (with_iterations self n) input_length mask i st
    = iteration self input_length mask i st.
Proof. reflexivity. Qed.

Lemma iterations_later :
  forall self n input_length mask k i j st st',
    MaskBasedDereverbWPE.output st' = MaskBasedDereverbWPE.output st ->
    iterations self input_length mask (S k) (S i) st
    = iterations (with_iterations self n) input_length None (S k) j st'.
Proof.
  intros self n input_length mask. induction k as [|k IH]; intros i j st st' Ho.
  - unfold iterations. cbn [MaskBasedDereverbWPE.iterations].
    fold iteration. rewrite iteration_other_settings.
    rewrite (@iteration_later self input_length mask i j st st' Ho). reflexivity.
  - unfold iterations.
    change (MaskBasedDereverbWPE.iterations cholesky solve_triangular self input_length mask
              (S (S k)) (S i) st)
      with (st1 <- iteration self input_length mask (S i) st ;;
            iterations self input_length mask (S k) (S (S i)) st1).
    change (MaskBasedDereverbWPE.iterations cholesky solve_triangular (with_iterations self n)
              input_length None (S (S k)) j st')
      with (st1 <- iteration (with_iterations self n) input_length None j st' ;;
            iterations (with_iterations self n) input_length None (S k) (S j) st1).
    rewrite iteration_other_settings.
    rewrite (@iteration_later self input_length mask i j st st' Ho).
    destruct (iteration self input_length None j st') as [st1|e]; cbn [bind]; [|reflexivity].
    apply IH. reflexivity.
Qed.

(** X21: the mask enters the first reweighting iteration only.  For an input
    of the module's complex data type, running [1 + k] iterations with a
    mask is running one iteration with the mask and then [k >= 1]
    iterations without a mask on its output. *)
Theorem dereverb_iterations_compose :
  forall (self : MaskBasedDereverbWPE.t) (input : dtensor complex)
         (input_length : option (tensor Z)) (mask : option (tensor R)) (k : Z),
    dtype_is_complex (MaskBasedDereverbWPE.dtype_ self) = true ->
    dtype_of input = MaskBasedDereverbWPE.dtype_ self ->
    (1 <= k)%Z ->
    MaskBasedDereverbWPE.num_iterations self = (1 + k)%Z ->
    forward self input input_length mask =
      (first <- forward (with_iterations self 1) input input_length mask ;;
       forward (with_iterations self k) (fst first) (snd first) None).
Proof.
  intros self input input_length mask k Hc Hio Hk Hn.
  unfold forward.
  rewrite (@dereverb_forward_unfold cholesky solve_triangular self input input_length mask Hc).
  rewrite (@dereverb_forward_unfold cholesky solve_triangular (with_iterations self 1) input
             input_length mask Hc).
  cbn [with_iterations MaskBasedDereverbWPE.num_iterations MaskBasedDereverbWPE.dtype_].
  rewrite Hn.
  replace (Z.to_nat (1 + k)) with (S (S (Z.to_nat (k - 1)))) by lia.
  change (Z.to_nat 1) with 1.
  set (st0 := MaskBasedDereverbWPE.mkLocals
                (values (to_dtype Creal_part (MaskBasedDereverbWPE.dtype_ self) input)) None).
  change (MaskBasedDereverbWPE.iterations cholesky solve_triangular self input_length mask
            (S (S (Z.to_nat (k - 1)))) 0 st0)
    with (st1 <- iteration self input_length mask 0 st0 ;;
          iterations self input_length mask (S (Z.to_nat (k - 1))) 1 st1).
  change (MaskBasedDereverbWPE.iterations cholesky solve_triangular (with_iterations self 1)
            input_length mask 1 0 st0)
    with (st1 <- iteration self input_length mask 0 st0 ;; Ok st1).
  destruct (iteration self input_length mask 0 st0) as [st1|e] eqn:E1; cbn [bind];
    [|reflexivity].
  assert (Hl : MaskBasedDereverbWPE.output_length st1 = Some input_length).
  { revert E1. unfold iteration, MaskBasedDereverbWPE.iteration.
    match goal with
    | |- bind ?x _ = _ -> _ => destruct x; cbn [bind]; [|discriminate]
    end.
    destruct (WPEFilter.forward _ _ _ _ _ _) as [r|e] eqn:Er; cbn [bind]; [|discriminate].
    intro H. injection H as <-. cbn [MaskBasedDereverbWPE.output_length].
    rewrite (wpe_forward_length _ _ _ _ Er). reflexivity. }
  rewrite Hl. cbn [bind fst snd].
  rewrite (@dereverb_forward_unfold cholesky solve_triangular (with_iterations self k) _
             input_length None Hc).
  cbn [with_iterations MaskBasedDereverbWPE.num_iterations MaskBasedDereverbWPE.dtype_].
  replace (Z.to_nat k) with (S (Z.to_nat (k - 1))) by lia.
  rewrite (@iterations_later self k input_length mask (Z.to_nat (k - 1)) 0 0 st1
             (MaskBasedDereverbWPE.mkLocals
                (values
                   (to_dtype Creal_part (MaskBasedDereverbWPE.dtype_ self)
                      (to_dtype Creal_part (dtype_of input)
                         (mkD (MaskBasedDereverbWPE.dtype_ self)
                            (MaskBasedDereverbWPE.output st1))))) None)).
  - fold iterations.
    destruct (iterations (with_iterations self k) input_length None
                (S (Z.to_nat (k - 1))) 0 _) as [st|e]; cbn [bind]; [|reflexivity].
    unfold to_dtype at 2. cbn [dtype_of]. reflexivity.
  - cbn [MaskBasedDereverbWPE.output]. unfold to_dtype. cbn [values dtype_of].
    rewrite Hio, Hc. reflexivity.
Qed.

End DereverbCompose.

Lemma dereverb_iterations_compose_witness :
  MaskBasedDereverbWPE.forward MoreExamples.stub_cholesky MoreExamples.stub_solve_triangular
    MoreExamples.dereverb2 Examples.complex_input None (Some MoreExamples.half_mask)
  = (first <- MaskBasedDereverbWPE.forward MoreExamples.stub_cholesky
                MoreExamples.stub_solve_triangular
                (with_iterations MoreExamples.dereverb2 1) Examples.complex_input None
                (Some MoreExamples.half_mask) ;;
     MaskBasedDereverbWPE.forward MoreExamples.stub_cholesky MoreExamples.stub_solve_triangular
       (with_iterations MoreExamples.dereverb2 1) (fst first) (snd first) None).
Proof.
  apply (@dereverb_iterations_compose MoreExamples.stub_cholesky
           MoreExamples.stub_solve_triangular MoreExamples.dereverb2 Examples.complex_input
           None (Some MoreExamples.half_mask) 1);
    first [reflexivity | lia].
Defined.

(** ** Valid lengths: the padding is never read *)

Lemma flat_index_unflatten :
  forall s k, k < numel s -> flat_index s (unflatten s k) = k.
Proof.
  induction s as [|n s IH]; intros k Hk.
  - cbn in *. lia.
  - cbn [unflatten flat_index].
    assert (Hpos : 0 < numel s).
    { destruct (numel s) eqn:E; [|lia]. cbn [numel fold_right] in Hk.
      change (fold_right Nat.mul 1 s) with (numel s) in Hk. rewrite E in Hk. lia. }
    rewrite IH by (apply Nat.mod_upper_bound; lia).
    rewrite (Nat.div_mod_eq k (numel s)) at 3. lia.
Qed.

(** Two well-formed tensors of one shape with the same entries are equal. *)
Lemma tensor_ext :
  forall (A : Type) (d : A) (x y : tensor A),
    shape x = shape y -> wf x -> wf y ->
    (forall idx, in_range (shape x) idx -> get d x idx = get d y idx) ->
    x = y.
Proof.
  intros A d [sx dx] [sy dy] Hs Hx Hy H. cbn [shape] in Hs. subst sy.
  unfold wf in Hx, Hy. cbn [shape data] in *. f_equal.
  apply (nth_ext dx dy d d); [congruence|].
  intros k Hk. rewrite Hx in Hk.
  specialize (H (unflatten sx k) (@unflatten_in_range sx k Hk)).
  unfold get in H. cbn [shape data] in H.
  rewrite flat_index_unflatten in H by exact Hk. exact H.
Qed.

Lemma Cmul_scale_zero :
  forall a a' c c', Cmul a (Cscale 0 c) = Cmul a' (Cscale 0 c').
Proof. intros. unfold Cmul, Cscale. cbn [re im]. f_equal; ring. Qed.

Section WPEPadding.
Variable cholesky : tensor complex -> result (tensor complex).
Variable solve_triangular : tensor complex -> tensor complex -> bool -> result (tensor complex).

Variable self : WPEFilter.t.
Variables input input' : tensor complex.
Variables power power' : tensor R.
Variable lengths : tensor Z.
Variables B C F N : nat.
Hypothesis input_shape : shape input = [B; C; F; N].
Hypothesis input_shape' : shape input' = [B; C; F; N].
Hypothesis power_shape : shape power = [B; C; F; N].
Hypothesis power_shape' : shape power' = [B; C; F; N].
Hypothesis lengths_shape : shape lengths = [B].
Hypothesis filter_length_pos : (1 <= WPEFilter.filter_length self)%Z.
Hypothesis delay_nonneg : (0 <= WPEFilter.prediction_delay self)%Z.
Hypothesis some_frames : 0 < N.
(** The two signals and powers agree on the valid frames. *)
Hypothesis same_input :
  forall b c f t, b < B -> c < C -> f < F -> t < N ->
    (Z.of_nat t < get 0%Z lengths [b])%Z ->
    get Czero input [b; c; f; t] = get Czero input' [b; c; f; t].
Hypothesis same_power :
  forall b c f t, b < B -> c < C -> f < F -> t < N ->
    (Z.of_nat t < get 0%Z lengths [b])%Z ->
    get 0%R power [b; c; f; t] = get 0%R power' [b; c; f; t].

Lemma wpe_forward_padding :
  WPEFilter.forward cholesky solve_triangular self input power (Some lengths)
  = WPEFilter.forward cholesky solve_triangular self input' power' (Some lengths).
Proof.
  unfold WPEFilter.forward, WPEFilter.mean_channels.
  rewrite power_shape, power_shape'. cbn [bind].
  destruct (@convtensor_default_steps complex Czero input B C F N
              (WPEFilter.filter_length self) (WPEFilter.prediction_delay self)
              input_shape filter_length_pos delay_nonneg some_frames)
    as [tilde [Ht [Hst [Hwt Hent]]]].
  destruct (@convtensor_default_steps complex Czero input' B C F N
              (WPEFilter.filter_length self) (WPEFilter.prediction_delay self)
              input_shape' filter_length_pos delay_nonneg some_frames)
    as [tilde' [Ht' [Hst' [Hwt' Hent']]]].
  rewrite Ht, Ht'. cbn [bind].
  set (L := Z.to_nat (WPEFilter.filter_length self)) in *.
  set (mean := fun p : tensor R =>
                 tab [B; F; N]
                   (fun idx => match idx with
                               | [b; f; t] =>
                                   (sum_upto C (fun c => get 0%R p [b; c; f; t]) / INR C)%R
                               | _ => 0%R
                               end)).
  set (weight := tmap (fun w => (1 / (w + WPEFilter.eps self))%R) (mean power)).
  set (weight' := tmap (fun w => (1 / (w + WPEFilter.eps self))%R) (mean power')).
  (* the entries of the convolution tensors agree on the valid frames *)
  assert (Htilde : forall b j f i k, b < B -> j < C -> f < F -> i < N -> k < L ->
            (Z.of_nat i < get 0%Z lengths [b])%Z ->
            get Czero tilde [b; j; f; i; k] = get Czero tilde' [b; j; f; i; k]).
  { intros b j f i k Hb Hj Hf Hi Hk Hv.
    rewrite (Hent b j f i k Hb Hj Hf Hi Hk), (Hent' b j f i k Hb Hj Hf Hi Hk). cbv zeta.
    destruct (Z.leb_spec 0 (Z.of_nat i - WPEFilter.prediction_delay self
                            - (WPEFilter.filter_length self - 1) + Z.of_nat k));
      [|reflexivity].
    apply same_input; try assumption; subst L; lia. }
  assert (Hweight : forall b f i, b < B -> f < F -> i < N ->
            (Z.of_nat i < get 0%Z lengths [b])%Z ->
            get 0%R weight [b; f; i] = get 0%R weight' [b; f; i]).
  { intros b f i Hb Hf Hi Hv. subst weight weight' mean. cbv beta.
    rewrite (@get_tmap R R (fun w => (1 / (w + WPEFilter.eps self))%R) 0%R 0%R _
               [b; f; i] (wf_tab _ _))
      by (rewrite shape_tab; apply in_range3; assumption).
    rewrite (@get_tmap R R (fun w => (1 / (w + WPEFilter.eps self))%R) 0%R 0%R _
               [b; f; i] (wf_tab _ _))
      by (rewrite shape_tab; apply in_range3; assumption).
    rewrite !get_tab by (apply in_range3; assumption).
    f_equal. f_equal. f_equal. apply sum_upto_ext. intros c Hc.
    apply same_power; assumption. }
  assert (Hsummand : forall b f i (a a' c c' : complex), b < B -> f < F -> i < N ->
            ((Z.of_nat i < get 0%Z lengths [b])%Z -> a = a' /\ c = c') ->
            Cmul (Cconj a) (Cscale (masked_weight weight (Some lengths) b f i) c)
            = Cmul (Cconj a') (Cscale (masked_weight weight' (Some lengths) b f i) c')).
  { intros b f i a a' c c' Hb Hf Hi Hac. unfold masked_weight.
    destruct (Z.ltb_spec (Z.of_nat i) (get 0%Z lengths [b])) as [Hv|Hv].
    - destruct (Hac Hv) as [-> ->]. rewrite (Hweight b f i Hb Hf Hi Hv). reflexivity.
    - apply Cmul_scale_zero. }
  destruct (@estimate_correlations_entries input weight tilde (Some lengths) B C F N L
              input_shape ltac:(subst weight mean; rewrite shape_tmap; apply shape_tab)
              Hst Hwt lengths_shape)
    as [Q [R [HQR [HsQ [HsR [HwQ [HwR [HQ HR]]]]]]]].
  destruct (@estimate_correlations_entries input' weight' tilde' (Some lengths) B C F N L
              input_shape' ltac:(subst weight' mean; rewrite shape_tmap; apply shape_tab)
              Hst' Hwt' lengths_shape)
    as [Q' [R' [HQR' [HsQ' [HsR' [HwQ' [HwR' [HQ' HR']]]]]]]].
  unfold weight, weight', mean in HQR, HQR'. cbv beta in HQR, HQR'.
  rewrite HQR, HQR'. cbn [bind fst snd].
  assert (EQ : Q = Q').
  { apply (tensor_ext Czero); [congruence | assumption | assumption |].
    rewrite HsQ. intros idx Hidx.
    destruct idx as [|b [|f [|j [|k [|m [|n [|? ?]]]]]]]; cbn in Hidx; try tauto.
    destruct Hidx as [Hb [Hf [Hj [Hk [Hm [Hn _]]]]]].
    rewrite HQ, HQ' by assumption. apply Csum_upto_ext. intros i Hi.
    apply Hsummand; try assumption. intros Hv. split; apply Htilde; assumption. }
  assert (ER : R = R').
  { apply (tensor_ext Czero); [congruence | assumption | assumption |].
    rewrite HsR. intros idx Hidx.
    destruct idx as [|b [|f [|j [|k [|m [|? ?]]]]]]; cbn in Hidx; try tauto.
    destruct Hidx as [Hb [Hf [Hj [Hk [Hm _]]]]].
    rewrite HR, HR' by assumption. apply Csum_upto_ext. intros i Hi.
    apply Hsummand; try assumption. intros Hv.
    split; [apply Htilde | apply same_input]; assumption. }
  subst Q' R'.
  destruct (WPEFilter.estimate_filter cholesky solve_triangular self Q R) as [G|e] eqn:EG;
    cbn [bind]; [|reflexivity].
  pose proof (estimate_filter_shape _ _ _ _ _ HsQ EG) as HsG.
  unfold WPEFilter.apply_filter, WPEFilter.einsum_apply. rewrite Hst, Hst', HsG.
  rewrite !Nat.eqb_refl. cbn [andb bind].
  rewrite !broadcast2_same_shape
    by (rewrite shape_tab; first [symmetry; exact input_shape | symmetry; exact input_shape']).
  cbn [bind]. rewrite input_shape, input_shape'.
  match goal with
  | |- (y <- WPEFilter.mask_padded_frames Czero ?x lengths ;; _)
       = (y' <- WPEFilter.mask_padded_frames Czero ?x' lengths ;; _) =>
      destruct (@mask_padded_frames_entries complex Czero x lengths B [C; F; N]
                  (shape_tab _ _) ltac:(discriminate) lengths_shape)
        as [y [Hy [Hsy [Hwy Hey]]]];
      destruct (@mask_padded_frames_entries complex Czero x' lengths B [C; F; N]
                  (shape_tab _ _) ltac:(discriminate) lengths_shape)
        as [y' [Hy' [Hsy' [Hwy' Hey']]]]
  end.
  rewrite Hy, Hy'. cbn [bind]. do 2 f_equal.
  apply (tensor_ext Czero); [rewrite Hsy, Hsy', !shape_tab; reflexivity | assumption..|].
  rewrite Hsy, shape_tab. intros idx Hidx.
  rewrite Hey, Hey' by (rewrite shape_tab; exact Hidx).
  destruct idx as [|b [|c [|f [|t [|? ?]]]]]; cbn in Hidx; try tauto.
  destruct Hidx as [Hb [Hc [Hf [Hi _]]]]. cbn [last hd].
  destruct (Z.ltb_spec (Z.of_nat t) (get 0%Z lengths [b])) as [Hv|Hv]; [|reflexivity].
  rewrite !get_tab by (apply in_range4; assumption).
  rewrite (same_input Hb Hc Hf Hi Hv). f_equal.
  apply Csum_upto_ext. intros j Hj. apply Csum_upto_ext. intros k Hk.
  rewrite (Htilde b j f t k Hb Hj Hf Hi Hk Hv). reflexivity.
Qed.

End WPEPadding.

(** X22: with lengths given, [forward] does not depend on what the padding
    holds: two signals and powers that agree on the valid frames of every
    batch item give the same result, be it an output or an error of the
    backend. *)
Theorem wpe_forward_ignores_padding :
  forall cholesky solve_triangular (self : WPEFilter.t) (input input' : tensor complex)
         (power power' : tensor R) (lengths : tensor Z) (B C F N : nat),
    shape input = [B; C; F; N] -> shape input' = [B; C; F; N] ->
    shape power = [B; C; F; N] -> shape power' = [B; C; F; N] ->
    shape lengths = [B] ->
    (1 <= WPEFilter.filter_length self)%Z -> (0 <= WPEFilter.prediction_delay self)%Z ->
    0 < N ->
    (forall b c f t, b < B -> c < C -> f < F -> t < N ->
       (Z.of_nat t < get 0%Z lengths [b])%Z ->
       get Czero input [b; c; f; t] = get Czero input' [b; c; f; t] /\
       get 0%R power [b; c; f; t] = get 0%R power' [b; c; f; t]) ->
    WPEFilter.forward cholesky solve_triangular self input power (Some lengths)
    = WPEFilter.forward cholesky solve_triangular self input' power' (Some lengths).
Proof.
  intros cholesky solve_triangular self input input' power power' lengths B C F N
         Hi Hi' Hp Hp' Hl HL Hd HN Hsame.
  apply (@wpe_forward_padding cholesky solve_triangular self input input' power power' lengths
           B C F N Hi Hi' Hp Hp' Hl HL Hd HN).
  - intros b c f t Hb Hc Hf Ht Hv. exact (proj1 (Hsame b c f t Hb Hc Hf Ht Hv)).
  - intros b c f t Hb Hc Hf Ht Hv. exact (proj2 (Hsame b c f t Hb Hc Hf Ht Hv)).
Qed.

Lemma padded_examples_agree :
  forall b c f t, b < 1 -> c < 1 -> f < 1 -> t < 2 ->
    (Z.of_nat t < get 0%Z Examples.one_length [b])%Z ->
    get Czero (values Examples.complex_input) [b; c; f; t]
    = get Czero (values MoreExamples.zero_padded_input) [b; c; f; t] /\
    get 0%R MoreExamples.unit_power [b; c; f; t] = get 0%R MoreExamples.other_power [b; c; f; t].
Proof.
  intros b c f t Hb Hc Hf Ht Hv.
  assert (b = 0) by lia. assert (c = 0) by lia. assert (f = 0) by lia. subst b c f.
  assert (t = 0) by (cbn in Hv; lia). subst t.
  split; reflexivity.
Qed.

Lemma wpe_forward_ignores_padding_witness :
  WPEFilter.forward MoreExamples.stub_cholesky MoreExamples.stub_solve_triangular
    MoreExamples.wpe31 (values Examples.complex_input) MoreExamples.unit_power
    (Some Examples.one_length)
  = WPEFilter.forward MoreExamples.stub_cholesky MoreExamples.stub_solve_triangular
      MoreExamples.wpe31 (values MoreExamples.zero_padded_input) MoreExamples.other_power
      (Some Examples.one_length).
Proof.
  apply (@wpe_forward_ignores_padding MoreExamples.stub_cholesky
           MoreExamples.stub_solve_triangular MoreExamples.wpe31
           (values Examples.complex_input) (values MoreExamples.zero_padded_input)
           MoreExamples.unit_power MoreExamples.other_power Examples.one_length 1 1 1 2);
    first [reflexivity | simpl; lia | exact padded_examples_agree].
Defined.

Section DereverbPadding.
Variable cholesky : tensor complex -> result (tensor complex).
Variable solve_triangular : tensor complex -> tensor complex -> bool -> result (tensor complex).

Variable self : MaskBasedDereverbWPE.t.
Variable lengths : tensor Z.
Variable mask : option (tensor R).
Variables B C F N : nat.
Hypothesis mask_shape : mask_fits mask B C F N.
Hypothesis lengths_shape : shape lengths = [B].
Hypothesis filter_length_pos : (1 <= WPEFilter.filter_length (MaskBasedDereverbWPE.filter self))%Z.
Hypothesis delay_nonneg : (0 <= WPEFilter.prediction_delay (MaskBasedDereverbWPE.filter self))%Z.
Hypothesis some_frames : 0 < N.

(** Two signals that agree on the valid frames. *)
Let same_valid (x x' : tensor complex) : Prop :=
  forall b c f t, b < B -> c < C -> f < F -> t < N ->
    (Z.of_nat t < get 0%Z lengths [b])%Z ->
    get Czero x [b; c; f; t] = get Czero x' [b; c; f; t].

Lemma iteration_padding :
  forall i (x x' : tensor complex) l l',
    shape x = [B; C; F; N] -> shape x' = [B; C; F; N] -> wf x -> wf x' ->
    same_valid x x' ->
    MaskBasedDereverbWPE.iteration cholesky solve_triangular self (Some lengths) mask i
      (MaskBasedDereverbWPE.mkLocals x l)
    = MaskBasedDereverbWPE.iteration cholesky solve_triangular self (Some lengths) mask i
        (MaskBasedDereverbWPE.mkLocals x' l').
Proof.
  intros i x x' l l' Hs Hs' Hw Hw' Hsame.
  unfold MaskBasedDereverbWPE.iteration. cbn [MaskBasedDereverbWPE.output].
  assert (Hmag : forall b c f t, b < B -> c < C -> f < F -> t < N ->
            (Z.of_nat t < get 0%Z lengths [b])%Z ->
            get 0%R (tmap Cabs x) [b; c; f; t] = get 0%R (tmap Cabs x') [b; c; f; t]).
  { intros b c f t Hb Hc Hf Ht Hv.
    rewrite (@get_tmap complex R Cabs Czero 0%R x [b; c; f; t] Hw)
      by (rewrite Hs; apply in_range4; assumption).
    rewrite (@get_tmap complex R Cabs Czero 0%R x' [b; c; f; t] Hw')
      by (rewrite Hs'; apply in_range4; assumption).
    rewrite (Hsame b c f t Hb Hc Hf Ht Hv). reflexivity. }
  assert (Hpow : exists magnitude magnitude',
            match mask with
            | Some mask =>
                if i =? 0
                then broadcast2 0%R 0%R Rmult
                       (tmap (clamp (MaskBasedDereverbWPE.mask_min self)
                                (MaskBasedDereverbWPE.mask_max self)) mask)
                       (tmap Cabs x)
                else Ok (tmap Cabs x)
            | None => Ok (tmap Cabs x)
            end = Ok magnitude /\
            match mask with
            | Some mask =>
                if i =? 0
                then broadcast2 0%R 0%R Rmult
                       (tmap (clamp (MaskBasedDereverbWPE.mask_min self)
                                (MaskBasedDereverbWPE.mask_max self)) mask)
                       (tmap Cabs x')
                else Ok (tmap Cabs x')
            | None => Ok (tmap Cabs x')
            end = Ok magnitude' /\
            shape magnitude = [B; C; F; N] /\ shape magnitude' = [B; C; F; N] /\
            wf magnitude /\ wf magnitude' /\
            forall b c f t, b < B -> c < C -> f < F -> t < N ->
              (Z.of_nat t < get 0%Z lengths [b])%Z ->
              get 0%R magnitude [b; c; f; t] = get 0%R magnitude' [b; c; f; t]).
  { assert (Hplain : exists magnitude magnitude',
              Ok (tmap Cabs x) = Ok magnitude /\ Ok (tmap Cabs x') = Ok magnitude' /\
              shape magnitude = [B; C; F; N] /\ shape magnitude' = [B; C; F; N] /\
              wf magnitude /\ wf magnitude' /\
              forall b c f t, b < B -> c < C -> f < F -> t < N ->
                (Z.of_nat t < get 0%Z lengths [b])%Z ->
                get 0%R magnitude [b; c; f; t] = get 0%R magnitude' [b; c; f; t]).
    { exists (tmap Cabs x), (tmap Cabs x'). rewrite !shape_tmap.
      repeat split; try assumption; try reflexivity; apply wf_tmap; assumption. }
    destruct mask as [m|]; [destruct (i =? 0)|]; try exact Hplain.
    destruct mask_shape as [Hm|Hm].
    - rewrite !broadcast2_expand_l
        by (rewrite !shape_tmap, Hm; first [rewrite Hs | rewrite Hs'];
            apply expandable_channel).
      rewrite !shape_tmap, Hs, Hs'.
      eexists. eexists. split; [reflexivity|]. split; [reflexivity|].
      rewrite !shape_tab. repeat split; try apply wf_tab.
      intros b c f t Hb Hc Hf Ht Hv.
      rewrite !get_tab by (apply in_range4; assumption).
      rewrite (Hmag b c f t Hb Hc Hf Ht Hv). reflexivity.
    - rewrite !broadcast2_same_shape
        by (rewrite !shape_tmap, Hm; first [rewrite Hs | rewrite Hs']; reflexivity).
      rewrite !shape_tmap, Hm.
      eexists. eexists. split; [reflexivity|]. split; [reflexivity|].
      rewrite !shape_tab. repeat split; try apply wf_tab.
      intros b c f t Hb Hc Hf Ht Hv.
      rewrite !get_tab by (apply in_range4; assumption).
      rewrite (Hmag b c f t Hb Hc Hf Ht Hv). reflexivity. }
  destruct Hpow as [magnitude [magnitude' [-> [-> [Hsm [Hsm' [Hwm [Hwm' Hsamem]]]]]]]].
  cbn [bind].
  rewrite (@wpe_forward_padding cholesky solve_triangular (MaskBasedDereverbWPE.filter self)
             x x' (tmap (fun m => (m ^ 2)%R) magnitude) (tmap (fun m => (m ^ 2)%R) magnitude')
             lengths B C F N Hs Hs'
             ltac:(rewrite shape_tmap; exact Hsm) ltac:(rewrite shape_tmap; exact Hsm')
             lengths_shape filter_length_pos delay_nonneg some_frames Hsame).
  - reflexivity.
  - intros b c f t Hb Hc Hf Ht Hv.
    rewrite (@get_tmap R R (fun m => (m ^ 2)%R) 0%R 0%R magnitude [b; c; f; t] Hwm)
      by (rewrite Hsm; apply in_range4; assumption).
    rewrite (@get_tmap R R (fun m => (m ^ 2)%R) 0%R 0%R magnitude' [b; c; f; t] Hwm')
      by (rewrite Hsm'; apply in_range4; assumption).
    rewrite (Hsamem b c f t Hb Hc Hf Ht Hv). reflexivity.
Qed.

(** X23: the same holds of the dereverberation as a whole, for any number
    of iterations and with or without a mask: inputs of one data type that
    agree on the valid frames give the same result. *)
Theorem dereverb_forward_ignores_padding :
  forall (input input' : dtensor complex),
    dtype_is_complex (MaskBasedDereverbWPE.dtype_ self) = true ->
    dtype_of input' = dtype_of input ->
    shape (values input) = [B; C; F; N] -> shape (values input') = [B; C; F; N] ->
    wf (values input) -> wf (values input') ->
    same_valid (values input) (values input') ->
    MaskBasedDereverbWPE.forward cholesky solve_triangular self input (Some lengths) mask
    = MaskBasedDereverbWPE.forward cholesky solve_triangular self input' (Some lengths) mask.
Proof.
  intros input input' Hc Hio Hs Hs' Hw Hw' Hsame.
  rewrite !(@dereverb_forward_unfold cholesky solve_triangular self _ (Some lengths) mask Hc).
  rewrite Hio. unfold to_dtype at 1 3. rewrite Hc. cbn [values].
  destruct (Z.to_nat (MaskBasedDereverbWPE.num_iterations self)) as [|n]; [reflexivity|].
  cbn [MaskBasedDereverbWPE.iterations].
  rewrite (@iteration_padding 0 (values input) (values input') None None Hs Hs' Hw Hw' Hsame).
  reflexivity.
Qed.

End DereverbPadding.

Lemma dereverb_forward_ignores_padding_witness :
  MaskBasedDereverbWPE.forward MoreExamples.stub_cholesky MoreExamples.stub_solve_triangular
    MoreExamples.dereverb2 Examples.complex_input (Some Examples.one_length)
    (Some MoreExamples.half_mask)
  = MaskBasedDereverbWPE.forward MoreExamples.stub_cholesky MoreExamples.stub_solve_triangular
      MoreExamples.dereverb2 MoreExamples.zero_padded_input (Some Examples.one_length)
      (Some MoreExamples.half_mask).
Proof.
  apply (@dereverb_forward_ignores_padding MoreExamples.stub_cholesky
           MoreExamples.stub_solve_triangular MoreExamples.dereverb2 Examples.one_length
           (Some MoreExamples.half_mask) 1 1 1 2);
    first [reflexivity | simpl; lia | right; reflexivity | idtac].
  intros b c f t Hb Hc Hf Ht Hv.
  exact (proj1 (padded_examples_agree Hb Hc Hf Ht Hv)).
Defined.

(** ** MaskBasedBeamformer.forward: the outputs *)

Lemma map_result_all :
  forall (A B : Type) (f : A -> result B) (P : B -> Prop) (l : list A),
    (forall a, In a l -> exists b, f a = Ok b /\ P b) ->
    exists bs, map_result f l = Ok bs /\ Forall P bs /\ List.length bs = List.length l.
Proof.
  intros A B f P. induction l as [|a l IH]; intros H.
  - exists []. cbn. auto.
  - destruct (H a (or_introl eq_refl)) as [b [Hb HP]].
    destruct (IH (fun a' Ha' => H a' (or_intror Ha'))) as [bs [Hbs [HF Hlen]]].
    exists (b :: bs). cbn [map_result]. rewrite Hb. cbn [bind]. rewrite Hbs. cbn [bind].
    split; [reflexivity|]. split; [constructor; assumption | simpl; lia].
Qed.

Lemma concatenate_shape :
  forall (A : Type) (d : A) (xs : list (tensor A)) B Mo F N,
    xs <> [] ->
    Forall (fun x => shape x = [B; Mo; F; N]) xs ->
    exists y, concatenate d xs = Ok y /\ shape y = [B; List.length xs * Mo; F; N].
Proof.
  intros A d xs B Mo F N. induction xs as [|x xs IH]; intros Hne HF; [congruence|].
  inversion HF as [|x' xs' Hx HF']; subst.
  destruct xs as [|x2 xs].
  - exists x. split; [reflexivity|]. rewrite Hx. cbn. rewrite Nat.add_0_r. reflexivity.
  - destruct (IH ltac:(discriminate) HF') as [y [Hy Hsy]].
    change (concatenate d (x :: x2 :: xs))
      with (y <- concatenate d (x2 :: xs) ;; cat_channels d x y).
    rewrite Hy. cbn [bind]. unfold cat_channels. rewrite Hx, Hsy.
    rewrite !Nat.eqb_refl. cbn [andb].
    eexists. split; [reflexivity|]. reflexivity.
Qed.

Lemma get_mask4 :
  forall (A : Type) (d : A) (l : list A) B N b t,
    get d (mkTensor [B; 1; 1; N] l) [b; 0; 0; t] = get d (mkTensor [B; 1; N] l) [b; 0; t].
Proof.
  intros. unfold get. cbn [shape data flat_index numel fold_right]. f_equal. lia.
Qed.

Lemma expandable_time4 : forall B M F N, expandable [B; 1; 1; N] [B; M; F; N] = true.
Proof.
  intros. cbn [expandable]. rewrite !Nat.eqb_refl. cbn. rewrite !orb_true_r. reflexivity.
Qed.

Section BeamformerForward.
Variable filter_forward :
  ParametricMultichannelWienerFilter.t -> tensor complex -> tensor R -> tensor R
  -> result (tensor complex).
Variable self : MaskBasedBeamformer.t.
Variable input : tensor complex.
Variable mask : tensor R.
Variable mask_undesired : option (tensor R).
Variable input_length : option (tensor Z).
Variables B M Mo F N : nat.
Hypothesis mask_shape : shape mask = [B; M; F; N].
Hypothesis undesired_shape : undesired_fits mask_undesired B M F N.
Hypothesis lengths_shape : lengths_fit input_length B.
(** The spatial filter returns [Mo] output channels for the input. *)
Hypothesis filter_returns :
  forall mask_s mask_n,
    shape mask_s = [B; F; N] -> shape mask_n = [B; F; N] ->
    exists output_m,
      filter_forward (MaskBasedBeamformer.filter self) input mask_s mask_n = Ok output_m /\
      shape output_m = [B; Mo; F; N].

Let length_mask : option (tensor bool) :=
  match input_length with
  | Some lengths =>
      Some (make_seq_mask_like lengths
              (tab [B; F; N] (fun idx => match idx with
                                         | [b; f; t] => get 0%R mask [b; 0; f; t]
                                         | _ => 0%R
                                         end)) false)
  | None => None
  end.

Lemma length_mask_shape :
  forall lm, length_mask = Some lm -> shape lm = [B; 1; N].
Proof.
  intros lm. unfold length_mask. destruct input_length as [lengths|]; [|discriminate].
  intro H. injection H as <-. cbn [lengths_fit] in lengths_shape.
  rewrite (@time_mask_shape R _ lengths B [F; N] (shape_tab _ _) ltac:(discriminate)
             lengths_shape).
  reflexivity.
Qed.

Lemma fill_opt_shape :
  forall (x : tensor R),
    shape x = [B; F; N] ->
    exists y, MaskBasedBeamformer.fill_opt 0%R length_mask x = Ok y /\ shape y = [B; F; N].
Proof.
  intros x Hx. unfold MaskBasedBeamformer.fill_opt.
  destruct length_mask as [lm|] eqn:El; [|exists x; auto].
  pose proof (@length_mask_shape lm El) as Hlm.
  unfold masked_fill. rewrite Hx, Hlm. cbn [List.length Nat.leb].
  unfold align. cbn [List.length Nat.sub repeat app].
  rewrite expandable_middle3. cbn [andb]. eexists. split; [reflexivity | apply shape_tab].
Qed.

Lemma undesired_mask_shape :
  forall m mask_d,
    m < M -> shape mask_d = [B; F; N] ->
    exists mask_u,
      MaskBasedBeamformer.undesired_mask mask mask_undesired M m mask_d = Ok mask_u /\
      shape mask_u = [B; F; N].
Proof.
  intros m mask_d Hm Hd. unfold MaskBasedBeamformer.undesired_mask.
  destruct mask_undesired as [mu|]; cbn [undesired_fits] in undesired_shape.
  - destruct (@select_channel_ok R 0%R mu B M F N m undesired_shape Hm)
      as [y [Hy [Hsy _]]].
    exists y. auto.
  - destruct (M =? 1).
    + eexists. split; [reflexivity|]. rewrite shape_tmap. exact Hd.
    + unfold sum_channels. rewrite mask_shape. cbn [bind].
      rewrite broadcast2_same_shape by (rewrite shape_tab; exact Hd).
      eexists. split; [reflexivity|]. rewrite shape_tab. apply shape_tab.
Qed.

Lemma output_for_mask_shape :
  forall m,
    m < M ->
    exists output_m,
      MaskBasedBeamformer.output_for_mask filter_forward self input mask mask_undesired
        length_mask M m = Ok output_m /\
      shape output_m = [B; Mo; F; N].
Proof.
  intros m Hm. unfold MaskBasedBeamformer.output_for_mask.
  destruct (@select_channel_ok R 0%R mask B M F N m mask_shape Hm) as [mask_d [Hd [Hsd _]]].
  rewrite Hd. cbn [bind].
  destruct (@undesired_mask_shape m mask_d Hm Hsd) as [mask_u [Hu Hsu]].
  rewrite Hu. cbn [bind].
  destruct (@fill_opt_shape (tmap (clamp (MaskBasedBeamformer.mask_min self)
                                     (MaskBasedBeamformer.mask_max self)) mask_d)
              ltac:(rewrite shape_tmap; exact Hsd)) as [md [Hmd Hsmd]].
  rewrite Hmd. cbn [bind].
  destruct (@fill_opt_shape (tmap (clamp (MaskBasedBeamformer.mask_min self)
                                     (MaskBasedBeamformer.mask_max self)) mask_u)
              ltac:(rewrite shape_tmap; exact Hsu)) as [mu' [Hmu Hsmu]].
  rewrite Hmu. cbn [bind].
  destruct (@filter_returns md mu' Hsmd Hsmu) as [out [Hout Hso]].
  rewrite Hout. cbn [bind].
  destruct (Rltb _ _); [|exists out; auto].
  unfold unsqueeze1. rewrite shape_tmap, Hsd.
  rewrite reshape_ok by (rewrite shape_tmap, Hsd; simpl; lia). cbn [bind].
  erewrite broadcast2_single_channel; [|exact Hso | reflexivity].
  eexists. split; [reflexivity | apply shape_tab].
Qed.

(** X24: for masks of shape (B, num_masks, F, N) with at least one mask and
    a spatial filter that returns [Mo] channels, [forward] returns an output
    of shape (B, num_masks * Mo, F, N) and the lengths unchanged; with
    lengths given, every frame at or beyond the valid length is zero. *)
Theorem beamformer_forward_output_shape :
  0 < M ->
  exists output,
    MaskBasedBeamformer.forward filter_forward self input mask mask_undesired input_length
      = Ok (output, input_length) /\
    shape output = [B; M * Mo; F; N] /\
    forall b c f t, b < B -> c < M * Mo -> f < F -> t < N ->
      valid_frame input_length b t = false ->
      get Czero output [b; c; f; t] = Czero.
Proof.
  intros HM. unfold MaskBasedBeamformer.forward.
  assert (Hlm : match input_length with
                | Some lengths =>
                    like <- select_channel 0%R 0 mask ;;
                    Ok (Some (make_seq_mask_like lengths like false))
                | None => Ok None
                end = Ok length_mask).
  { unfold length_mask. destruct input_length as [lengths|]; [|reflexivity].
    unfold select_channel. rewrite mask_shape.
    rewrite (proj2 (Nat.ltb_lt 0 M) HM). reflexivity. }
  rewrite Hlm. cbn [bind]. rewrite mask_shape.
  destruct (@map_result_all nat (tensor complex)
              (MaskBasedBeamformer.output_for_mask filter_forward self input mask
                 mask_undesired length_mask M)
              (fun o => shape o = [B; Mo; F; N]) (seq 0 M))
    as [outs [Houts [HF Hlen]]].
  { intros m Hin. apply in_seq in Hin. apply output_for_mask_shape. lia. }
  rewrite Houts. cbn [bind]. rewrite length_seq in Hlen.
  destruct (@concatenate_shape complex Czero outs B Mo F N
              ltac:(intro E; subst outs; simpl in Hlen; lia) HF) as [y [Hy Hsy]].
  rewrite Hy. cbn [bind]. rewrite Hlen in Hsy.
  destruct length_mask as [lm|] eqn:El.
  - pose proof (@length_mask_shape lm El) as Hslm.
    unfold unsqueeze1. rewrite Hslm.
    rewrite reshape_ok by (rewrite Hslm; simpl; lia). cbn [bind].
    unfold masked_fill. cbn [shape]. rewrite Hsy. cbn [List.length Nat.leb].
    unfold align. cbn [List.length Nat.sub repeat app].
    rewrite expandable_time4. cbn [andb bind].
    eexists. split; [reflexivity|]. split; [apply shape_tab|].
    intros b c f t Hb Hc Hf Ht Hv.
    rewrite get_tab by (apply in_range4; assumption).
    unfold bget. cbn [shape List.length Nat.sub skipn]. unfold align.
    cbn [List.length Nat.sub repeat app bidx].
    rewrite ?(bsel_lt Hb), ?(bsel_lt Ht), ?Nat.eqb_refl.
    rewrite get_mask4.
    revert El Hv. unfold length_mask, valid_frame.
    destruct input_length as [lengths|]; [|discriminate].
    intros El Hv. injection El as <-.
    unfold make_seq_mask_like. rewrite shape_tab.
    cbn [lengths_fit] in lengths_shape. rewrite lengths_shape.
    cbn [hd List.length Nat.sub repeat app last].
    change (mkTensor [B; 1; N]
              (data (tab [B; 1; N]
                       (fun idx => negb (Z.of_nat (last idx 0%nat) <? get 0%Z lengths [hd 0%nat idx])%Z))))
      with (tab [B; 1; N]
              (fun idx => negb (Z.of_nat (last idx 0%nat) <? get 0%Z lengths [hd 0%nat idx])%Z)).
    rewrite get_tab by (apply in_range3; try assumption; lia).
    cbn [last hd]. rewrite Hv. reflexivity.
  - cbn [bind]. exists y. split; [reflexivity|]. split; [exact Hsy|].
    intros b c f t _ _ _ _. unfold valid_frame.
    revert El. unfold length_mask. destruct input_length; discriminate.
Qed.

End BeamformerForward.

Lemma beamformer_forward_output_shape_witness :
  exists output,
    MaskBasedBeamformer.forward MoreExamples.stub_filter MoreExamples.beamformer1
      Examples.two_channels Examples.two_masks None (Some Examples.one_length)
      = Ok (output, Some Examples.one_length) /\
    shape output = [1; 2 * 2; 1; 1] /\
    forall b c f t, b < 1 -> c < 2 * 2 -> f < 1 -> t < 1 ->
      valid_frame (Some Examples.one_length) b t = false ->
      get Czero output [b; c; f; t] = Czero.
Proof.
  apply (@beamformer_forward_output_shape MoreExamples.stub_filter MoreExamples.beamformer1
           Examples.two_channels Examples.two_masks None (Some Examples.one_length)
           1 2 2 1 1 eq_refl I eq_refl);
    [|lia].
  intros mask_s mask_n _ _. exists Examples.two_channels. split; reflexivity.
Defined.

(** X25: a mask tensor without masks (num_masks = 0) is never accepted:
    without lengths [forward] raises the RuntimeError of [torch.concatenate]
    for an empty list, and with lengths it fails as well. *)
Theorem beamformer_forward_without_masks :
  forall filter_forward (self : MaskBasedBeamformer.t) (input : tensor complex)
         (mask : tensor R) (mask_undesired : option (tensor R)) (B F N : nat),
    shape mask = [B; 0; F; N] ->
    MaskBasedBeamformer.forward filter_forward self input mask mask_undesired None
      = Err (RuntimeError "expected a non-empty list of Tensors") /\
    forall input_length,
      exists e,
        MaskBasedBeamformer.forward filter_forward self input mask mask_undesired input_length
          = Err e.
Proof.
  intros filter_forward self input mask mask_undesired B F N Hs.
  assert (H0 : MaskBasedBeamformer.forward filter_forward self input mask mask_undesired None
               = Err (RuntimeError "expected a non-empty list of Tensors")).
  { unfold MaskBasedBeamformer.forward. cbn [bind]. rewrite Hs. reflexivity. }
  split; [exact H0|].
  intros [lengths|]; [|eexists; exact H0].
  unfold MaskBasedBeamformer.forward, select_channel. rewrite Hs. cbn. eexists. reflexivity.
Qed.

Lemma beamformer_forward_without_masks_witness :
  MaskBasedBeamformer.forward MoreExamples.stub_filter MoreExamples.beamformer1
    Examples.two_channels MoreExamples.no_masks None None
    = Err (RuntimeError "expected a non-empty list of Tensors") /\
  forall input_length,
    exists e,
      MaskBasedBeamformer.forward MoreExamples.stub_filter MoreExamples.beamformer1
        Examples.two_channels MoreExamples.no_masks None input_length = Err e.
Proof.
  apply (@beamformer_forward_without_masks MoreExamples.stub_filter MoreExamples.beamformer1
           Examples.two_channels MoreExamples.no_masks None 1 1 1).
  reflexivity.
Defined.
